(** * Recruitment agent: bulk ingestion pipeline and matching engine

    A shallow embedding of the parts of [resume_parser.py],
    [bulk_processor.py] and [matching_engine.py] that carry the ingestion
    and scoring logic, followed by the properties established about them.

    Conventions of the embedding.
    - A Python [str] is a [string] of 8-bit characters; [lower], [strip] and
      the regex classes [\d] and [\s] act on the ASCII range.
    - A Python [int] is a [Z].
    - The scores are Python floats built from short decimal literals by a
      handful of additions, products and one division.  They are embedded
      as exact rationals ([Q]) and compared with [==]; [round(x, n)] is
      rounding to [n] decimals, ties to even.
    - An exception is a value: a computation that can raise returns a
      [result].
    - The persistence layer, base64 and the PDF/DOCX readers are
      collaborators; they are section variables. *)

From Stdlib Require Import ZArith QArith Qminmax Qround.
From Stdlib Require Import String Ascii Lia Lqa Sorted.
From stdpp Require Import base option list gmap strings pretty.

Local Open Scope Z_scope.
Local Open Scope string_scope.
Local Open Scope list_scope.

(** ** Exceptions as values *)

Inductive result (A : Type) : Type :=
| Ok (a : A)
| Raise (e : string).
Arguments Ok {A} a.
Arguments Raise {A} e.

Global Instance result_ret : MRet result := λ A a, Ok a.

Global Instance result_bind : MBind result := λ A B k r,
  match r with
  | Ok a => k a
  | Raise e => Raise e
  end.

(** ** Python string operations *)

Module PyStr.

Definition is_upper (c : ascii) : bool :=
  let n := nat_of_ascii c in (65 <=? n)%nat && (n <=? 90)%nat.

Definition is_digit (c : ascii) : bool :=
  let n := nat_of_ascii c in (48 <=? n)%nat && (n <=? 57)%nat.

(** [str.isspace] on one character: tab to carriage return, the four
    separators 28 to 31, and the blank. *)
Definition is_space (c : ascii) : bool :=
  let n := nat_of_ascii c in
  ((9 <=? n)%nat && (n <=? 13)%nat) || ((28 <=? n)%nat && (n <=? 32)%nat).

Definition lower_char (c : ascii) : ascii :=
  if is_upper c then ascii_of_nat (nat_of_ascii c + 32) else c.

(** [s.lower()] *)
Fixpoint lower (s : string) : string :=
  match s with
  | EmptyString => EmptyString
  | String c s' => String (lower_char c) (lower s')
  end.

(** [s.startswith(p)] *)
Fixpoint startswith (p s : string) : bool :=
  match p, s with
  | EmptyString, _ => true
  | String a p', String b s' => Ascii.eqb a b && startswith p' s'
  | String _ _, EmptyString => false
  end.

(** [sub in s] *)
Fixpoint contains (sub s : string) : bool :=
  startswith sub s ||
  match s with
  | EmptyString => false
  | String _ s' => contains sub s'
  end.

Fixpoint lstrip (s : string) : string :=
  match s with
  | String c s' => if is_space c then lstrip s' else s
  | EmptyString => EmptyString
  end.

Fixpoint rstrip (s : string) : string :=
  match s with
  | EmptyString => EmptyString
  | String c s' =>
      match rstrip s' with
      | EmptyString => if is_space c then EmptyString else String c EmptyString
      | r => String c r
      end
  end.

(** [s.strip()] *)
Definition strip (s : string) : string := rstrip (lstrip s).

(** [s.split(sep)] for a one-character separator: never empty. *)
Fixpoint split (sep : ascii) (s : string) : list string :=
  match s with
  | EmptyString => [EmptyString]
  | String c s' =>
      if Ascii.eqb c sep then EmptyString :: split sep s'
      else match split sep s' with
           | w :: ws => String c w :: ws
           | [] => [String c EmptyString]
           end
  end.

(** [sep.join(l)] *)
Fixpoint join (sep : string) (l : list string) : string :=
  match l with
  | [] => EmptyString
  | [x] => x
  | x :: rest => x ++ sep ++ join sep rest
  end.

(** [len(s)] *)
Definition len (s : string) : Z := Z.of_nat (String.length s).

(** [x in l] for a list of strings *)
Definition mem (x : string) (l : list string) : bool :=
  existsb (String.eqb x) l.

(** Truthiness of a [str]: non-empty. *)
Definition truthy (s : string) : bool :=
  match s with EmptyString => false | _ => true end.

Definition nl : ascii := ascii_of_nat 10.

End PyStr.

(** ** The fragment of [re] used by the parser

    A backtracking matcher in continuation-passing style: alternatives are
    tried left to right and the quantifiers are greedy, as in Python.  The
    patterns modelled have at most one capturing group, so the capture
    state is an [option string]. *)

Module Regex.

Inductive regex : Type :=
| Eps
| Chr (c : ascii)
| Digit
| Space
| Cat (r1 r2 : regex)
| Alt (r1 r2 : regex)
| Opt (r : regex)
| Star (r : regex)
| Plus (r : regex)
| Group (r : regex).

(** A literal word. *)
Fixpoint lit (s : string) : regex :=
  match s with
  | EmptyString => Eps
  | String c EmptyString => Chr c
  | String c s' => Cat (Chr c) (lit s')
  end.

Fixpoint has_group (r : regex) : bool :=
  match r with
  | Group _ => true
  | Cat a b => orb (has_group a) (has_group b)
  | Alt a b => orb (has_group a) (has_group b)
  | Opt a => has_group a
  | Star a => has_group a
  | Plus a => has_group a
  | _ => false
  end.

Definition chr_eqb (ignorecase : bool) (a b : ascii) : bool :=
  if ignorecase then Ascii.eqb (PyStr.lower_char a) (PyStr.lower_char b)
  else Ascii.eqb a b.

(** The first [n] characters of [s]. *)
Fixpoint prefix_of (n : nat) (s : string) : string :=
  match n, s with
  | S n', String c s' => String c (prefix_of n' s')
  | _, _ => EmptyString
  end.

Definition consumed (s s' : string) : string :=
  prefix_of (String.length s - String.length s') s.

Definition cont : Type := string → option string → option (string * option string).

(** [run ic r s cap k]: match [r] at the head of [s], then hand the rest
    of the text and the capture to [k]; [None] is failure, on which the
    caller backtracks. *)
Fixpoint run (ic : bool) (r : regex) (s : string) (cap : option string)
    (k : cont) : option (string * option string) :=
  match r with
  | Eps => k s cap
  | Chr c =>
      match s with
      | String a s' => if chr_eqb ic c a then k s' cap else None
      | EmptyString => None
      end
  | Digit =>
      match s with
      | String a s' => if PyStr.is_digit a then k s' cap else None
      | EmptyString => None
      end
  | Space =>
      match s with
      | String a s' => if PyStr.is_space a then k s' cap else None
      | EmptyString => None
      end
  | Cat r1 r2 => run ic r1 s cap (λ s1 cap1, run ic r2 s1 cap1 k)
  | Alt r1 r2 =>
      match run ic r1 s cap k with
      | Some x => Some x
      | None => run ic r2 s cap k
      end
  | Opt r1 =>
      match run ic r1 s cap k with
      | Some x => Some x
      | None => k s cap
      end
  | Star r1 =>
      (fix loop (fuel : nat) (s0 : string) (cap0 : option string) :=
         match fuel with
         | O => k s0 cap0
         | S fuel' =>
             match run ic r1 s0 cap0
                     (λ s1 cap1,
                        if (String.length s1 <? String.length s0)%nat
                        then loop fuel' s1 cap1 else None) with
             | Some x => Some x
             | None => k s0 cap0
             end
         end) (S (String.length s)) s cap
  | Plus r1 =>
      run ic r1 s cap
        ((fix loop (fuel : nat) (s0 : string) (cap0 : option string) :=
           match fuel with
           | O => k s0 cap0
           | S fuel' =>
               match run ic r1 s0 cap0
                       (λ s1 cap1,
                          if (String.length s1 <? String.length s0)%nat
                          then loop fuel' s1 cap1 else None) with
               | Some x => Some x
               | None => k s0 cap0
               end
           end) (S (String.length s)))
  | Group r1 =>
      run ic r1 s cap (λ s1 _, k s1 (Some (consumed s s1)))
  end.

(** One match attempt anchored at the head of [s]. *)
Definition match_here (ic : bool) (r : regex) (s : string)
  : option (string * option string) :=
  run ic r s None (λ s' cap, Some (s', cap)).

(** What [re.findall] reports for one match: the group when the pattern
    has one (the empty string when it did not take part), else the whole
    match. *)
Definition item (r : regex) (s s' : string) (cap : option string) : string :=
  if has_group r then default EmptyString cap else consumed s s'.

Fixpoint findall_from (fuel : nat) (ic : bool) (r : regex) (s : string)
  : list string :=
  match fuel with
  | O => []
  | S fuel' =>
      match match_here ic r s with
      | Some (s', cap) =>
          if (String.length s' <? String.length s)%nat
          then item r s s' cap :: findall_from fuel' ic r s'
          else item r s s' cap ::
               match s with
               | String _ t => findall_from fuel' ic r t
               | EmptyString => []
               end
      | None =>
          match s with
          | String _ t => findall_from fuel' ic r t
          | EmptyString => []
          end
      end
  end.

(** [re.findall(r, s)], with [ic] for [re.IGNORECASE]. *)
Definition findall (ic : bool) (r : regex) (s : string) : list string :=
  findall_from (S (String.length s)) ic r s.

End Regex.

(** [int(s)] on a string of decimal digits; anything else is the
    [ValueError] case.  (The interpreter's limit on the number of digits is
    not modelled.) *)
Fixpoint int_digits (acc : Z) (s : string) : option Z :=
  match s with
  | EmptyString => Some acc
  | String c s' =>
      if PyStr.is_digit c
      then int_digits (10 * acc + (Z.of_nat (nat_of_ascii c) - 48)) s'
      else None
  end.

Definition py_int (s : string) : option Z :=
  match s with
  | EmptyString => None
  | _ => int_digits 0 s
  end.

(** ** [models.py]

    [CandidateProfile] with the fields that the functions below read or
    set; the remaining fields of the dataclass (certifications, languages,
    education details, portfolio, timestamps, derived scores) are written
    once by the parser and never read again by the code embedded here. *)

Record CandidateProfile : Type := mkCandidateProfile {
  name : string;
  email : string;
  phone : option string;
  location : option string;
  current_position : option string;
  experience_years : Z;
  skills : list string;
  education_level : option string;
  resume_text : string;
  salary_expectation : option Z;
  source : option string
}.

(** The dataclass defaults, overridden by keyword. *)
Definition CandidateProfile_default : CandidateProfile :=
  {| name := ""; email := ""; phone := None; location := None;
     current_position := None; experience_years := 0; skills := [];
     education_level := None; resume_text := ""; salary_expectation := None;
     source := None |}.

(** ** [resume_parser.py] *)

Module ResumeParser.

Import Regex.

Definition digits1 : regex := Group (Plus Digit).
Definition ws : regex := Star Space.
Definition seq (l : list regex) : regex := foldr Cat Eps l.

(** The literals of [self.experience_patterns], in order. *)
Definition experience_patterns_text : list string :=
  [ "(\d+)\+?\s*years?\s*(?:of\s*)?(?:experience|exp)";
    "(\d+)\+?\s*yrs?\s*(?:of\s*)?(?:experience|exp)";
    "experience\s*:\s*(\d+)\+?\s*years?";
    "(\d+)\+?\s*years?\s*in\s*(?:the\s*)?(?:field|industry)" ].

(** [self.experience_patterns], parsed. *)
Definition experience_patterns : list regex :=
  [ seq [digits1; Opt (Chr "+"); ws; lit "year"; Opt (Chr "s"); ws;
         Opt (Cat (lit "of") ws); Alt (lit "experience") (lit "exp")];
    seq [digits1; Opt (Chr "+"); ws; lit "yr"; Opt (Chr "s"); ws;
         Opt (Cat (lit "of") ws); Alt (lit "experience") (lit "exp")];
    seq [lit "experience"; ws; Chr ":"; ws; digits1; Opt (Chr "+"); ws;
         lit "year"; Opt (Chr "s")];
    seq [digits1; Opt (Chr "+"); ws; lit "year"; Opt (Chr "s"); ws;
         lit "in"; ws; Opt (Cat (lit "the") ws);
         Alt (lit "field") (lit "industry")] ].

(** [year_pattern], whose literal is [(19|20)\d{2}]: one capturing group
    around the century, then two digits. *)
Definition year_pattern : regex :=
  seq [Group (Alt (lit "19") (lit "20")); Digit; Digit].

(** [any(keyword in line for keyword in keywords)] *)
Definition any_keyword (keywords : list string) (line : string) : bool :=
  existsb (λ kw, PyStr.contains kw line) keywords.

Definition section_keywords_all : list string :=
  ["experience"; "education"; "skills"; "projects"; "certifications";
   "achievements"; "awards"; "references"; "summary"; "objective"].

Definition line_lower (line : string) : string :=
  PyStr.strip (PyStr.lower line).

(** The first loop of [_extract_section]: the lines from the first one
    that mentions a keyword. *)
Fixpoint from_start (section_keywords : list string) (lines : list string)
  : option (list string) :=
  match lines with
  | [] => None
  | line :: rest =>
      if any_keyword section_keywords (line_lower line)
      then Some lines
      else from_start section_keywords rest
  end.

(** The test of the second loop: a non-blank line that mentions some
    section keyword and none of this section's. *)
Definition starts_other_section (section_keywords : list string)
    (line : string) : bool :=
  PyStr.truthy (line_lower line)
  && any_keyword section_keywords_all (line_lower line)
  && negb (any_keyword section_keywords (line_lower line)).

(** The second loop: the lines before the first one that starts another
    section. *)
Fixpoint until_end (section_keywords : list string) (lines : list string)
  : list string :=
  match lines with
  | [] => []
  | line :: rest =>
      if starts_other_section section_keywords line then []
      else line :: until_end section_keywords rest
  end.

Definition newline : string := String PyStr.nl EmptyString.

(** [_extract_section] *)
Definition _extract_section (text : string) (section_keywords : list string)
  : option string :=
  match from_start section_keywords (PyStr.split PyStr.nl text) with
  | None => None
  | Some [] => None
  | Some (header :: rest) =>
      Some (PyStr.join newline (header :: until_end section_keywords rest))
  end.

(** [max(l)] and [min(l)] of a non-empty list. *)
Definition py_max (x : Z) (l : list Z) : Z := foldl Z.max x l.
Definition py_min (x : Z) (l : list Z) : Z := foldl Z.min x l.

(** The loop over [self.experience_patterns]: the first pattern with a
    match whose first capture converts decides; [None] when the loop
    falls through. *)
Fixpoint first_pattern_years (patterns : list regex) (text : string)
  : option Z :=
  match patterns with
  | [] => None
  | pattern :: rest =>
      match findall true pattern text with
      | m :: _ =>
          match py_int m with
          | Some years => Some (Z.min years 50)
          | None => first_pattern_years rest text
          end
      | [] => first_pattern_years rest text
      end
  end.

(** [[int(year) for year in years]]: [None] is the [ValueError]. *)
Definition ints (years : list string) : option (list Z) :=
  mapM py_int years.

(** The fallback of [_extract_experience_years] on the section found. *)
Definition section_years (experience_section : string) : option Z :=
  let years := findall false year_pattern experience_section in
  if (2 <=? length years)%nat then
    match ints years with
    | Some (y :: ys) => Some (Z.min (py_max y ys - py_min y ys) 50)
    | _ => None
    end
  else None.

(** [_extract_experience_years] *)
Definition _extract_experience_years (text : string) : Z :=
  match first_pattern_years experience_patterns text with
  | Some years => years
  | None =>
      match _extract_section text ["experience"; "work history"; "employment"] with
      | Some experience_section =>
          if PyStr.truthy experience_section then
            default 0 (section_years experience_section)
          else 0
      | None => 0
      end
  end.

(** [_create_empty_candidate] *)
Definition _create_empty_candidate (filename : string) : CandidateProfile :=
  {| name := "Failed_Parse_" ++ filename;
     email := "";
     phone := None; location := None; current_position := None;
     experience_years := 0; skills := []; education_level := None;
     resume_text := ""; salary_expectation := None;
     source := Some "Resume Upload - Failed" |}.

Section Collaborators.

(** [base64.b64decode]: [None] when it raises. *)
Variable b64decode : string → option string.
(** The PyPDF2 and python-docx readers: [None] when they raise. *)
Variable pdf_text : string → option string.
Variable docx_text : string → option string.
(** [bytes.decode('utf-8', errors='ignore')] *)
Variable decode_utf8 : string → string.

(** The field extractors of [_parse_candidate_data] other than the
    experience one: pattern scans of the text with no raising path. *)
Variable _extract_name : string → option string.
Variable _extract_email : string → option string.
Variable _extract_phone : string → option string.
Variable _extract_skills : string → list string.
Variable _extract_current_position : string → option string.
Variable _extract_education_level : string → option string.
Variable _extract_location : string → option string.

(** [_extract_from_pdf]: the reader's exception becomes [""]. *)
Definition _extract_from_pdf (file_bytes : string) : string :=
  default "" (pdf_text file_bytes).

(** [_extract_from_docx] *)
Definition _extract_from_docx (file_bytes : string) : string :=
  default "" (docx_text file_bytes).

(** [filename.lower().split('.')[-1]] *)
Definition file_extension (filename : string) : string :=
  default "" (last (PyStr.split "." (PyStr.lower filename))).

(** [_extract_text] *)
Definition _extract_text (file_bytes filename : string) : string :=
  let ext := file_extension filename in
  if String.eqb ext "pdf" then _extract_from_pdf file_bytes
  else if PyStr.mem ext ["docx"; "doc"] then _extract_from_docx file_bytes
  else if String.eqb ext "txt" then decode_utf8 file_bytes
  else "".

(** [x or y] on an optional string *)
Definition or_else (x : option string) (y : string) : string :=
  match x with
  | Some s => if PyStr.truthy s then s else y
  | None => y
  end.

(** [_parse_candidate_data] *)
Definition _parse_candidate_data (text filename : string) : CandidateProfile :=
  {| name := or_else (_extract_name text) ("Candidate_" ++ filename);
     email := or_else (_extract_email text) "";
     phone := _extract_phone text;
     location := _extract_location text;
     current_position := _extract_current_position text;
     experience_years := _extract_experience_years text;
     skills := _extract_skills text;
     education_level := _extract_education_level text;
     resume_text := text;
     salary_expectation := None;
     source := Some "Resume Upload" |}.

(** [not text or len(text.strip()) < 50] *)
Definition insufficient (text : string) : bool :=
  negb (PyStr.truthy text) || Z.ltb (PyStr.len (PyStr.strip text)) 50.

(** [_parse_single_resume].  Every path ends in a [return]; the one
    call that can raise, [b64decode], sits in the [try]. *)
Definition _parse_single_resume (file_content filename : string)
  : result CandidateProfile :=
  match b64decode file_content with
  | None => Ok (_create_empty_candidate filename)
  | Some file_bytes =>
      let text := _extract_text file_bytes filename in
      if insufficient text
      then Ok (_create_empty_candidate filename)
      else Ok (_parse_candidate_data text filename)
  end.

End Collaborators.

End ResumeParser.

(** ** Python numbers *)

Local Open Scope Q_scope.

Definition Qltb (x y : Q) : bool := negb (Qle_bool y x).
Definition Qgeb (x y : Q) : bool := Qle_bool y x.

(** [max(x, y)] and [min(x, y)] on floats: the first argument on a tie. *)
Definition py_fmax (x y : Q) : Q := if Qltb x y then y else x.
Definition py_fmin (x y : Q) : Q := if Qltb y x then y else x.

(** [round(x, n)]: the nearest multiple of [10^-n], an exact tie going to
    the even one. *)
Definition round_half_even (y : Q) : Z :=
  let f := Qfloor y in
  let d := y - inject_Z f in
  if Qltb d (1 # 2) then f
  else if Qltb (1 # 2) d then (f + 1)%Z
  else if Z.even f then f else (f + 1)%Z.

Definition py_round (x : Q) (n : nat) : Q :=
  let scale := (10 ^ Z.of_nat n)%Z in
  inject_Z (round_half_even (x * inject_Z scale)) / inject_Z scale.

(** Truthiness of an [Optional[int]]: present and non-zero. *)
Definition int_truthy (o : option Z) : bool :=
  match o with
  | Some z => negb (z =? 0)%Z
  | None => false
  end.

(** [l[:n]] *)
Definition slice_to {A} (n : Z) (l : list A) : list A :=
  if (0 <=? n)%Z then take (Z.to_nat n) l
  else take (length l - Z.to_nat (- n)) l.

(** ** [matching_engine.py] *)

(** A row of [get_candidates_for_matching], as the engine reads it. *)
Module Candidate.
Record t : Type := mk {
  id : Z;
  name : string;
  email : string;
  experience_years : Z;
  skills : list string;
  location : option string;
  education_level : option string;
  salary_expectation : option Z
}.
End Candidate.

(** The dictionary built by [_get_job_details]. *)
Module Job.
Record t : Type := mk {
  id : Z;
  title : string;
  required_skills : list string;
  preferred_skills : list string;
  experience_min : option Z;
  experience_max : option Z;
  location : option string;
  remote_ok : bool;
  salary_min : option Z;
  salary_max : option Z;
  education_requirements : option string
}.
End Job.

(** [models.MatchResult]; the fields that a constructor call leaves out
    take the defaults of the dataclass. *)
Record MatchResult : Type := mkMatchResult {
  candidate_id : Z;
  job_id : Z;
  candidate_name : string;
  job_title : string;
  overall_match_score : Q;
  skill_match_score : Q;
  experience_match_score : Q;
  location_match_score : Q;
  education_match_score : Q;
  salary_match_score : Q;
  matching_skills : list string;
  missing_skills : list string;
  skill_gap_percentage : Q;
  experience_fit : string;
  experience_gap_years : Z;
  location_compatibility : bool;
  salary_compatibility : bool;
  recommendation : string;
  match_reasons : list string;
  concern_areas : list string
}.

(** An entry of the list that [find_best_matches] returns. *)
Module MatchDict.
Record t : Type := mk {
  candidate_id : Z;
  candidate_name : string;
  email : string;
  experience_years : Z;
  location : option string;
  match_score : Q;
  skill_match : Q;
  experience_match : Q;
  location_match : Q;
  matching_skills : list string;
  missing_skills : list string;
  recommendation : string;
  match_reasons : list string;
  concern_areas : list string
}.
End MatchDict.

Module MatchingEngine.

(** [self.skill_weights] *)
Definition exact_match : Q := 1.0.
Definition related_match : Q := 0.7.
Definition category_match : Q := 0.5.

(** [self.skill_relationships] *)
Definition skill_relationships : list (string * list string) :=
  [ ("React", ["JavaScript"; "JSX"; "Redux"; "HTML"; "CSS"]);
    ("Angular", ["TypeScript"; "JavaScript"; "HTML"; "CSS"; "RxJS"]);
    ("Vue.js", ["JavaScript"; "HTML"; "CSS"; "Vuex"]);
    ("Python", ["Django"; "Flask"; "FastAPI"; "NumPy"; "Pandas"]);
    ("Java", ["Spring"; "Hibernate"; "Maven"; "Gradle"]);
    ("Node.js", ["JavaScript"; "Express"; "npm"; "REST APIs"]);
    ("AWS", ["Cloud Computing"; "EC2"; "S3"; "Lambda"; "RDS"]);
    ("Docker", ["Containerization"; "Kubernetes"; "DevOps"]);
    ("Machine Learning", ["Python"; "TensorFlow"; "PyTorch"; "Scikit-learn"]);
    ("Data Science", ["Python"; "R"; "Pandas"; "NumPy"; "Statistics"]) ]%string.

(** [d[k]] behind a [k in d] test, on a table of pairs with distinct
    keys. *)
Fixpoint dict_get {V} (d : list (string * V)) (k : string) : option V :=
  match d with
  | [] => None
  | (k', v) :: rest => if String.eqb k k' then Some v else dict_get rest k
  end.

(** [_find_related_skill_match] *)
Definition _find_related_skill_match (required_skill : string)
    (candidate_skills : list string) : Q :=
  let required_lower := PyStr.lower required_skill in
  let candidate_skills_lower := map PyStr.lower candidate_skills in
  if match dict_get skill_relationships required_skill with
     | Some related =>
         existsb (λ r, PyStr.mem r candidate_skills_lower)
                 (map PyStr.lower related)
     | None => false
     end
  then related_match
  else if existsb
            (λ candidate_skill,
               match dict_get skill_relationships candidate_skill with
               | Some related =>
                   PyStr.mem required_lower (map PyStr.lower related)
               | None => false
               end) candidate_skills
  then related_match
  else if existsb (λ part, PyStr.contains part required_lower)
            (filter (λ part, Is_true (3 <? PyStr.len part)%Z)
                    candidate_skills_lower)
  then category_match
  else 0.0.

(** One turn of the loop over [required_skills], on the triple
    [(matching_skills, missing_skills, total_score)]. *)
Definition required_step (candidate_skills : list string)
    (st : list string * list string * Q) (req_skill : string)
  : list string * list string * Q :=
  let '(matching, missing, total_score) := st in
  if PyStr.mem (PyStr.lower req_skill) (map PyStr.lower candidate_skills)
  then (matching ++ [req_skill], missing, total_score + exact_match)
  else
    let related_score := _find_related_skill_match req_skill candidate_skills in
    if Qltb 0 related_score
    then (matching ++ [req_skill], missing, total_score + related_score)
    else (matching, missing ++ [req_skill], total_score + 0.0).

(** One turn of the loop over [preferred_skills], on the pair
    [(preferred_bonus, matching_skills)]. *)
Definition preferred_step (candidate_skills : list string)
    (st : Q * list string) (pref_skill : string) : Q * list string :=
  let '(preferred_bonus, matching) := st in
  if PyStr.mem (PyStr.lower pref_skill) (map PyStr.lower candidate_skills)
  then (preferred_bonus + 0.1,
        if PyStr.mem pref_skill matching then matching
        else matching ++ [pref_skill])
  else (preferred_bonus, matching).

(** [_calculate_skill_match] *)
Definition _calculate_skill_match
    (candidate_skills required_skills preferred_skills : list string)
  : Q * list string * list string :=
  match required_skills with
  | [] => (1.0, [], [])
  | _ =>
      let '(matching, missing, total_score) :=
        foldl (required_step candidate_skills) ([], [], 0.0) required_skills in
      let '(preferred_bonus, matching') :=
        foldl (preferred_step candidate_skills) (0.0, matching) preferred_skills in
      let required_score :=
        total_score / inject_Z (Z.of_nat (length required_skills)) in
      let final_score := py_fmin (required_score + preferred_bonus) 1.0 in
      (final_score, matching', missing)
  end.

(** [_calculate_experience_match] *)
Definition _calculate_experience_match
    (candidate_years : Z) (min_years max_years : option Z) : Q * string * Z :=
  let min_years := default 0%Z min_years in
  let max_years := default 20%Z max_years in
  if (candidate_years <? min_years)%Z then
    let gap := (min_years - candidate_years)%Z in
    let score :=
      if (gap <=? 1)%Z then 0.8
      else if (gap <=? 2)%Z then 0.6
      else py_fmax 0.2 (1.0 - inject_Z gap * 0.2) in
    (score, "Under-qualified"%string, gap)
  else if (max_years <? candidate_years)%Z then
    let gap := (candidate_years - max_years)%Z in
    let score :=
      if (gap <=? 2)%Z then 0.9
      else if (gap <=? 5)%Z then 0.8
      else 0.7 in
    (score, "Over-qualified"%string, gap)
  else (1.0, "Perfect"%string, 0%Z).

(** [_calculate_location_match] *)
Definition _calculate_location_match
    (candidate_location job_location : option string) (remote_ok : bool)
  : Q * bool :=
  if remote_ok then (1.0, true)
  else
    match job_location, candidate_location with
    | Some jl, Some cl =>
        if negb (PyStr.truthy jl) || negb (PyStr.truthy cl) then (0.7, true)
        else
          let cl := PyStr.lower cl in
          let jl := PyStr.lower jl in
          if String.eqb cl jl then (1.0, true)
          else
            let candidate_parts := PyStr.split "," cl in
            let job_parts := PyStr.split "," jl in
            let strip_of o := PyStr.strip (default ""%string o) in
            if (2 <=? length candidate_parts)%nat
               && (2 <=? length job_parts)%nat
               && String.eqb (strip_of (last candidate_parts))
                             (strip_of (last job_parts))
            then (0.8, true)
            else if (2 <=? length candidate_parts)%nat
                    && (2 <=? length job_parts)%nat
                    && String.eqb (strip_of (head candidate_parts))
                                  (strip_of (head job_parts))
            then (0.9, true)
            else if existsb (λ part, PyStr.contains (PyStr.strip part) jl)
                            candidate_parts
            then (0.6, true)
            else (0.3, false)
    | _, _ => (0.7, true)
    end.

(** [education_hierarchy.get(candidate_education, 0)] *)
Definition education_hierarchy : list (string * Z) :=
  [ ("High School", 1); ("Associates", 2); ("Bachelors", 3);
    ("Masters", 4); ("PhD", 5) ]%string%Z.

(** [_calculate_education_match] *)
Definition _calculate_education_match
    (candidate_education job_education : option string) : Q :=
  match job_education with
  | None => 1.0
  | Some je =>
      if negb (PyStr.truthy je) then 1.0
      else
        match candidate_education with
        | None => 0.5
        | Some ce =>
            if negb (PyStr.truthy ce) then 0.5
            else
              let candidate_level := default 0%Z (dict_get education_hierarchy ce) in
              let job_education_lower := PyStr.lower je in
              let job_req_level :=
                if PyStr.contains "phd" job_education_lower
                   || PyStr.contains "doctorate" job_education_lower then 5%Z
                else if PyStr.contains "master" job_education_lower then 4%Z
                else if PyStr.contains "bachelor" job_education_lower then 3%Z
                else if PyStr.contains "associate" job_education_lower then 2%Z
                else 1%Z in
              if (job_req_level <=? candidate_level)%Z then 1.0
              else if (candidate_level =? job_req_level - 1)%Z then 0.8
              else 0.5
        end
  end.

(** [_calculate_salary_match] *)
Definition _calculate_salary_match
    (candidate_expectation job_min job_max : option Z) : Q * bool :=
  if negb (int_truthy candidate_expectation) then (1.0, true)
  else if negb (int_truthy job_min) && negb (int_truthy job_max) then (1.0, true)
  else
    match candidate_expectation, job_min, job_max with
    | Some ce, Some jmin, Some jmax =>
        if int_truthy job_min && int_truthy job_max then
          if (jmin <=? ce)%Z && (ce <=? jmax)%Z then (1.0, true)
          else if (ce <? jmin)%Z then (1.0, true)
          else
            let gap_percent := inject_Z (ce - jmax) / inject_Z jmax in
            if Qle_bool gap_percent 0.1 then (0.8, true)
            else if Qle_bool gap_percent 0.2 then (0.6, false)
            else (0.3, false)
        else (0.7, true)
    | _, _, _ => (0.7, true)
    end.

(** [str(n)] for a length *)
Definition str_nat (n : nat) : string := pretty n.

(** [_generate_recommendation] *)
Definition _generate_recommendation
    (overall_score skill_score experience_score location_score : Q)
    (matching_skills missing_skills : list string) (experience_fit : string)
  : string * list string * list string :=
  let reasons : list string :=
    (if Qgeb skill_score 0.8 then ["Strong technical skill alignment"]
     else if Qgeb skill_score 0.6 then ["Good skill match with some gaps"]
     else [])
    ++ (if Qgeb experience_score 0.9
        then ["Perfect experience level (" +:+ experience_fit +:+ ")"]
        else if Qgeb experience_score 0.7 then ["Appropriate experience level"]
        else [])
    ++ (if Qgeb location_score 0.9 then ["Excellent location match"] else [])
    ++ (if (5 <? length matching_skills)%nat
        then ["Extensive relevant skill set"] else []) in
  let concerns : list string :=
    (if Qltb skill_score 0.6 then ["Significant skill gaps identified"] else [])
    ++ match missing_skills with
       | [] => []
       | [m] => ["Missing required skill: " +:+ m]
       | _ =>
           if (length missing_skills <=? 3)%nat
           then ["Missing skills: " +:+ PyStr.join ", " missing_skills]
           else ["Missing " +:+ str_nat (length missing_skills)
                 +:+ " required skills"]
       end
    ++ (if String.eqb experience_fit "Under-qualified"
        then ["Below minimum experience requirement"]
        else if String.eqb experience_fit "Over-qualified"
        then ["May be over-qualified for the role"]
        else [])
    ++ (if Qltb location_score 0.5
        then ["Location mismatch - may require relocation"] else []) in
  let recommendation :=
    if Qgeb overall_score 0.85 then "Excellent Match"
    else if Qgeb overall_score 0.75 then "Strong Match"
    else if Qgeb overall_score 0.65 then "Good Match"
    else if Qgeb overall_score 0.5 then "Potential Match"
    else "Poor Match" in
  (recommendation, reasons, concerns)%string.

(** The weights of [_calculate_match_score]. *)
Definition w_skills : Q := 0.4.
Definition w_experience : Q := 0.25.
Definition w_location : Q := 0.15.
Definition w_education : Q := 0.1.
Definition w_salary : Q := 0.1.

Definition weighted (skill experience location education salary : Q) : Q :=
  skill * w_skills + experience * w_experience + location * w_location
  + education * w_education + salary * w_salary.

(** [_calculate_match_score] *)
Definition _calculate_match_score (candidate : Candidate.t) (job : Job.t)
  : MatchResult :=
  let '(skill_score, matching, missing) :=
    _calculate_skill_match (Candidate.skills candidate)
      (Job.required_skills job) (Job.preferred_skills job) in
  let '(experience_score, fit, gap) :=
    _calculate_experience_match (Candidate.experience_years candidate)
      (Job.experience_min job) (Job.experience_max job) in
  let '(location_score, location_compatible) :=
    _calculate_location_match (Candidate.location candidate)
      (Job.location job) (Job.remote_ok job) in
  let education_score :=
    _calculate_education_match (Candidate.education_level candidate)
      (Job.education_requirements job) in
  let '(salary_score, salary_compatible) :=
    _calculate_salary_match (Candidate.salary_expectation candidate)
      (Job.salary_min job) (Job.salary_max job) in
  let overall_score :=
    weighted skill_score experience_score location_score education_score
      salary_score in
  let '(recommendation, reasons, concerns) :=
    _generate_recommendation overall_score skill_score experience_score
      location_score matching missing fit in
  {| candidate_id := Candidate.id candidate;
     job_id := Job.id job;
     candidate_name := Candidate.name candidate;
     job_title := Job.title job;
     overall_match_score := py_round overall_score 3;
     skill_match_score := py_round skill_score 3;
     experience_match_score := py_round experience_score 3;
     location_match_score := py_round location_score 3;
     education_match_score := py_round education_score 3;
     salary_match_score := py_round salary_score 3;
     matching_skills := matching;
     missing_skills := missing;
     skill_gap_percentage :=
       py_round
         (inject_Z (Z.of_nat (length missing))
          / inject_Z (Z.max (Z.of_nat (length (Job.required_skills job))) 1)
          * 100) 1;
     experience_fit := fit;
     experience_gap_years := gap;
     location_compatibility := location_compatible;
     salary_compatibility := salary_compatible;
     recommendation := recommendation;
     match_reasons := reasons;
     concern_areas := concerns |}.

(** The dictionary that the scoring loop of [find_best_matches] appends
    for a candidate that reaches [min_score]. *)
Definition match_dict (candidate : Candidate.t) (m : MatchResult) : MatchDict.t :=
  {| MatchDict.candidate_id := Candidate.id candidate;
     MatchDict.candidate_name := Candidate.name candidate;
     MatchDict.email := Candidate.email candidate;
     MatchDict.experience_years := Candidate.experience_years candidate;
     MatchDict.location := Candidate.location candidate;
     MatchDict.match_score := overall_match_score m;
     MatchDict.skill_match := skill_match_score m;
     MatchDict.experience_match := experience_match_score m;
     MatchDict.location_match := location_match_score m;
     MatchDict.matching_skills := matching_skills m;
     MatchDict.missing_skills := missing_skills m;
     MatchDict.recommendation := recommendation m;
     MatchDict.match_reasons := match_reasons m;
     MatchDict.concern_areas := concern_areas m |}.

(** The scoring loop. *)
Definition score_candidates (job : Job.t) (min_score : Q)
    (candidates : list Candidate.t) : list MatchDict.t :=
  flat_map
    (λ candidate,
       let m := _calculate_match_score candidate job in
       if Qgeb (overall_match_score m) min_score
       then [match_dict candidate m] else [])
    candidates.

(** [match_results.sort(key=lambda x: x['match_score'], reverse=True)]:
    a stable sort, so entries with equal scores keep their order. *)
Fixpoint insert_desc (x : MatchDict.t) (l : list MatchDict.t) : list MatchDict.t :=
  match l with
  | [] => [x]
  | y :: rest =>
      if Qltb (MatchDict.match_score y) (MatchDict.match_score x)
      then x :: l
      else y :: insert_desc x rest
  end.

Definition sort_desc (l : list MatchDict.t) : list MatchDict.t :=
  foldl (λ acc x, insert_desc x acc) [] l.

(** The [MatchResult] that [find_best_matches] builds for storage from
    one entry of the ranking. *)
Definition match_object (job_id : Z) (job : Job.t) (result : MatchDict.t)
  : MatchResult :=
  {| candidate_id := MatchDict.candidate_id result;
     job_id := job_id;
     candidate_name := MatchDict.candidate_name result;
     job_title := Job.title job;
     overall_match_score := MatchDict.match_score result;
     skill_match_score := MatchDict.skill_match result;
     experience_match_score := MatchDict.experience_match result;
     location_match_score := MatchDict.location_match result;
     education_match_score := 0.8;
     salary_match_score := 0.8;
     matching_skills := MatchDict.matching_skills result;
     missing_skills := MatchDict.missing_skills result;
     skill_gap_percentage := 0.0;
     experience_fit := "";
     experience_gap_years := 0;
     location_compatibility := true;
     salary_compatibility := true;
     recommendation := MatchDict.recommendation result;
     match_reasons := MatchDict.match_reasons result;
     concern_areas := MatchDict.concern_areas result |}.

Section Ranking.

(** The two reads from the persistence layer. *)
Variable _get_job_details : Z → option Job.t.
Variable get_candidates_for_matching : Z → list Candidate.t.

(** [find_best_matches]: the list handed to [save_match_results]
    ([None] when the call returns before saving) and the list
    returned. *)
Definition find_best_matches (job_id : Z) (limit : Z) (min_score : Q)
  : option (list MatchResult) * list MatchDict.t :=
  match _get_job_details job_id with
  | None => (None, [])
  | Some job =>
      match get_candidates_for_matching job_id with
      | [] => (None, [])
      | candidates =>
          let match_results :=
            sort_desc (score_candidates job min_score candidates) in
          let top := slice_to limit match_results in
          (Some (map (match_object job_id job) top), top)
      end
  end.

End Ranking.

End MatchingEngine.

(** ** [bulk_processor.py] *)

(** The dictionaries of the pipeline, one record per shape.  A key that a
    dictionary may lack is an [option] field. *)

Module ValidationResult.
Record t : Type := mk {
  filename : string;
  candidate_name : string;
  email : string;
  success : bool;
  issues : list string;
  skills_count : Z;
  experience_years : Z
}.

(** [result['success'] = b] *)
Definition set_success (b : bool) (r : t) : t :=
  mk (filename r) (candidate_name r) (email r) b (issues r)
     (skills_count r) (experience_years r).
End ValidationResult.

Module StoredCandidate.
Record t : Type := mk {
  id : option Z;
  name : string;
  email : string;
  skills : option (list string);
  experience_years : option Z;
  success : bool;
  error : option string
}.
End StoredCandidate.

Module ProcessingResult.
Record t : Type := mk {
  filename : string;
  candidate_name : string;
  email : string;
  success : bool;
  candidate_id : option Z;
  skills_count : Z;
  experience_years : Z;
  validation_issues : list string;
  storage_error : option string;
  message : string
}.
End ProcessingResult.

(** [l[i]], which raises [IndexError] out of range. *)
Definition py_index {A} (l : list A) (i : nat) : result A :=
  match l !! i with
  | Some x => Ok x
  | None => Raise "IndexError"
  end.

(** [for i in range(0, len(l), size): l[i:i + size]]: each start index
    with its slice.  The loop runs at most [len(l)] times for a positive
    [size]; [fuel] is that bound. *)
Fixpoint range_chunks {A} (fuel size i : nat) (l : list A)
  : list (nat * list A) :=
  match fuel with
  | O => []
  | S fuel' =>
      if (i <? length l)%nat
      then (i, take size (drop i l)) :: range_chunks fuel' size (i + size) l
      else []
  end.

Definition chunked {A} (size : nat) (l : list A) : list (nat * list A) :=
  range_chunks (length l) size 0 l.

Module BulkProcessor.

Definition max_workers : nat := 20.
Definition batch_size : nat := 50.
Definition chunk_size : nat := 100.

(** *** Phase 1: parsing *)

(** The profile that stands for a task that ended in an exception. *)
Definition failed_candidate (filename : string) : CandidateProfile :=
  {| name := "PARSE_FAILED_" +:+ filename;
     email := "";
     phone := None; location := None; current_position := None;
     experience_years := 0; skills := []; education_level := None;
     resume_text := ""; salary_expectation := None;
     source := Some "Resume Upload - Parse Failed" |}.

(** The loop over one gathered chunk, [j] counting from the chunk's
    start [i]. *)
Fixpoint collect_chunk (file_names : list string) (i j : nat)
    (chunk_results : list (result CandidateProfile))
    (parsed_candidates : list CandidateProfile)
  : result (list CandidateProfile) :=
  match chunk_results with
  | [] => Ok parsed_candidates
  | Raise _ :: rest =>
      filename ← py_index file_names (i + j);
      collect_chunk file_names i (S j) rest
        (parsed_candidates ++ [failed_candidate filename])
  | Ok candidate :: rest =>
      collect_chunk file_names i (S j) rest (parsed_candidates ++ [candidate])
  end.

(** The loop over the chunks. *)
Fixpoint collect_chunks (file_names : list string)
    (chunks : list (nat * list (result CandidateProfile)))
    (parsed_candidates : list CandidateProfile)
  : result (list CandidateProfile) :=
  match chunks with
  | [] => Ok parsed_candidates
  | (i, chunk_results) :: rest =>
      parsed ← collect_chunk file_names i 0 chunk_results parsed_candidates;
      collect_chunks file_names rest parsed
  end.

Section Parsing.

(** The outcome of one awaited parse task, as [asyncio.gather] with
    [return_exceptions=True] reports it: the profile, or the exception
    it ended in.  The semaphore bounds how many run at once and has no
    part in the outcome. *)
Variable parse_single : string → string → result CandidateProfile.

(** [_parse_resumes_parallel] *)
Definition _parse_resumes_parallel (resume_files file_names : list string)
  : result (list CandidateProfile) :=
  let tasks :=
    map (λ p, parse_single p.1 p.2) (zip resume_files file_names) in
  collect_chunks file_names (chunked chunk_size tasks) [].

End Parsing.

(** *** Phase 2: validation *)

Definition critical_issues : list string :=
  ["Invalid or missing name"; "Duplicate email address"].

(** The checks on one candidate, given the candidates accepted so far. *)
Definition validation_issues_of (valid_candidates : list CandidateProfile)
    (candidate : CandidateProfile) : list string :=
  (if negb (PyStr.truthy (name candidate))
      || PyStr.startswith "PARSE_FAILED" (name candidate)
   then ["Invalid or missing name"] else [])
  ++ (if negb (PyStr.truthy (email candidate))
         && negb (PyStr.startswith "PARSE_FAILED" (name candidate))
      then ["Missing email address"] else [])
  ++ (if PyStr.truthy (email candidate)
         && negb (PyStr.contains "@" (email candidate))
      then ["Invalid email format"] else [])
  ++ (if PyStr.truthy (email candidate)
         && existsb (λ existing, String.eqb (email existing) (email candidate))
                    valid_candidates
      then ["Duplicate email address"] else [])
  ++ (if (length (skills candidate) =? 0)%nat
      then ["No skills extracted"] else [])
  ++ (if (experience_years candidate <? 0)%Z
         || (50 <? experience_years candidate)%Z
      then ["Invalid experience years"] else []).

(** [any(issue in validation_issues for issue in critical_issues)] *)
Definition has_critical_issues (validation_issues : list string) : bool :=
  existsb (λ issue, PyStr.mem issue validation_issues) critical_issues.

(** One turn of the loop of [_validate_candidates].  The dictionary is
    appended first and its ['success'] rewritten afterwards: the list
    holds the same object, so the entry at the end of the list is the one
    updated. *)
Definition validate_step (file_names : list string)
    (st : list CandidateProfile * list ValidationResult.t)
    (i : nat) (candidate : CandidateProfile)
  : result (list CandidateProfile * list ValidationResult.t) :=
  let '(valid_candidates, validation_results) := st in
  filename ← py_index file_names i;
  let validation_issues := validation_issues_of valid_candidates candidate in
  let result :=
    {| ValidationResult.filename := filename;
       ValidationResult.candidate_name := name candidate;
       ValidationResult.email := email candidate;
       ValidationResult.success := (length validation_issues =? 0)%nat;
       ValidationResult.issues := validation_issues;
       ValidationResult.skills_count := Z.of_nat (length (skills candidate));
       ValidationResult.experience_years := experience_years candidate |} in
  let at_end := length validation_results in
  let validation_results := validation_results ++ [result] in
  if negb (has_critical_issues validation_issues)
  then Ok (valid_candidates ++ [candidate],
           alter (ValidationResult.set_success true) at_end validation_results)
  else Ok (valid_candidates,
           alter (ValidationResult.set_success false) at_end validation_results).

Fixpoint validate_loop (file_names : list string)
    (st : list CandidateProfile * list ValidationResult.t)
    (i : nat) (candidates : list CandidateProfile)
  : result (list CandidateProfile * list ValidationResult.t) :=
  match candidates with
  | [] => Ok st
  | candidate :: rest =>
      st' ← validate_step file_names st i candidate;
      validate_loop file_names st' (S i) rest
  end.

(** [_validate_candidates] *)
Definition _validate_candidates (candidates : list CandidateProfile)
    (file_names : list string)
  : result (list CandidateProfile * list ValidationResult.t) :=
  validate_loop file_names ([], []) 0 candidates.

(** *** Phase 3: storage *)

Definition stored_ok (candidate_id : Z) (c : CandidateProfile)
  : StoredCandidate.t :=
  {| StoredCandidate.id := Some candidate_id;
     StoredCandidate.name := name c;
     StoredCandidate.email := email c;
     StoredCandidate.skills := Some (skills c);
     StoredCandidate.experience_years := Some (experience_years c);
     StoredCandidate.success := true;
     StoredCandidate.error := None |}.

Definition stored_failed (individual_error : string) (c : CandidateProfile)
  : StoredCandidate.t :=
  {| StoredCandidate.id := None;
     StoredCandidate.name := name c;
     StoredCandidate.email := email c;
     StoredCandidate.skills := None;
     StoredCandidate.experience_years := None;
     StoredCandidate.success := false;
     StoredCandidate.error := Some individual_error |}.

(** What the persistence layer was asked to do, in order. *)
Inductive db_call : Type :=
| BulkInsert (batch : list CandidateProfile)
| SingleInsert (candidate : CandidateProfile).

(** The loop over the ids of a bulk insert that returned: one record per
    id, until the ids end or [batch[j]] leaves the batch, which raises
    inside the [try] ([true] in the second component). *)
Fixpoint record_bulk (batch : list CandidateProfile) (candidate_ids : list Z)
    (stored_candidates : list StoredCandidate.t)
  : list StoredCandidate.t * bool :=
  match candidate_ids, batch with
  | [], _ => (stored_candidates, false)
  | candidate_id :: ids, c :: batch' =>
      record_bulk batch' ids (stored_candidates ++ [stored_ok candidate_id c])
  | _ :: _, [] => (stored_candidates, true)
  end.

Section Storage.

(** The persistence layer: a state and the two inserts, each of which
    returns or raises. *)
Variable DB : Type.
Variable create_candidates_bulk :
  list CandidateProfile → DB → result (list Z) * DB.
Variable create_candidate : CandidateProfile → DB → result Z * DB.

(** The state threaded through the storage phase: the database, the
    log of the calls made to it, and [stored_candidates]. *)
Record store_state : Type := mkStore {
  db : DB;
  calls : list db_call;
  stored_candidates : list StoredCandidate.t
}.

(** One turn of the [except] branch's loop: an individual insert and
    the record of its outcome. *)
Definition store_individual (st : store_state) (candidate : CandidateProfile)
  : store_state :=
  let '(r, db') := create_candidate candidate (db st) in
  {| db := db';
     calls := calls st ++ [SingleInsert candidate];
     stored_candidates :=
       stored_candidates st ++
         [match r with
          | Ok candidate_id => stored_ok candidate_id candidate
          | Raise individual_error => stored_failed individual_error candidate
          end] |}.

(** The [except] branch. *)
Definition store_individually (batch : list CandidateProfile)
    (st : store_state) : store_state :=
  foldl store_individual st batch.

(** The body of the loop of [_store_candidates_batch] for one batch. *)
Definition store_batch (st : store_state) (batch : list CandidateProfile)
  : store_state :=
  let '(r, db') := create_candidates_bulk batch (db st) in
  let st1 :=
    {| db := db'; calls := calls st ++ [BulkInsert batch];
       stored_candidates := stored_candidates st |} in
  match r with
  | Ok candidate_ids =>
      let '(stored, raised) :=
        record_bulk batch candidate_ids (stored_candidates st1) in
      let st2 :=
        {| db := db st1; calls := calls st1; stored_candidates := stored |} in
      if raised then store_individually batch st2 else st2
  | Raise _ => store_individually batch st1
  end.

(** [_store_candidates_batch], from a database [d]. *)
Definition _store_candidates_batch (candidates : list CandidateProfile)
    (d : DB) : store_state :=
  foldl store_batch {| db := d; calls := []; stored_candidates := [] |}
        (map snd (chunked batch_size candidates)).

End Storage.

(** *** Phase 4: match scores

    [_generate_match_scores] selects the stored candidates that
    succeeded, cuts their ids into batches of 100 and logs each batch;
    the engine is constructed and never called, and the whole body sits
    in a [try].  Its only product is the log. *)
Definition _generate_match_scores (stored : list StoredCandidate.t)
  : list (list Z) :=
  let successful_candidates :=
    List.filter (λ c, StoredCandidate.success c
                      && int_truthy (StoredCandidate.id c)) stored in
  map (λ b, omap StoredCandidate.id b.2) (chunked 100 successful_candidates).

(** *** Result compilation *)

(** [{c['name']: c for c in stored_candidates}]: a later record replaces
    an earlier one of the same name. *)
Definition storage_map_of (stored : list StoredCandidate.t)
  : gmap string StoredCandidate.t :=
  foldl (λ m c, <[StoredCandidate.name c := c]> m) ∅ stored.

Definition str_int (z : Z) : string := pretty z.

(** [_generate_result_message]; [storage_result] is [None] for the empty
    dictionary. *)
Definition _generate_result_message (success : bool)
    (validation_result : ValidationResult.t)
    (storage_result : option StoredCandidate.t) : string :=
  if success then
    "Successfully processed - "
    +:+ str_int (ValidationResult.skills_count validation_result)
    +:+ " skills, "
    +:+ str_int (ValidationResult.experience_years validation_result)
    +:+ " years experience"
  else
    let messages : list string :=
      (match ValidationResult.issues validation_result with
       | [] => []
       | issues =>
           ["Validation issues: " +:+ PyStr.join ", " issues]
       end)
      ++ (match storage_result ≫= StoredCandidate.error with
          | Some e => if PyStr.truthy e then ["Storage error: " +:+ e] else []
          | None => []
          end) in
    match messages with
    | [] => "Processing failed"
    | _ => PyStr.join "; " messages
    end.

Definition compile_one (storage_map : gmap string StoredCandidate.t)
    (filename : string) (validation_result : ValidationResult.t)
  : ProcessingResult.t :=
  let candidate_name := ValidationResult.candidate_name validation_result in
  let storage_result := storage_map !! candidate_name in
  let validation_success := ValidationResult.success validation_result in
  let storage_success :=
    match storage_result with
    | Some s => StoredCandidate.success s
    | None => false
    end in
  let overall_success := validation_success && storage_success in
  {| ProcessingResult.filename := filename;
     ProcessingResult.candidate_name := candidate_name;
     ProcessingResult.email := ValidationResult.email validation_result;
     ProcessingResult.success := overall_success;
     ProcessingResult.candidate_id := storage_result ≫= StoredCandidate.id;
     ProcessingResult.skills_count :=
       ValidationResult.skills_count validation_result;
     ProcessingResult.experience_years :=
       ValidationResult.experience_years validation_result;
     ProcessingResult.validation_issues :=
       ValidationResult.issues validation_result;
     ProcessingResult.storage_error := storage_result ≫= StoredCandidate.error;
     ProcessingResult.message :=
       _generate_result_message overall_success validation_result
         storage_result |}.

Fixpoint compile_loop (storage_map : gmap string StoredCandidate.t)
    (file_names : list string) (i : nat)
    (validation_results : list ValidationResult.t)
    (results : list ProcessingResult.t) : result (list ProcessingResult.t) :=
  match validation_results with
  | [] => Ok results
  | validation_result :: rest =>
      filename ← py_index file_names i;
      compile_loop storage_map file_names (S i) rest
        (results ++ [compile_one storage_map filename validation_result])
  end.

(** [_compile_processing_results] *)
Definition _compile_processing_results
    (validation_results : list ValidationResult.t)
    (stored : list StoredCandidate.t) (file_names : list string)
  : result (list ProcessingResult.t) :=
  compile_loop (storage_map_of stored) file_names 0 validation_results [].

(** *** The pipeline *)

Section Pipeline.

Variable parse_single : string → string → result CandidateProfile.
Variable DB : Type.
Variable create_candidates_bulk :
  list CandidateProfile → DB → result (list Z) * DB.
Variable create_candidate : CandidateProfile → DB → result Z * DB.

(** [process_resumes_bulk], from a database [d]: what the call returns
    or raises, and the database and call log it leaves.  (The timing
    and logging statements are left out.) *)
Definition process_resumes_bulk (resume_files file_names : list string)
    (job_id : option Z) (d : DB)
  : result (list ProcessingResult.t) * DB * list db_call :=
  match _parse_resumes_parallel parse_single resume_files file_names with
  | Raise e => (Raise e, d, [])
  | Ok parsed_candidates =>
      match _validate_candidates parsed_candidates file_names with
      | Raise e => (Raise e, d, [])
      | Ok (valid_candidates, validation_results) =>
          let st :=
            _store_candidates_batch DB create_candidates_bulk
              create_candidate valid_candidates d in
          let _ :=
            if int_truthy job_id
            then _generate_match_scores (stored_candidates DB st)
            else [] in
          (_compile_processing_results validation_results
             (stored_candidates DB st) file_names,
           db DB st, calls DB st)
      end
  end.

End Pipeline.

End BulkProcessor.

(** *** Statistics over the results

    [get_processing_statistics] reads the dictionaries that
    [process_resumes_bulk] returns. *)

Module Distribution.
Record t : Type := mk {
  min : Z;
  max : Z;
  median : Z
}.
End Distribution.

Module Statistics.
Record t : Type := mk {
  total_processed : Z;
  successful : Z;
  failed : Z;
  success_rate : Q;
  avg_skills_per_candidate : Q;
  avg_experience_years : Q;
  common_issues : list (string * Z);
  skill_distribution : Distribution.t;
  experience_distribution : Distribution.t
}.
End Statistics.

(** [a / b] on integers, which raises on a zero divisor. *)
Definition py_truediv (a b : Z) : result Q :=
  if (b =? 0)%Z then Raise "ZeroDivisionError"
  else Ok (inject_Z a / inject_Z b).

(** [sum(l)] *)
Definition py_sum (l : list Z) : Z := foldl Z.add 0%Z l.

(** [sorted(l)] on integers. *)
Fixpoint insert_asc (x : Z) (l : list Z) : list Z :=
  match l with
  | [] => [x]
  | y :: rest => if (x <? y)%Z then x :: l else y :: insert_asc x rest
  end.

Definition sorted_asc (l : list Z) : list Z :=
  foldl (λ acc x, insert_asc x acc) [] l.

Module BulkStatistics.

(** [issue_counts[issue] = issue_counts.get(issue, 0) + 1], on a
    dictionary kept as the list of its items in insertion order. *)
Fixpoint count_issue (issue : string) (issue_counts : list (string * Z))
  : list (string * Z) :=
  match issue_counts with
  | [] => [(issue, 1%Z)]
  | (k, n) :: rest =>
      if String.eqb k issue then (k, (n + 1)%Z) :: rest
      else (k, n) :: count_issue issue rest
  end.

(** [sorted(items, key=lambda x: x[1], reverse=True)]: the sort is
    stable, so items of equal count keep their order. *)
Fixpoint insert_by_count (x : string * Z) (l : list (string * Z))
  : list (string * Z) :=
  match l with
  | [] => [x]
  | y :: rest =>
      if (y.2 <? x.2)%Z then x :: l else y :: insert_by_count x rest
  end.

Definition sorted_by_count (items : list (string * Z)) : list (string * Z) :=
  foldl (λ acc x, insert_by_count x acc) [] items.

(** [round(sum(values) / len(values), 1) if values else 0] *)
Definition average_of (values : list Z) : result Q :=
  match values with
  | [] => Ok 0
  | _ =>
      q ← py_truediv (py_sum values) (Z.of_nat (length values));
      Ok (py_round q 1)
  end.

(** The dictionary with ['min'], ['max'] and ['median']. *)
Definition distribution_of (values : list Z) : result Distribution.t :=
  match values with
  | [] => Ok (Distribution.mk 0 0 0)
  | x :: rest =>
      median ← py_index (sorted_asc values) (length values / 2);
      Ok (Distribution.mk (ResumeParser.py_min x rest)
            (ResumeParser.py_max x rest) median)
  end.

(** [get_processing_statistics] *)
Definition get_processing_statistics (results : list ProcessingResult.t)
  : result Statistics.t :=
  let total_count := Z.of_nat (length results) in
  let success_count :=
    foldl (λ n r, if ProcessingResult.success r then (n + 1)%Z else n) 0%Z
          results in
  let failure_count := (total_count - success_count)%Z in
  let successes := List.filter ProcessingResult.success results in
  let skill_counts := map ProcessingResult.skills_count successes in
  let experience_years := map ProcessingResult.experience_years successes in
  let all_issues := concat (map ProcessingResult.validation_issues results) in
  let issue_counts :=
    foldl (λ counts issue, count_issue issue counts) [] all_issues in
  success_rate ←
    (if (0 <? total_count)%Z
     then q ← py_truediv success_count total_count; Ok (py_round (q * 100) 1)
     else Ok 0);
  avg_skills ← average_of skill_counts;
  avg_experience ← average_of experience_years;
  skill_distribution ← distribution_of skill_counts;
  experience_distribution ← distribution_of experience_years;
  Ok {| Statistics.total_processed := total_count;
        Statistics.successful := success_count;
        Statistics.failed := failure_count;
        Statistics.success_rate := success_rate;
        Statistics.avg_skills_per_candidate := avg_skills;
        Statistics.avg_experience_years := avg_experience;
        Statistics.common_issues := take 5 (sorted_by_count issue_counts);
        Statistics.skill_distribution := skill_distribution;
        Statistics.experience_distribution := experience_distribution |}.

End BulkStatistics.

(** ** The candidate scores of [resume_parser.py]

    [_parse_candidate_data] stores two scores with the profile, computed
    from the fields it extracted. *)

Module ResumeScores.

(** The categories of [self.skill_categories] that
    [_calculate_technical_score] reads. *)
Definition programming_languages : list string :=
  ["Python"; "Java"; "JavaScript"; "TypeScript"; "C++"; "C#"; "PHP";
   "Ruby"; "Go"; "Rust"; "Swift"; "Kotlin"; "Scala"; "R"; "MATLAB"].

Definition web_technologies : list string :=
  ["React"; "Angular"; "Vue.js"; "Node.js"; "Express"; "Django";
   "Flask"; "Spring"; "Laravel"; "HTML"; "CSS"; "Bootstrap"; "Tailwind"].

Definition databases : list string :=
  ["PostgreSQL"; "MySQL"; "MongoDB"; "Redis"; "SQLite"; "Oracle";
   "SQL Server"; "Cassandra"; "DynamoDB"; "Elasticsearch"].

Definition cloud_platforms : list string :=
  ["AWS"; "Azure"; "Google Cloud"; "GCP"; "DigitalOcean"; "Heroku";
   "Vercel"; "Netlify"; "Docker"; "Kubernetes"; "Terraform"].

Definition data_science : list string :=
  ["Machine Learning"; "Deep Learning"; "Data Science"; "Pandas";
   "NumPy"; "Scikit-learn"; "TensorFlow"; "PyTorch"; "Tableau"; "Power BI"].

Definition education_scores : list (string * Z) :=
  [ ("PhD", 20); ("Masters", 16); ("Bachelors", 12); ("Associates", 8);
    ("High School", 4) ]%string%Z.

(** [_calculate_overall_score] *)
Definition _calculate_overall_score (skills : list string)
    (experience_years : Z) (education_level : option string) : Q :=
  let score := 0.0 in
  let skills_score :=
    py_fmin (inject_Z (Z.of_nat (length skills)) / 10.0) 1.0 * 40 in
  let score := score + skills_score in
  let experience_score := py_fmin (inject_Z experience_years / 10.0) 1.0 * 40 in
  let score := score + experience_score in
  let education_score :=
    default 0%Z (education_level ≫= MatchingEngine.dict_get education_scores) in
  let score := score + inject_Z education_score in
  py_round score 2.

(** What one skill adds in the loop of [_calculate_technical_score]. *)
Definition technical_step (technical_skills : Q) (skill : string) : Q :=
  if PyStr.mem skill programming_languages then technical_skills + 2
  else if PyStr.mem skill web_technologies then technical_skills + 1.5
  else if PyStr.mem skill databases then technical_skills + 1.5
  else if PyStr.mem skill cloud_platforms then technical_skills + 2
  else if PyStr.mem skill data_science then technical_skills + 2
  else technical_skills + 1.

(** [_calculate_technical_score] *)
Definition _calculate_technical_score (skills : list string) : Q :=
  let technical_skills := foldl technical_step 0 skills in
  py_round (py_fmin technical_skills 100.0) 2.

End ResumeScores.

(** ** The education level of [resume_parser.py] *)

Module ResumeEducation.

Import Regex.

(** [re.search(r, s)] as a truth value: a match at some position of [s],
    the end included. *)
Fixpoint search (ic : bool) (r : regex) (s : string) : bool :=
  match match_here ic r s with
  | Some _ => true
  | None =>
      match s with
      | String _ t => search ic r t
      | EmptyString => false
      end
  end.

(** The literals of [self.education_patterns], level by level. *)
Definition education_patterns_text : list (string * list string) :=
  [ ("PhD", ["ph\.?d\.?"; "doctorate"; "doctoral"]);
    ("Masters", ["master\'?s?"; "m\.s\.?"; "m\.a\.?"; "mba"; "m\.sc\.?"]);
    ("Bachelors",
     ["bachelor\'?s?"; "b\.s\.?"; "b\.a\.?"; "b\.sc\.?"; "b\.tech"]);
    ("Associates", ["associate\'?s?"; "a\.a\.?"; "a\.s\.?"]);
    ("High School", ["high\s*school"; "diploma"; "ged"]) ]%string.

(** A word, then an optional apostrophe and an optional s. *)
Definition possessive (word : string) : regex :=
  ResumeParser.seq [lit word; Opt (Chr "'"); Opt (Chr "s")].

(** An abbreviation, then an optional full stop. *)
Definition abbreviation (letters : string) : regex :=
  ResumeParser.seq [lit letters; Opt (Chr ".")].

(** [self.education_patterns], parsed, in the order of the dictionary. *)
Definition education_patterns : list (string * list regex) :=
  [ ("PhD"%string,
     [ ResumeParser.seq [lit "ph"; Opt (Chr "."); Chr "d"; Opt (Chr ".")];
       lit "doctorate"; lit "doctoral" ]);
    ("Masters"%string,
     [ possessive "master"; abbreviation "m.s"; abbreviation "m.a";
       lit "mba"; abbreviation "m.sc" ]);
    ("Bachelors"%string,
     [ possessive "bachelor"; abbreviation "b.s"; abbreviation "b.a";
       abbreviation "b.sc"; lit "b.tech" ]);
    ("Associates"%string,
     [ possessive "associate"; abbreviation "a.a"; abbreviation "a.s" ]);
    ("High School"%string,
     [ ResumeParser.seq [lit "high"; ResumeParser.ws; lit "school"];
       lit "diploma"; lit "ged" ]) ].

(** The two loops: the first level with a pattern found in the text. *)
Fixpoint first_level (patterns_by_level : list (string * list regex))
    (text_lower : string) : option string :=
  match patterns_by_level with
  | [] => None
  | (level, patterns) :: rest =>
      if existsb (λ pattern, search false pattern text_lower) patterns
      then Some level
      else first_level rest text_lower
  end.

(** [_extract_education_level] *)
Definition _extract_education_level (text : string) : option string :=
  let text_lower := PyStr.lower text in
  first_level education_patterns text_lower.

End ResumeEducation.

(** * Properties *)

(** ** Vocabulary of the statements *)

(** The three components of [_calculate_experience_match] for a job whose
    two bounds are present. *)
Definition experience_score (years lo hi : Z) : Q :=
  (MatchingEngine._calculate_experience_match years (Some lo) (Some hi)).1.1.

Definition experience_fit_of (years lo hi : Z) : string :=
  (MatchingEngine._calculate_experience_match years (Some lo) (Some hi)).1.2.

Definition experience_gap_of (years lo hi : Z) : Z :=
  (MatchingEngine._calculate_experience_match years (Some lo) (Some hi)).2.

(** The table of the experience score, as the design states it. *)
Definition under_table (g : Z) : Q :=
  if (g <=? 1)%Z then 0.8
  else if (g <=? 2)%Z then 0.6
  else Qmax 0.2 (1 - 0.2 * inject_Z g).

Definition over_table (g : Z) : Q :=
  if (g <=? 2)%Z then 0.9
  else if (g <=? 5)%Z then 0.8
  else 0.7.

(** The candidate and the job of the worked scoring scenario; the fields
    that the scenario leaves open are parameters. *)
Definition scenario_candidate (cid : Z) (cname cemail : string)
    (clocation ceducation : option string) (csalary : option Z) : Candidate.t :=
  {| Candidate.id := cid;
     Candidate.name := cname;
     Candidate.email := cemail;
     Candidate.experience_years := 4;
     Candidate.skills := ["Python"; "React"]%string;
     Candidate.location := clocation;
     Candidate.education_level := ceducation;
     Candidate.salary_expectation := csalary |}.

Definition scenario_job (jid : Z) (jtitle : string) (jlocation : option string)
  : Job.t :=
  {| Job.id := jid;
     Job.title := jtitle;
     Job.required_skills := ["Python"; "SQL"]%string;
     Job.preferred_skills := [];
     Job.experience_min := Some 3%Z;
     Job.experience_max := Some 6%Z;
     Job.location := jlocation;
     Job.remote_ok := true;
     Job.salary_min := None;
     Job.salary_max := None;
     Job.education_requirements := None |}.

(** The equation that the design gives for the overall score, read on the
    fields of one stored record. *)
Definition aggregates (m : MatchResult) : Prop :=
  overall_match_score m
  == MatchingEngine.weighted (skill_match_score m) (experience_match_score m)
       (location_match_score m) (education_match_score m) (salary_match_score m).

(** The skill score of a candidate for a job. *)
Definition skill_score (candidate_skills required_skills preferred_skills : list string) : Q :=
  (MatchingEngine._calculate_skill_match candidate_skills required_skills
     preferred_skills).1.1.

(** A required or preferred skill that the candidate holds, case apart. *)
Definition exactly_matched (candidate_skills : list string) (skill : string) : bool :=
  PyStr.mem (PyStr.lower skill) (map PyStr.lower candidate_skills).

(** The award of one required skill in the design: 1.0 for an exact
    match, the related or partial score when there is one, else 0. *)
Definition skill_award (candidate_skills : list string) (req_skill : string) : Q :=
  if exactly_matched candidate_skills req_skill then 1.0
  else
    let related_score :=
      MatchingEngine._find_related_skill_match req_skill candidate_skills in
    if Qltb 0 related_score then related_score else 0.

Definition sumQ (l : list Q) : Q := foldr Qplus 0 l.

(** The required score of the design: the awards summed, over their
    number. *)
Definition required_score (candidate_skills required_skills : list string) : Q :=
  sumQ (map (skill_award candidate_skills) required_skills)
  / inject_Z (Z.of_nat (length required_skills)).

(** The bonus of the design: 0.1 for each preferred skill held. *)
Definition preferred_bonus (candidate_skills preferred_skills : list string) : Q :=
  sumQ (map (λ p, if exactly_matched candidate_skills p then 0.1 else 0)
            preferred_skills).

(** A profile flagged as failed: the name carries the failure prefix, and
    the email and the skills are empty. *)
Definition failure_flagged (p : CandidateProfile) : Prop :=
  PyStr.startswith "Failed_Parse_" (name p) = true
  ∧ email p = ""%string ∧ skills p = [].

(** The year pattern without its capturing group: what [re.findall] would
    need to report the four-digit years themselves. *)
Definition year_whole : Regex.regex :=
  ResumeParser.seq
    [Regex.Alt (Regex.lit "19") (Regex.lit "20"); Regex.Digit; Regex.Digit].

(** A two-line resume with one date range under its experience heading. *)
Definition resume_2015_2020 : string :=
  "Experience" +:+ ResumeParser.newline +:+ "Acme Corp 2015 - 2020".

Definition experience_keywords : list string :=
  ["experience"; "work history"; "employment"].

(** The record of one individual insert of [c]: success with the id
    assigned, or failure with the error's text. *)
Definition is_outcome_of (c : CandidateProfile) (o : StoredCandidate.t) : Prop :=
  (∃ candidate_id, o = BulkProcessor.stored_ok candidate_id c)
  ∨ (∃ individual_error, o = BulkProcessor.stored_failed individual_error c).

(** What phase 1 makes of one task outcome. *)
Definition parsed_of (outcome : result CandidateProfile) (filename : string)
  : CandidateProfile :=
  match outcome with
  | Ok candidate => candidate
  | Raise _ => BulkProcessor.failed_candidate filename
  end.

(** Whether a candidate passes, given those accepted before it. *)
Definition accepts (valid : list CandidateProfile) (c : CandidateProfile) : bool :=
  negb (BulkProcessor.has_critical_issues
          (BulkProcessor.validation_issues_of valid c)).

(** The dictionary that the loop leaves for a candidate. *)
Definition validation_record (filename : string) (valid : list CandidateProfile)
    (c : CandidateProfile) : ValidationResult.t :=
  {| ValidationResult.filename := filename;
     ValidationResult.candidate_name := name c;
     ValidationResult.email := email c;
     ValidationResult.success := accepts valid c;
     ValidationResult.issues := BulkProcessor.validation_issues_of valid c;
     ValidationResult.skills_count := Z.of_nat (length (skills c));
     ValidationResult.experience_years := experience_years c |}.

(** The accepted list after the loop has seen [candidates]. *)
Fixpoint survivors (valid : list CandidateProfile)
    (candidates : list CandidateProfile) : list CandidateProfile :=
  match candidates with
  | [] => valid
  | c :: rest => survivors (if accepts valid c then valid ++ [c] else valid) rest
  end.

(** The dictionaries that the loop appends for [candidates]. *)
Fixpoint validated (file_names : list string) (valid : list CandidateProfile)
    (candidates : list CandidateProfile) {struct candidates}
  : list ValidationResult.t :=
  match candidates, file_names with
  | c :: rest, filename :: names =>
      validation_record filename valid c
      :: validated names (if accepts valid c then valid ++ [c] else valid) rest
  | _, _ => []
  end.

(** A name that the validation takes as present. *)
Definition name_valid (c : CandidateProfile) : bool :=
  PyStr.truthy (name c) && negb (PyStr.startswith "PARSE_FAILED" (name c)).

(** An accepted candidate with the email of [c]. *)
Definition email_taken (valid : list CandidateProfile) (c : CandidateProfile) : bool :=
  existsb (λ existing, String.eqb (email existing) (email c)) valid.

(** What the loop has accepted when it reaches position [j]. *)
Definition accepted_before (candidates : list CandidateProfile) (j : nat)
  : list CandidateProfile :=
  survivors [] (take j candidates).

(** Two profiles with one email, the first of them without a name. *)
Definition nameless_profile : CandidateProfile :=
  {| name := ""; email := "pat@example.com"; phone := None; location := None;
     current_position := None; experience_years := 3;
     skills := ["Python"]%string; education_level := None;
     resume_text := ""%string; salary_expectation := None; source := None |}.

Definition named_profile : CandidateProfile :=
  {| name := "Pat Doe"; email := "pat@example.com"; phone := None;
     location := None; current_position := None; experience_years := 3;
     skills := ["Python"]%string; education_level := None;
     resume_text := ""%string; salary_expectation := None; source := None |}.

(** A score in the unit interval. *)
Definition in_unit (q : Q) : Prop := 0 <= q ∧ q <= 1.

(** Whether a required skill earns an award: an exact match, or a related
    or partial one. *)
Definition earns_award (candidate_skills : list string) (req_skill : string) : bool :=
  exactly_matched candidate_skills req_skill
  || Qltb 0 (MatchingEngine._find_related_skill_match req_skill candidate_skills).

(** The five scores of the engine, on a candidate and a job. *)
Definition location_score (c : Candidate.t) (j : Job.t) : Q :=
  (MatchingEngine._calculate_location_match (Candidate.location c)
     (Job.location j) (Job.remote_ok j)).1.

Definition salary_score (expectation job_min job_max : option Z) : Q :=
  (MatchingEngine._calculate_salary_match expectation job_min job_max).1.

(** The order that [sort] with [reverse=True] leaves: scores never rise
    along the list. *)
Definition score_ge (a b : MatchDict.t) : Prop :=
  MatchDict.match_score b <= MatchDict.match_score a.

(** The entries of a ranking that hold a given score. *)
Definition with_score (q : Q) (l : list MatchDict.t) : list MatchDict.t :=
  List.filter (λ d, Qeq_bool (MatchDict.match_score d) q) l.

(** The rank of a candidate's education level; 0 for a level that the
    hierarchy does not list. *)
Definition education_rank (candidate_education : string) : Z :=
  default 0%Z (MatchingEngine.dict_get MatchingEngine.education_hierarchy
                 candidate_education).

(** The batches handed to [create_candidates_bulk], in call order. *)
Definition bulk_batches (calls : list BulkProcessor.db_call)
  : list (list CandidateProfile) :=
  omap (λ call, match call with
                | BulkProcessor.BulkInsert batch => Some batch
                | BulkProcessor.SingleInsert _ => None
                end) calls.

(** A call to the persistence layer that concerns [candidates] only. *)
Definition call_within (candidates : list CandidateProfile)
    (call : BulkProcessor.db_call) : Prop :=
  match call with
  | BulkProcessor.BulkInsert batch => batch ⊆ candidates
  | BulkProcessor.SingleInsert c => c ∈ candidates
  end.

(** A storage record written for one of [candidates]. *)
Definition stored_from (candidates : list CandidateProfile)
    (o : StoredCandidate.t) : Prop :=
  ∃ c, c ∈ candidates ∧ is_outcome_of c o.

(** The record of a bulk insert that returned [candidate_id] for [c]. *)
Definition bulk_recorded (c : CandidateProfile) (o : StoredCandidate.t) : Prop :=
  ∃ candidate_id, o = BulkProcessor.stored_ok candidate_id c.

(** The profiles that phase 1 hands to the validation. *)
Definition parsed_profiles
    (parse_single : string → string → result CandidateProfile)
    (resume_files file_names : list string) : list CandidateProfile :=
  zip_with parsed_of
    (map (λ p, parse_single p.1 p.2) (zip resume_files file_names)) file_names.

(** A call to the persistence layer that carries the profile [c]. *)
Definition call_carries (c : CandidateProfile) (call : BulkProcessor.db_call)
  : Prop :=
  match call with
  | BulkProcessor.BulkInsert batch => c ∈ batch
  | BulkProcessor.SingleInsert x => x = c
  end.

(** How often [issue] occurs in the validation issues of [results]. *)
Definition occurrences (issue : string) (results : list ProcessingResult.t) : Z :=
  Z.of_nat (length (filter (λ x, x = issue)
                      (concat (map ProcessingResult.validation_issues results)))).

(** The results that report success. *)
Definition successes (results : list ProcessingResult.t)
  : list ProcessingResult.t :=
  List.filter ProcessingResult.success results.

(** A distribution drawn from [values]: the three figures are values of
    the list, in order, and the median is the upper one, with at most
    half of the values below it and fewer than half above. *)
Definition distribution_over (values : list Z) (d : Distribution.t) : Prop :=
  Distribution.min d ∈ values ∧ Distribution.max d ∈ values
  ∧ Distribution.median d ∈ values
  ∧ (∀ z, z ∈ values → (Distribution.min d <= z <= Distribution.max d)%Z)
  ∧ (2 * length (filter (λ z, (z < Distribution.median d)%Z) values)
     <= length values)%nat
  ∧ (2 * length (filter (λ z, (Distribution.median d < z)%Z) values)
     < length values)%nat.

(** Counts that never rise along a list of items. *)
Definition count_ge (a b : string * Z) : Prop := (b.2 <= a.2)%Z.

(** [issue_counts.get(issue, 0)] on the list of items. *)
Fixpoint count_of (issue : string) (items : list (string * Z)) : Z :=
  match items with
  | [] => 0
  | (k, n) :: rest => if String.eqb k issue then n else count_of issue rest
  end.

(** The dictionary [issue_counts] after the loop over [all_issues]. *)
Definition issue_counts_of (all_issues : list string) : list (string * Z) :=
  foldl (λ counts issue, BulkStatistics.count_issue issue counts) [] all_issues.

(** Two results, one of them a success, with one issue in common. *)
Definition sample_results : list ProcessingResult.t :=
  [ProcessingResult.mk "a.pdf" "Pat Doe" "pat@example.com" true (Some 7%Z) 4 6
     ["Invalid email format"]%string None "";
   ProcessingResult.mk "b.pdf" "" "" false None 0 0
     ["Invalid or missing name"; "Invalid email format"]%string None ""].

(** A string without a dot. *)
Fixpoint no_dot (s : string) : bool :=
  match s with
  | EmptyString => true
  | String c s' => negb (Ascii.eqb c ".") && no_dot s'
  end.

(** The extensions that [_extract_text] hands to a reader. *)
Definition supported_extensions : list string :=
  ["pdf"; "docx"; "doc"; "txt"]%string.

(** A line that mentions one of the keywords. *)
Definition mentions (section_keywords : list string) (line : string) : bool :=
  ResumeParser.any_keyword section_keywords (ResumeParser.line_lower line).

(** A string without a line break. *)
Fixpoint one_line (s : string) : bool :=
  match s with
  | EmptyString => true
  | String c s' => negb (Ascii.eqb c PyStr.nl) && one_line s'
  end.

(** The points that [_calculate_overall_score] gives for an education
    level. *)
Definition education_points (education_level : option string) : Z :=
  default 0%Z (education_level
               ≫= MatchingEngine.dict_get ResumeScores.education_scores).

(** ** The matching engine *)

Section ExperienceFacts.

Lemma Qltb_true x y : Qltb x y = true ↔ x < y.
Proof.
  unfold Qltb. rewrite negb_true_iff, <- not_true_iff_false, Qle_bool_iff.
  split; [apply Qnot_le_lt | apply Qlt_not_le].
Qed.

Lemma Qltb_false x y : Qltb x y = false ↔ y <= x.
Proof.
  unfold Qltb. rewrite negb_false_iff, Qle_bool_iff. reflexivity.
Qed.

Lemma py_fmax_Qmax x y : py_fmax x y == Qmax x y.
Proof.
  unfold py_fmax. destruct (Qltb x y) eqn:E.
  - apply Qltb_true in E. symmetry. apply Q.max_r. lra.
  - apply Qltb_false in E. symmetry. apply Q.max_l. exact E.
Qed.

Lemma py_fmin_Qmin x y : py_fmin x y == Qmin x y.
Proof.
  unfold py_fmin. destruct (Qltb y x) eqn:E.
  - apply Qltb_true in E. symmetry. apply Q.min_r. lra.
  - apply Qltb_false in E. symmetry. apply Q.min_l. exact E.
Qed.

Lemma inject_Z_ge (g k : Z) : (k <= g)%Z → inject_Z k <= inject_Z g.
Proof. intros H. rewrite <- Zle_Qle. exact H. Qed.

(** Below the minimum the score is the under-qualified table at the gap. *)
Lemma experience_under years lo hi :
  (years < lo)%Z →
  experience_score years lo hi == under_table (lo - years)
  ∧ experience_fit_of years lo hi = "Under-qualified"%string
  ∧ experience_gap_of years lo hi = (lo - years)%Z.
Proof.
  intros H. unfold experience_score, experience_fit_of, experience_gap_of,
    MatchingEngine._calculate_experience_match, under_table. simpl.
  apply Z.ltb_lt in H. rewrite H. simpl. split; [|done].
  destruct (lo - years <=? 1)%Z; [reflexivity|].
  destruct (lo - years <=? 2)%Z; [reflexivity|].
  rewrite py_fmax_Qmax. apply Q.max_compat; [reflexivity | ring].
Qed.

(** Above the maximum, and not below the minimum, it is the
    over-qualified table. *)
Lemma experience_over years lo hi :
  (lo <= years)%Z → (hi < years)%Z →
  experience_score years lo hi == over_table (years - hi)
  ∧ experience_fit_of years lo hi = "Over-qualified"%string
  ∧ experience_gap_of years lo hi = (years - hi)%Z.
Proof.
  intros Hlo Hhi. unfold experience_score, experience_fit_of,
    experience_gap_of, MatchingEngine._calculate_experience_match, over_table.
  simpl. apply Z.ltb_ge in Hlo. apply Z.ltb_lt in Hhi. rewrite Hlo, Hhi.
  simpl. split; [|done].
  destruct (years - hi <=? 2)%Z; [reflexivity|].
  destruct (years - hi <=? 5)%Z; reflexivity.
Qed.

Lemma experience_within years lo hi :
  (lo <= years <= hi)%Z →
  experience_score years lo hi == 1
  ∧ experience_fit_of years lo hi = "Perfect"%string
  ∧ experience_gap_of years lo hi = 0%Z.
Proof.
  intros [Hlo Hhi]. unfold experience_score, experience_fit_of,
    experience_gap_of, MatchingEngine._calculate_experience_match. simpl.
  apply Z.ltb_ge in Hlo. apply Z.ltb_ge in Hhi. rewrite Hlo, Hhi. done.
Qed.

Lemma under_table_bounds g : (1 <= g)%Z → 0.2 <= under_table g ∧ under_table g <= 0.8.
Proof.
  intros Hg. unfold under_table.
  destruct (g <=? 1)%Z eqn:E1; [lra|].
  destruct (g <=? 2)%Z eqn:E2; [lra|].
  apply Z.leb_gt in E2. assert (H3 : inject_Z 3 <= inject_Z g) by (apply inject_Z_ge; lia).
  change (inject_Z 3) with (3 # 1) in H3.
  split; [apply Q.le_max_l|]. apply Q.max_lub; lra.
Qed.

Lemma over_table_bounds g : 0.7 <= over_table g ∧ over_table g <= 0.9.
Proof.
  unfold over_table. destruct (g <=? 2)%Z; [lra|].
  destruct (g <=? 5)%Z; lra.
Qed.



End ExperienceFacts.

(** C3, as stated, fails on a job whose bounds are crossed: with minimum
    12 and maximum 10, eleven years are above the maximum by one, yet the
    code, which tests the minimum first, scores them as one year below it. *)
Lemma crossed_bounds_score_as_under :
  (10 < 11)%Z
  ∧ experience_fit_of 11 12 10 = "Under-qualified"%string
  ∧ experience_score 11 12 10 == 0.8
  ∧ ¬ (experience_score 11 12 10 == over_table (11 - 10)
       ∧ experience_fit_of 11 12 10 = "Over-qualified"%string).
Proof.
  split; [lia|]. split; [reflexivity|]. split; [reflexivity|].
  intros [H _]. vm_compute in H. discriminate.
Qed.

(** C3, amended.  For a job whose two experience bounds are present, the
    experience score is 1.0 exactly when [lo <= years <= hi].  Below the
    minimum, with gap [g = lo - years], the score is 0.8 for [g <= 1], 0.6
    for [g <= 2] and [max(0.2, 1 - 0.2 g)] beyond, and the fit is
    "Under-qualified".  Above the maximum and not below the minimum, with
    gap [g = years - hi], the score is 0.9 for [g <= 2], 0.8 for [g <= 5]
    and 0.7 beyond, and the fit is "Over-qualified". *)
Theorem experience_score_table (years lo hi : Z) :
  (experience_score years lo hi == 1 ↔ (lo <= years <= hi)%Z)
  ∧ ((years < lo)%Z →
     experience_score years lo hi == under_table (lo - years)
     ∧ experience_fit_of years lo hi = "Under-qualified"%string
     ∧ experience_gap_of years lo hi = (lo - years)%Z)
  ∧ ((lo <= years)%Z → (hi < years)%Z →
     experience_score years lo hi == over_table (years - hi)
     ∧ experience_fit_of years lo hi = "Over-qualified"%string
     ∧ experience_gap_of years lo hi = (years - hi)%Z).
Proof.
  split; [|split].
  - split.
    + intros H1.
      destruct (Z_lt_le_dec years lo) as [Hu|Hlo].
      { destruct (experience_under years lo hi Hu) as [E _].
        destruct (under_table_bounds (lo - years)) as [_ Hb]; [lia|].
        rewrite E in H1. lra. }
      destruct (Z_lt_le_dec hi years) as [Ho|Hhi]; [|lia].
      destruct (experience_over years lo hi Hlo Ho) as [E _].
      destruct (over_table_bounds (years - hi)) as [_ Hb].
      rewrite E in H1. lra.
    + intros H. apply experience_within. exact H.
  - apply experience_under.
  - apply experience_over.
Qed.

Lemma experience_score_table_witness :
  experience_score 4 3 6 == 1
  ∧ (experience_score 1 5 8 == 0.2
     ∧ experience_fit_of 1 5 8 = "Under-qualified"%string)
  ∧ (experience_score 9 3 6 == 0.8
     ∧ experience_fit_of 9 3 6 = "Over-qualified"%string).
Proof.
  split; [|split].
  - apply (proj1 (experience_score_table 4 3 6)). lia.
  - destruct (proj1 (proj2 (experience_score_table 1 5 8))) as (E & F & _);
      [lia|]. split; [rewrite E; reflexivity | exact F].
  - destruct (proj2 (proj2 (experience_score_table 9 3 6))) as (E & F & _);
      [lia | lia |]. split; [rewrite E; reflexivity | exact F].
Defined.


(** And four and five years below the minimum score the same. *)
Lemma experience_score_floor :
  (1 < 6)%Z ∧ (2 < 6)%Z ∧ (6 - 2 < 6 - 1)%Z
  ∧ ¬ (experience_score 1 6 9 < experience_score 2 6 9).
Proof.
  split; [lia|]. split; [lia|]. split; [lia|]. vm_compute. discriminate.
Qed.



Section ScoringFacts.

Import MatchingEngine.

Lemma salary_match_no_range ce : _calculate_salary_match ce None None = (1.0, true).
Proof.
  unfold _calculate_salary_match. destruct (int_truthy ce); reflexivity.
Qed.

Lemma education_match_no_requirement ce : _calculate_education_match ce None = 1.0.
Proof. reflexivity. Qed.

Lemma location_match_remote cl jl : _calculate_location_match cl jl true = (1.0, true).
Proof. reflexivity. Qed.

End ScoringFacts.

(** C2.  The worked scenario: skills Python and React, four years, against
    a remote job that requires Python and SQL with range 3 to 6 and states
    no preferred skill, education requirement or salary.  The skill score
    is 0.5 with SQL missing, the four other scores are 1.0, the overall
    score is 0.80 and the recommendation is "Strong Match", whatever the
    remaining fields of the candidate and the job hold. *)
Theorem scenario_strong_match
    (cid : Z) (cname cemail : string) (clocation ceducation : option string)
    (csalary : option Z) (jid : Z) (jtitle : string) (jlocation : option string) :
  let m :=
    MatchingEngine._calculate_match_score
      (scenario_candidate cid cname cemail clocation ceducation csalary)
      (scenario_job jid jtitle jlocation) in
  skill_match_score m == 0.5
  ∧ missing_skills m = ["SQL"]%string
  ∧ experience_match_score m == 1
  ∧ location_match_score m == 1
  ∧ education_match_score m == 1
  ∧ salary_match_score m == 1
  ∧ overall_match_score m == 0.80
  ∧ recommendation m = "Strong Match"%string.
Proof.
  intros m. subst m. unfold MatchingEngine._calculate_match_score.
  cbn [scenario_candidate scenario_job Candidate.salary_expectation
       Job.salary_min Job.salary_max Job.remote_ok Job.location
       Candidate.location Job.education_requirements Candidate.education_level].
  rewrite salary_match_no_range, education_match_no_requirement,
    location_match_remote.
  vm_compute. repeat split.
Qed.

(** ** The ranking *)

Section RankingFacts.

Import MatchingEngine.

Lemma elem_of_insert_desc x y l : y ∈ insert_desc x l → y = x ∨ y ∈ l.
Proof.
  induction l as [|z l IH]; simpl.
  - intros H. apply list_elem_of_singleton in H. by left.
  - destruct (Qltb _ _).
    + intros H. apply elem_of_cons in H. destruct H; [by left | by right].
    + intros H. apply elem_of_cons in H. destruct H as [->|H].
      * right. apply elem_of_cons. by left.
      * destruct (IH H) as [->|H']; [by left|].
        right. apply elem_of_cons. by right.
Qed.

Lemma elem_of_sort_desc_acc l acc y :
  y ∈ foldl (λ acc x, insert_desc x acc) acc l → y ∈ acc ∨ y ∈ l.
Proof.
  revert acc. induction l as [|x l IH]; simpl; intros acc H.
  - by left.
  - destruct (IH _ H) as [H'|H'].
    + destruct (elem_of_insert_desc _ _ _ H') as [->|H''].
      * right. apply elem_of_cons. by left.
      * by left.
    + right. apply elem_of_cons. by right.
Qed.

Lemma elem_of_sort_desc l y : y ∈ sort_desc l → y ∈ l.
Proof.
  intros H. destruct (elem_of_sort_desc_acc _ _ _ H) as [H'|H']; [|done].
  by apply elem_of_nil in H'.
Qed.

Lemma elem_of_slice_to {A} (n : Z) (l : list A) y : y ∈ slice_to n l → y ∈ l.
Proof.
  unfold slice_to. destruct (0 <=? n)%Z; intros H;
    apply list_elem_of_lookup in H as [i H];
    apply lookup_take_Some in H as [H _];
    eapply list_elem_of_lookup_2; exact H.
Qed.

Lemma elem_of_score_candidates job min_score candidates d :
  d ∈ score_candidates job min_score candidates →
  ∃ c, c ∈ candidates ∧ d = match_dict c (_calculate_match_score c job).
Proof.
  unfold score_candidates. induction candidates as [|c cs IH]; simpl.
  - intros H. by apply elem_of_nil in H.
  - intros H. apply elem_of_app in H. destruct H as [H|H].
    + destruct (Qgeb _ _).
      * apply list_elem_of_singleton in H. exists c. split; [|done].
        apply elem_of_cons. by left.
      * by apply elem_of_nil in H.
    + destruct (IH H) as (c' & Hc & ->). exists c'. split; [|done].
      apply elem_of_cons. by right.
Qed.

End RankingFacts.


(** The stored record can still satisfy the equation, by coincidence: a
    candidate one education level under the requirement and five percent
    over the salary range has real education and salary scores of 0.8. *)
Lemma stored_match_can_aggregate :
  ∃ saved m,
    (MatchingEngine.find_best_matches
       (λ _, Some {| Job.id := 7; Job.title := "Engineer";
                     Job.required_skills := ["Python"; "SQL"]%string;
                     Job.preferred_skills := [];
                     Job.experience_min := Some 3%Z;
                     Job.experience_max := Some 6%Z;
                     Job.location := None; Job.remote_ok := true;
                     Job.salary_min := Some 80000%Z;
                     Job.salary_max := Some 100000%Z;
                     Job.education_requirements := Some "Master's degree"%string |})
       (λ _, [scenario_candidate 1 "Ada" "ada@example.com" None
                (Some "Bachelors"%string) (Some 105000%Z)])
       7 20 0.6).1 = Some saved
    ∧ m ∈ saved ∧ aggregates m.
Proof.
  eexists _, _. split; [vm_compute; reflexivity|].
  split; [apply elem_of_cons; left; reflexivity|].
  vm_compute. reflexivity.
Qed.


(** ** The skill score *)

Section SkillFacts.

Import MatchingEngine.

Lemma required_step_total cs st r :
  (required_step cs st r).2 == st.2 + skill_award cs r.
Proof.
  destruct st as [[matching missing] total].
  unfold required_step, skill_award, exactly_matched.
  destruct (PyStr.mem _ _); [reflexivity|].
  cbv zeta. destruct (Qltb _ _); cbn [snd]; [reflexivity | ring].
Qed.

Lemma required_loop_total cs rs : ∀ st,
  (foldl (required_step cs) st rs).2
  == st.2 + sumQ (map (skill_award cs) rs).
Proof.
  induction rs as [|r rs IH]; intros st; simpl.
  - ring.
  - rewrite IH, required_step_total. ring.
Qed.

Lemma preferred_loop_bonus cs ps bonus matching :
  (foldl (preferred_step cs) (bonus, matching) ps).1
  == bonus + preferred_bonus cs ps.
Proof.
  revert bonus matching. unfold preferred_bonus.
  induction ps as [|p ps IH]; intros bonus matching; simpl.
  - ring.
  - unfold exactly_matched at 1.
    destruct (PyStr.mem (PyStr.lower p) _); rewrite IH; ring.
Qed.

(** The score in closed form, for a job that requires something. *)
Lemma skill_score_closed cs rs ps :
  rs ≠ [] →
  skill_score cs rs ps
  == Qmin (required_score cs rs + preferred_bonus cs ps) 1.
Proof.
  intros Hne. unfold skill_score, _calculate_skill_match.
  destruct rs as [|r0 rs0]; [done|]. set (rs := r0 :: rs0).
  pose proof (required_loop_total cs rs ([], [], 0.0)) as Ht.
  destruct (foldl (required_step cs) ([], [], 0.0) rs) as [[matching missing] total].
  pose proof (preferred_loop_bonus cs ps 0.0 matching) as Hb.
  destruct (foldl (preferred_step cs) (0.0, matching) ps) as [bonus matching'].
  cbn [fst snd] in *. rewrite py_fmin_Qmin.
  apply Q.min_compat; [|reflexivity].
  unfold required_score. rewrite Ht, Hb. field.
  change 0 with (inject_Z 0). rewrite inject_Z_injective. simpl. lia.
Qed.

Lemma skill_award_exact cs r : exactly_matched cs r = true → skill_award cs r = 1.0.
Proof. unfold skill_award, exactly_matched. by intros ->. Qed.

Lemma skill_award_nonneg cs r : 0 <= skill_award cs r.
Proof.
  unfold skill_award. destruct (exactly_matched cs r); [done|].
  cbv zeta. destruct (Qltb _ _) eqn:E; [|done]. apply Qltb_true in E. lra.
Qed.

(** Replacing the entry at [i] moves the sum by the difference. *)
Lemma sumQ_insert (f : string → Q) rs i r r' :
  rs !! i = Some r →
  sumQ (map f (<[i:=r']> rs)) == sumQ (map f rs) - f r + f r'.
Proof.
  revert i. induction rs as [|x rs IH]; intros [|i] H; simpl in *; try done.
  - injection H as ->. ring.
  - rewrite (IH i H). ring.
Qed.

End SkillFacts.

(** C9.  For a job that requires at least one skill, turning one required
    skill from unmatched (award 0) into one that the candidate holds
    exactly, case apart (award 1.0), with the candidate, the other required
    skills and the preferred skills unchanged, never lowers the skill
    score [min(required score + bonus, 1.0)]: the required score grows by
    one over the number of required skills. *)
Theorem skill_score_monotone (cs rs ps : list string) (i : nat) (r r' : string) :
  rs !! i = Some r →
  skill_award cs r == 0 →
  exactly_matched cs r' = true →
  skill_score cs rs ps == Qmin (required_score cs rs + preferred_bonus cs ps) 1
  ∧ skill_score cs (<[i:=r']> rs) ps
    == Qmin (required_score cs rs + 1 / inject_Z (Z.of_nat (length rs))
             + preferred_bonus cs ps) 1
  ∧ skill_score cs rs ps <= skill_score cs (<[i:=r']> rs) ps.
Proof.
  intros Hi H0 H1.
  assert (Hne : rs ≠ []) by (intros ->; done).
  assert (Hne' : <[i:=r']> rs ≠ []).
  { intros E. apply (f_equal length) in E. rewrite length_insert in E.
    destruct rs; [done|]. simpl in E. lia. }
  assert (Hn : 0 < inject_Z (Z.of_nat (length rs))).
  { change 0 with (inject_Z 0). rewrite <- Zlt_Qlt. destruct rs; [done|].
    simpl. lia. }
  assert (E' : required_score cs (<[i:=r']> rs)
               == required_score cs rs + 1 / inject_Z (Z.of_nat (length rs))).
  { unfold required_score. rewrite length_insert.
    rewrite (sumQ_insert _ rs i r r' Hi), H0, (skill_award_exact cs r' H1).
    field. lra. }
  assert (Hinv : 0 < 1 / inject_Z (Z.of_nat (length rs))).
  { unfold Qdiv. rewrite Qmult_1_l. apply Qinv_lt_0_compat. exact Hn. }
  rewrite (skill_score_closed cs rs ps Hne).
  rewrite (skill_score_closed cs _ ps Hne'). rewrite E'.
  split; [reflexivity|]. split; [reflexivity|].
  apply Q.min_le_compat_r. lra.
Qed.

Lemma skill_score_monotone_witness :
  skill_score ["Python"; "React"] ["Python"; "SQL"] []
  <= skill_score ["Python"; "React"] ["Python"; "React"] [].
Proof.
  apply (skill_score_monotone ["Python"; "React"] ["Python"; "SQL"] [] 1
           "SQL" "React").
  - reflexivity.
  - vm_compute. reflexivity.
  - vm_compute. reflexivity.
Defined.

(** ** The parser *)

Section ParseSingle.

Import ResumeParser.

Variable b64decode : string → option string.
Variable pdf_text docx_text : string → option string.
Variable decode_utf8 : string → string.
Variable extract_name extract_email extract_phone : string → option string.
Variable extract_skills : string → list string.
Variable extract_position extract_education extract_location : string → option string.

Let parse := _parse_single_resume b64decode pdf_text docx_text decode_utf8
               extract_name extract_email extract_phone extract_skills
               extract_position extract_education extract_location.
Let text_of := _extract_text pdf_text docx_text decode_utf8.

Lemma create_empty_candidate_flagged filename :
  failure_flagged (_create_empty_candidate filename).
Proof. repeat split. Qed.

(** C7.  [_parse_single_resume] returns a profile on every input, whatever
    the decoder and the readers do; and when base64 decoding fails, or the
    text extracted is empty, or its stripped length is under 50, the
    profile returned is the failure one: its name starts with
    "Failed_Parse_", and its email and skills are empty. *)
Theorem parse_single_resume_never_raises (file_content filename : string) :
  (∃ p, parse file_content filename = Ok p)
  ∧ ((b64decode file_content = None
      ∨ ∃ file_bytes, b64decode file_content = Some file_bytes
          ∧ (text_of file_bytes filename = ""%string
             ∨ (PyStr.len (PyStr.strip (text_of file_bytes filename)) < 50)%Z))
     → ∃ p, parse file_content filename = Ok p
            ∧ p = _create_empty_candidate filename
            ∧ failure_flagged p).
Proof.
  unfold parse, text_of, _parse_single_resume. split.
  - destruct (b64decode file_content) as [file_bytes|]; [|eauto].
    destruct (insufficient _); eauto.
  - intros [->|(file_bytes & -> & H)].
    + eexists. split; [reflexivity|]. split; [reflexivity|].
      apply create_empty_candidate_flagged.
    + assert (E : insufficient
                    (_extract_text pdf_text docx_text decode_utf8 file_bytes
                       filename) = true).
      { unfold insufficient. destruct H as [->|H]; [reflexivity|].
        apply Z.ltb_lt in H. rewrite H. apply orb_true_r. }
      rewrite E. eexists. split; [reflexivity|]. split; [reflexivity|].
      apply create_empty_candidate_flagged.
Qed.

End ParseSingle.

Lemma parse_single_resume_never_raises_witness :
  ∃ p, ResumeParser._parse_single_resume (λ _, Some "hi"%string) (λ _, None)
         (λ _, None) (λ b, b) (λ _, None) (λ _, None) (λ _, None) (λ _, [])
         (λ _, None) (λ _, None) (λ _, None) "aGk=" "cv.txt" = Ok p
       ∧ failure_flagged p.
Proof.
  destruct (proj2 (parse_single_resume_never_raises (λ _, Some "hi"%string)
                     (λ _, None) (λ _, None) (λ b, b) (λ _, None) (λ _, None)
                     (λ _, None) (λ _, []) (λ _, None) (λ _, None) (λ _, None)
                     "aGk=" "cv.txt")) as (p & Hp & _ & Hf).
  - right. exists "hi"%string. split; [reflexivity|]. right. vm_compute. reflexivity.
  - exists p. split; [exact Hp | exact Hf].
Defined.

(** ** The experience fallback *)

Section FallbackFacts.

Import Regex ResumeParser.

Local Arguments Ascii.eqb : simpl never.
Local Arguments PyStr.is_digit : simpl never.
Local Arguments Nat.sub : simpl never.

(** Whatever the year pattern matches, its group holds a century. *)
Lemma year_pattern_capture s s' cap :
  match_here false year_pattern s = Some (s', cap) →
  cap = Some "19"%string ∨ cap = Some "20"%string.
Proof.
  unfold match_here, year_pattern, seq. simpl.
  destruct s as [|a [|b [|c [|d s]]]]; simpl;
    unfold chr_eqb, consumed; simpl;
    repeat match goal with
    | |- context [Ascii.eqb ?x ?y] =>
        let E := fresh "E" in
        destruct (Ascii.eqb x y) eqn:E;
        [apply Ascii.eqb_eq in E; subst|]; simpl
    | |- context [PyStr.is_digit ?x] => destruct (PyStr.is_digit x); simpl
    end;
    try discriminate;
    intros H; injection H as _ <-;
    match goal with
    | |- context [prefix_of ?n _] => replace n with 2%nat by lia
    end; simpl; auto.
Qed.

Lemma findall_year_centuries fuel s y :
  y ∈ findall_from fuel false year_pattern s →
  y = "19"%string ∨ y = "20"%string.
Proof.
  revert s. induction fuel as [|fuel IH]; intros s; simpl.
  - intros H. by apply elem_of_nil in H.
  - destruct (match_here false year_pattern s) as [[s' cap]|] eqn:E.
    + assert (Hi : item year_pattern s s' cap = "19"%string
                   ∨ item year_pattern s s' cap = "20"%string).
      { destruct (year_pattern_capture _ _ _ E) as [->| ->]; [by left | by right]. }
      destruct (String.length s' <? String.length s)%nat.
      * intros H. apply elem_of_cons in H as [->|H]; [done | by eapply IH].
      * intros H. apply elem_of_cons in H as [->|H]; [done|].
        destruct s; [by apply elem_of_nil in H | by eapply IH].
    + destruct s; [intros H; by apply elem_of_nil in H | apply IH].
Qed.

Lemma ints_centuries years zs z :
  (∀ y, y ∈ years → y = "19"%string ∨ y = "20"%string) →
  ints years = Some zs → z ∈ zs → (19 <= z <= 20)%Z.
Proof.
  revert zs. induction years as [|y years IH]; intros zs Hy H Hz.
  - injection H as <-. by apply elem_of_nil in Hz.
  - unfold ints in H. rewrite mapM_Some in H. apply Forall2_cons_inv_l in H
      as (z0 & zs0 & H0 & Hrest & ->).
    apply elem_of_cons in Hz as [->|Hz].
    + destruct (Hy y) as [->| ->]; [apply elem_of_cons; by left | | ];
        vm_compute in H0; injection H0 as <-; lia.
    + apply (IH zs0); [|unfold ints; by rewrite mapM_Some|done].
      intros y' Hy'. apply Hy. apply elem_of_cons. by right.
Qed.

Lemma py_max_bounds lo hi x l :
  (lo <= x <= hi)%Z → (∀ z, z ∈ l → (lo <= z <= hi)%Z) →
  (lo <= py_max x l <= hi)%Z ∧ (lo <= py_min x l <= hi)%Z.
Proof.
  unfold py_max, py_min. revert x.
  induction l as [|y l IH]; intros x Hx Hl; simpl; [lia|].
  assert (Hy : (lo <= y <= hi)%Z) by (apply Hl, elem_of_cons; by left).
  assert (Hl' : ∀ z, z ∈ l → (lo <= z <= hi)%Z)
    by (intros z Hz; apply Hl, elem_of_cons; by right).
  split; [apply (IH (Z.max x y)) | apply (IH (Z.min x y))]; auto; lia.
Qed.

Lemma py_min_le_max l : ∀ a b, (a <= b)%Z → (py_min a l <= py_max b l)%Z.
Proof.
  unfold py_min, py_max. induction l as [|y l IH]; intros a b H; simpl; [done|].
  apply IH. lia.
Qed.

(** The fallback yields 0 or 1, whatever the section holds. *)
Lemma section_years_bound section v :
  section_years section = Some v → (0 <= v <= 1)%Z.
Proof.
  unfold section_years.
  destruct (2 <=? length _)%nat; [|discriminate].
  destruct (ints _) as [[|y ys]|] eqn:E; try discriminate.
  intros H. injection H as <-.
  assert (Hc : ∀ z, z ∈ y :: ys → (19 <= z <= 20)%Z).
  { intros z Hz. eapply ints_centuries; [|exact E|exact Hz].
    intros y' Hy'. eapply findall_year_centuries. exact Hy'. }
  destruct (py_max_bounds 19 20 y ys) as [Hmax Hmin].
  - apply Hc, elem_of_cons. by left.
  - intros z Hz. apply Hc, elem_of_cons. by right.
  - pose proof (py_min_le_max ys y y (Z.le_refl y)). lia.
Qed.

(** So, when no explicit pattern decides, [_extract_experience_years] is 0
    or 1. *)
Lemma experience_years_fallback_bound text :
  first_pattern_years experience_patterns text = None →
  (0 <= _extract_experience_years text <= 1)%Z.
Proof.
  intros H. unfold _extract_experience_years. rewrite H.
  destruct (_extract_section _ _) as [section|]; [|lia].
  destruct (PyStr.truthy section); [|lia].
  destruct (section_years section) as [v|] eqn:E; simpl; [|lia].
  by apply section_years_bound in E.
Qed.

End FallbackFacts.

(** C8, on the code.  On a resume whose experience section holds the years
    2015 and 2020 and in which no explicit pattern matches, the section is
    found and its four-digit years are 2015 and 2020, five years apart; yet
    [re.findall] with the one-group pattern reports the two centuries, and
    [_extract_experience_years] returns 0. *)
Theorem experience_fallback_reads_centuries :
  ResumeParser.first_pattern_years ResumeParser.experience_patterns
    resume_2015_2020 = None
  ∧ ResumeParser._extract_section resume_2015_2020 experience_keywords
    = Some resume_2015_2020
  ∧ Regex.findall false year_whole resume_2015_2020 = ["2015"; "2020"]%string
  ∧ Regex.findall false ResumeParser.year_pattern resume_2015_2020
    = ["20"; "20"]%string
  ∧ ResumeParser._extract_experience_years resume_2015_2020 = 0%Z.
Proof. vm_compute. repeat split. Qed.

(** ** Slices *)

Section ChunkFacts.

Context {A B C : Type}.

Lemma zip_with_take_drop (f : A → B → C) n : ∀ l k,
  zip_with f (take n l) k ++ zip_with f (drop n l) (drop n k) = zip_with f l k.
Proof.
  induction n as [|n IH]; intros l k; [done|].
  destruct l as [|x l]; [done|]. destruct k as [|y k]; simpl.
  - by destruct (drop n l).
  - by rewrite IH.
Qed.

(** The slices of [range_chunks], put end to end, are the list from the
    first start index on. *)
Lemma range_chunks_concat (size : nat) (l : list A) : (0 < size)%nat →
  ∀ fuel i, (length l - i <= fuel)%nat →
  concat (map snd (range_chunks fuel size i l)) = drop i l.
Proof.
  intros Hs. induction fuel as [|fuel IH]; intros i Hf; simpl.
  - symmetry. apply drop_ge. lia.
  - destruct (i <? length l)%nat eqn:E.
    + apply Nat.ltb_lt in E. simpl. rewrite IH by lia.
      rewrite <- (take_drop size (drop i l)) at 2. by rewrite drop_drop.
    + apply Nat.ltb_ge in E. symmetry. by apply drop_ge.
Qed.

End ChunkFacts.

(** ** Storage *)

Section StorageFacts.

Import BulkProcessor.

Variable DB : Type.
Variable create_candidates_bulk : list CandidateProfile → DB → result (list Z) * DB.
Variable create_candidate : CandidateProfile → DB → result Z * DB.

Lemma store_individual_outcome st c :
  let st' := store_individual DB create_candidate st c in
  calls DB st' = calls DB st ++ [SingleInsert c]
  ∧ ∃ o, stored_candidates DB st' = stored_candidates DB st ++ [o]
         ∧ is_outcome_of c o.
Proof.
  unfold store_individual. destruct (create_candidate c (db DB st)) as [r d'].
  simpl. split; [reflexivity|]. eexists. split; [reflexivity|].
  destruct r; [left | right]; eauto.
Qed.

Lemma store_individually_outcomes batch : ∀ st,
  let st' := store_individually DB create_candidate batch st in
  calls DB st' = calls DB st ++ map SingleInsert batch
  ∧ ∃ outcomes, stored_candidates DB st' = stored_candidates DB st ++ outcomes
                ∧ Forall2 is_outcome_of batch outcomes.
Proof.
  unfold store_individually.
  induction batch as [|c batch IH]; intros st; simpl.
  - split; [by rewrite app_nil_r|]. exists []. split; [by rewrite app_nil_r|].
    constructor.
  - destruct (store_individual_outcome st c) as (Hc & o & Ho & Hr).
    destruct (IH (store_individual DB create_candidate st c))
      as (Hc' & outcomes & Ho' & Hr').
    split.
    + rewrite Hc', Hc, <- app_assoc. reflexivity.
    + exists (o :: outcomes). split.
      * rewrite Ho', Ho, <- app_assoc. reflexivity.
      * by constructor.
Qed.


(** When every bulk insert raises, the whole of [_store_candidates_batch]
    leaves one record per candidate, in input order: no candidate is lost
    between the batches. *)
Lemma all_bulk_inserts_failing (candidates : list CandidateProfile) (d : DB) :
  (∀ batch d0, ∃ e d1, create_candidates_bulk batch d0 = (Raise e, d1)) →
  Forall2 is_outcome_of candidates
    (stored_candidates DB
       (_store_candidates_batch DB create_candidates_bulk create_candidate
          candidates d)).
Proof.
  intros Hfail. unfold _store_candidates_batch.
  unfold chunked.
  assert (Hc : concat (map snd (range_chunks (length candidates) batch_size 0
                                  candidates)) = candidates).
  { rewrite range_chunks_concat; [done | unfold batch_size; lia | lia]. }
  revert Hc.
  generalize (map snd (range_chunks (length candidates) batch_size 0 candidates)).
  intros batches <-.
  assert (H : ∀ st done_,
             Forall2 is_outcome_of done_ (stored_candidates DB st) →
             Forall2 is_outcome_of (done_ ++ concat batches)
               (stored_candidates DB
                  (foldl (store_batch DB create_candidates_bulk create_candidate)
                     st batches))).
  { induction batches as [|batch rest IH]; intros st done_ Hd; simpl.
    - by rewrite app_nil_r.
    - rewrite app_assoc. apply IH.
      unfold store_batch. destruct (Hfail batch (db DB st)) as (e & d1 & ->).
      match goal with
      | |- context [store_individually DB create_candidate batch ?s] =>
          destruct (store_individually_outcomes batch s) as (_ & outcomes & -> & Hr)
      end.
      simpl. by apply Forall2_app. }
  apply (H _ []). constructor.
Qed.

End StorageFacts.


(** ** The pipeline *)

Section ParsingFacts.

Import BulkProcessor.

Lemma py_index_drop {A} (l : list A) i x rest :
  drop i l = x :: rest → py_index l i = Ok x ∧ drop (S i) l = rest.
Proof.
  intros H. unfold py_index.
  assert (Hx : l !! i = Some x).
  { rewrite <- (Nat.add_0_r i), <- lookup_drop, H. done. }
  rewrite Hx. split; [done|].
  by rewrite (drop_S l x i Hx) in H; injection H.
Qed.

Lemma collect_chunk_spec file_names i chunk : ∀ j parsed,
  (i + j + length chunk <= length file_names)%nat →
  collect_chunk file_names i j chunk parsed
  = Ok (parsed ++ zip_with parsed_of chunk (drop (i + j) file_names)).
Proof.
  induction chunk as [|r chunk IH]; intros j parsed Hl; simpl.
  - by rewrite app_nil_r.
  - destruct (drop (i + j) file_names) as [|fn rest] eqn:Hd.
    { apply (f_equal length) in Hd. rewrite length_drop in Hd. simpl in *. lia. }
    destruct (py_index_drop _ _ _ _ Hd) as [Hi Hr].
    destruct r as [c|e].
    + rewrite IH by (simpl in Hl; lia).
      replace (i + S j)%nat with (S (i + j)) by lia. rewrite Hr.
      simpl. by rewrite <- app_assoc.
    + rewrite Hi. simpl. rewrite IH by (simpl in Hl; lia).
      replace (i + S j)%nat with (S (i + j)) by lia. rewrite Hr.
      simpl. by rewrite <- app_assoc.
Qed.

Lemma collect_chunks_spec file_names (size : nat) tasks : (0 < size)%nat →
  (length tasks <= length file_names)%nat →
  ∀ fuel i parsed, (length tasks - i <= fuel)%nat →
  collect_chunks file_names (range_chunks fuel size i tasks) parsed
  = Ok (parsed ++ zip_with parsed_of (drop i tasks) (drop i file_names)).
Proof.
  intros Hs Hl. induction fuel as [|fuel IH]; intros i parsed Hf; simpl.
  - rewrite (drop_ge tasks) by lia. by rewrite app_nil_r.
  - destruct (i <? length tasks)%nat eqn:E.
    + apply Nat.ltb_lt in E. simpl.
      rewrite collect_chunk_spec.
      2:{ rewrite length_take, length_drop. lia. }
      simpl. rewrite IH by lia. rewrite Nat.add_0_r, <- app_assoc.
      do 2 f_equal.
      rewrite <- (zip_with_take_drop parsed_of size (drop i tasks)
                    (drop i file_names)).
      by rewrite !drop_drop.
    + apply Nat.ltb_ge in E. rewrite (drop_ge tasks) by lia.
      by rewrite app_nil_r.
Qed.

(** Phase 1 returns, and its output is the task outcomes in input order,
    a raised one replaced by the failure profile of its file. *)
Lemma parse_resumes_parallel_spec parse_single resume_files file_names :
  _parse_resumes_parallel parse_single resume_files file_names
  = Ok (zip_with parsed_of
          (map (λ p, parse_single p.1 p.2) (zip resume_files file_names))
          file_names).
Proof.
  unfold _parse_resumes_parallel, chunked.
  rewrite collect_chunks_spec; [done | unfold chunk_size; lia | | lia].
  rewrite length_map, length_zip. lia.
Qed.

End ParsingFacts.

(** ** Validation *)

Section ValidationFacts.

Import BulkProcessor.

Lemma validate_step_spec file_names valid results i c filename :
  py_index file_names i = Ok filename →
  validate_step file_names (valid, results) i c
  = Ok (if accepts valid c then valid ++ [c] else valid,
        results ++ [validation_record filename valid c]).
Proof.
  intros Hi. unfold validate_step. rewrite Hi. simpl.
  unfold accepts.
  destruct (has_critical_issues (validation_issues_of valid c)) eqn:E; simpl;
    rewrite alter_app_r_alt, Nat.sub_diag by lia; simpl;
    unfold validation_record, accepts, ValidationResult.set_success; simpl;
    by rewrite E.
Qed.

(** The loop returns what [survivors] and [validated] describe, as long as
    every candidate has a file name. *)
Lemma validate_loop_spec file_names candidates : ∀ valid results i,
  (i + length candidates <= length file_names)%nat →
  validate_loop file_names (valid, results) i candidates
  = Ok (survivors valid candidates,
        results ++ validated (drop i file_names) valid candidates).
Proof.
  induction candidates as [|c rest IH]; intros valid results i Hl.
  - simpl. by rewrite app_nil_r.
  - cbn [validate_loop validated]. simpl in Hl.
    destruct (drop i file_names) as [|fn names] eqn:Hd.
    { apply (f_equal length) in Hd. rewrite length_drop in Hd. simpl in *. lia. }
    destruct (py_index_drop _ _ _ _ Hd) as [Hi Hr].
    rewrite (validate_step_spec _ _ _ _ _ _ Hi). cbn [mbind result_bind].
    rewrite IH by lia. rewrite Hr, <- app_assoc. done.
Qed.

Lemma validate_candidates_spec candidates file_names :
  (length candidates <= length file_names)%nat →
  _validate_candidates candidates file_names
  = Ok (survivors [] candidates, validated file_names [] candidates).
Proof.
  intros Hl. unfold _validate_candidates.
  rewrite validate_loop_spec by (simpl; lia). done.
Qed.

Lemma length_validated candidates : ∀ file_names valid,
  (length candidates <= length file_names)%nat →
  length (validated file_names valid candidates) = length candidates.
Proof.
  induction candidates as [|c rest IH]; intros [|fn names] valid Hl; simpl in *;
    try done; try lia.
  rewrite IH; [done | lia].
Qed.

Lemma validated_filename candidates : ∀ file_names valid i r,
  validated file_names valid candidates !! i = Some r →
  file_names !! i = Some (ValidationResult.filename r).
Proof.
  induction candidates as [|c rest IH]; intros [|fn names] valid i r; simpl;
    try done.
  destruct i as [|i]; simpl.
  - intros H. injection H as <-. done.
  - apply IH.
Qed.

End ValidationFacts.

Section CompileFacts.

Import BulkProcessor.

Lemma compile_loop_spec storage_map file_names validation_results :
  ∀ i results,
  (i + length validation_results <= length file_names)%nat →
  compile_loop storage_map file_names i validation_results results
  = Ok (results ++ zip_with (compile_one storage_map) (drop i file_names)
                     validation_results).
Proof.
  induction validation_results as [|v rest IH]; intros i results Hl.
  - simpl. destruct (drop i file_names); simpl; by rewrite app_nil_r.
  - cbn [compile_loop]. simpl in Hl.
    destruct (drop i file_names) as [|fn names] eqn:Hd.
    { apply (f_equal length) in Hd. rewrite length_drop in Hd. simpl in *. lia. }
    destruct (py_index_drop _ _ _ _ Hd) as [Hi Hr].
    rewrite Hi. cbn [mbind result_bind]. rewrite IH by lia.
    rewrite Hr, <- app_assoc. done.
Qed.

Lemma compiled_filenames storage_map : ∀ file_names validation_results,
  length validation_results = length file_names →
  ProcessingResult.filename
    <$> zip_with (compile_one storage_map) file_names validation_results
  = file_names.
Proof.
  induction file_names as [|fn names IH]; intros [|v rest] Hl; simpl in *;
    try done.
  f_equal. apply IH. lia.
Qed.

End CompileFacts.

(** C1.  A bulk call on [n] contents and [n] file names returns, and what
    it returns is [n] results whose file names are the input file names in
    order, whatever the parse tasks, the validation and the persistence
    layer do to the individual items. *)
Theorem bulk_results_follow_input
    (parse_single : string → string → result CandidateProfile) (DB : Type)
    (create_candidates_bulk : list CandidateProfile → DB → result (list Z) * DB)
    (create_candidate : CandidateProfile → DB → result Z * DB)
    (resume_files file_names : list string) (job_id : option Z) (d : DB) :
  length resume_files = length file_names →
  ∃ results,
    (BulkProcessor.process_resumes_bulk parse_single DB create_candidates_bulk
       create_candidate resume_files file_names job_id d).1.1 = Ok results
    ∧ length results = length file_names
    ∧ ProcessingResult.filename <$> results = file_names
    ∧ ∀ i filename, file_names !! i = Some filename →
        ProcessingResult.filename <$> results !! i = Some filename.
Proof.
  intros Hlen. unfold BulkProcessor.process_resumes_bulk.
  rewrite parse_resumes_parallel_spec.
  set (parsed := zip_with parsed_of _ file_names).
  assert (Hp : length parsed = length file_names).
  { unfold parsed. rewrite length_zip_with, length_map, length_zip. lia. }
  rewrite validate_candidates_spec by lia.
  set (st := BulkProcessor._store_candidates_batch _ _ _ _ _).
  cbn [fst]. unfold BulkProcessor._compile_processing_results.
  assert (Hv : length (validated file_names [] parsed) = length file_names).
  { rewrite length_validated; lia. }
  rewrite compile_loop_spec by (simpl; lia).
  change (drop 0 file_names) with file_names. cbn [app].
  eexists. split; [reflexivity|].
  assert (Hm : ProcessingResult.filename
                 <$> zip_with
                       (BulkProcessor.compile_one
                          (BulkProcessor.storage_map_of
                             (BulkProcessor.stored_candidates DB st)))
                       file_names (validated file_names [] parsed)
               = file_names) by (by apply compiled_filenames).
  split; [|split; [exact Hm|]].
  - rewrite length_zip_with, Hv. apply Nat.min_id.
  - intros i filename Hi. rewrite <- list_lookup_fmap, Hm. exact Hi.
Qed.

Lemma bulk_results_follow_input_witness :
  let parse := λ content _ : string,
    if String.eqb content "boom" then @Raise CandidateProfile "parse error"
    else Ok (BulkProcessor.failed_candidate content) in
  let bulk := λ (_ : list CandidateProfile) (d : Z), (@Raise (list Z) "bulk", d) in
  let single := λ (_ : CandidateProfile) (d : Z), (Ok d, (d + 1)%Z) in
  ∃ results,
    (BulkProcessor.process_resumes_bulk parse Z bulk single
       ["a"; "boom"]%string ["a.pdf"; "b.pdf"]%string None 0%Z).1.1 = Ok results
    ∧ ProcessingResult.filename <$> results = ["a.pdf"; "b.pdf"]%string.
Proof.
  intros parse bulk single.
  destruct (bulk_results_follow_input parse Z bulk single ["a"; "boom"]%string
              ["a.pdf"; "b.pdf"]%string None 0%Z eq_refl)
    as (results & Hr & _ & Hm & _).
  exists results. split; [exact Hr | exact Hm].
Defined.

Section DuplicateFacts.

Import BulkProcessor.



(** The two critical checks, read off the list of issues. *)
Lemma accepts_spec valid c :
  accepts valid c
  = name_valid c && negb (PyStr.truthy (email c) && email_taken valid c).
Proof.
  unfold accepts, validation_issues_of, name_valid, email_taken.
  destruct (PyStr.truthy (name c)), (PyStr.startswith "PARSE_FAILED" (name c)),
    (PyStr.truthy (email c)), (PyStr.contains "@" (email c)),
    (existsb _ valid), (length (skills c) =? 0)%nat,
    (experience_years c <? 0)%Z, (50 <? experience_years c)%Z;
    reflexivity.
Qed.



(** The accepted list only grows, and by candidates of the batch. *)
Lemma survivors_extends l : ∀ valid,
  ∃ extra, survivors valid l = valid ++ extra ∧ ∀ x, x ∈ extra → x ∈ l.
Proof.
  induction l as [|c l IH]; intros valid; simpl.
  - exists []. split; [by rewrite app_nil_r|]. intros x H. by apply elem_of_nil in H.
  - destruct (IH (if accepts valid c then valid ++ [c] else valid))
      as (extra & -> & Hin).
    destruct (accepts valid c).
    + exists (c :: extra). split; [by rewrite <- app_assoc|].
      intros x Hx. apply elem_of_cons in Hx as [->|Hx]; apply elem_of_cons;
        [by left | right; by apply Hin].
    + exists extra. split; [done|].
      intros x Hx. apply elem_of_cons. right. by apply Hin.
Qed.





End DuplicateFacts.




(** * Further properties *)

(** ** Ranges of the scores *)

Section ScoreRanges.

Import MatchingEngine.

(** Rounding to a whole number keeps whole bounds. *)
Lemma round_half_even_bounds (lo hi : Z) (y : Q) :
  inject_Z lo <= y → y <= inject_Z hi →
  (lo <= round_half_even y <= hi)%Z.
Proof.
  intros Hlo Hhi. unfold round_half_even.
  assert (Hf1 : (lo <= Qfloor y)%Z).
  { rewrite <- (Qfloor_Z lo). by apply Qfloor_resp_le. }
  assert (Hf2 : (Qfloor y <= hi)%Z).
  { rewrite <- (Qfloor_Z hi). by apply Qfloor_resp_le. }
  destruct (Qltb (y - inject_Z (Qfloor y)) (1 # 2)) eqn:E1; [lia|].
  apply Qltb_false in E1.
  assert (Hlt : (Qfloor y < hi)%Z).
  { rewrite Zlt_Qlt. lra. }
  destruct (Qltb _ _); [lia|]. destruct (Z.even _); lia.
Qed.

(** [round(x, 3)] keeps bounds that are whole numbers of thousandths. *)
Lemma py_round3_bounds (lo hi : Z) (x : Q) :
  inject_Z lo * (1 # 1000) <= x → x <= inject_Z hi * (1 # 1000) →
  inject_Z lo * (1 # 1000) <= py_round x 3
  ∧ py_round x 3 <= inject_Z hi * (1 # 1000).
Proof.
  intros Hlo Hhi. unfold py_round.
  change (inject_Z (10 ^ Z.of_nat 3)) with (1000 # 1).
  unfold Qdiv. change (/ (1000 # 1)) with (1 # 1000).
  destruct (round_half_even_bounds lo hi (x * (1000 # 1))) as [H1 H2].
  { set (a := inject_Z lo) in *. lra. }
  { set (b := inject_Z hi) in *. lra. }
  apply inject_Z_ge in H1, H2.
  set (a := inject_Z lo) in *. set (b := inject_Z hi) in *.
  set (r := inject_Z (round_half_even (x * (1000 # 1)))) in *.
  split; lra.
Qed.

Lemma py_round3_unit x : in_unit x → in_unit (py_round x 3).
Proof.
  intros [H0 H1]. destruct (py_round3_bounds 0 1000 x) as [A B].
  { change (inject_Z 0 * (1 # 1000)) with (0 * (1 # 1000)). lra. }
  { change (inject_Z 1000 * (1 # 1000)) with ((1000 # 1) * (1 # 1000)). lra. }
  change (inject_Z 0 * (1 # 1000)) with (0 * (1 # 1000)) in A.
  change (inject_Z 1000 * (1 # 1000)) with ((1000 # 1) * (1 # 1000)) in B.
  split; lra.
Qed.

Lemma sumQ_nonneg l : (∀ q, q ∈ l → 0 <= q) → 0 <= sumQ l.
Proof.
  induction l as [|q l IH]; intros H; simpl; [lra|].
  assert (0 <= q) by (apply H, elem_of_cons; by left).
  assert (0 <= sumQ l) by (apply IH; intros q' Hq; apply H, elem_of_cons; by right).
  lra.
Qed.

Lemma required_score_nonneg cs rs : 0 <= required_score cs rs.
Proof.
  unfold required_score. destruct rs as [|r rs]; [done|].
  apply Qle_shift_div_l.
  - change 0 with (inject_Z 0). rewrite <- Zlt_Qlt. simpl. lia.
  - rewrite Qmult_0_l. apply sumQ_nonneg. intros q Hq.
    apply list_elem_of_fmap in Hq as (r' & -> & _). apply skill_award_nonneg.
Qed.

Lemma preferred_bonus_nonneg cs ps : 0 <= preferred_bonus cs ps.
Proof.
  unfold preferred_bonus. apply sumQ_nonneg. intros q Hq.
  apply list_elem_of_fmap in Hq as (p & -> & _). destruct (exactly_matched cs p); lra.
Qed.

Lemma skill_score_unit cs rs ps : in_unit (skill_score cs rs ps).
Proof.
  destruct rs as [|r rs].
  - split; vm_compute; discriminate.
  - unfold in_unit. rewrite (skill_score_closed cs (r :: rs) ps) by done.
    pose proof (required_score_nonneg cs (r :: rs)).
    pose proof (preferred_bonus_nonneg cs ps).
    split; [apply Q.min_glb; lra | apply Q.le_min_r].
Qed.

(** A missing bound is the default one. *)
Lemma experience_match_defaults years lo hi :
  _calculate_experience_match years lo hi
  = _calculate_experience_match years (Some (default 0%Z lo))
      (Some (default 20%Z hi)).
Proof. reflexivity. Qed.

Lemma experience_score_range years lo hi :
  0.2 <= (_calculate_experience_match years lo hi).1.1
  ∧ (_calculate_experience_match years lo hi).1.1 <= 1.
Proof.
  rewrite experience_match_defaults.
  set (l := default 0%Z lo). set (h := default 20%Z hi).
  fold (experience_score years l h).
  destruct (Z_lt_le_dec years l) as [Hu|Hl].
  - destruct (experience_under years l h Hu) as [-> _].
    destruct (under_table_bounds (l - years)); [lia|]. split; lra.
  - destruct (Z_lt_le_dec h years) as [Ho|Hh].
    + destruct (experience_over years l h Hl Ho) as [-> _].
      destruct (over_table_bounds (years - h)). split; lra.
    + destruct (experience_within years l h) as [-> _]; [lia|]. split; lra.
Qed.

Lemma location_score_range cl jl remote :
  0.3 <= (_calculate_location_match cl jl remote).1
  ∧ (_calculate_location_match cl jl remote).1 <= 1.
Proof.
  unfold _calculate_location_match.
  repeat match goal with
         | |- context [if ?b then _ else _] => destruct b
         | |- context [match ?o with Some _ => _ | None => _ end] => destruct o
         end; simpl; split; lra.
Qed.

Lemma education_score_range ce je :
  0.5 <= _calculate_education_match ce je
  ∧ _calculate_education_match ce je <= 1.
Proof.
  unfold _calculate_education_match.
  repeat match goal with
         | |- context [match ?o with Some _ => _ | None => _ end] => destruct o
         | |- context [if ?b then _ else _] => destruct b
         end; split; lra.
Qed.

Lemma salary_score_range ce jmin jmax :
  0.3 <= (_calculate_salary_match ce jmin jmax).1
  ∧ (_calculate_salary_match ce jmin jmax).1 <= 1.
Proof.
  unfold _calculate_salary_match.
  repeat match goal with
         | |- context [if ?b then _ else _] => destruct b
         | |- context [match ?o with Some _ => _ | None => _ end] => destruct o
         end; simpl; split; lra.
Qed.

End ScoreRanges.

(** X1.  Whatever the candidate and the job, the five sub-scores that
    [_calculate_match_score] stores lie between 0 and 1, and the overall
    score lies between 0.175 and 1: the experience, location, education and
    salary scores have floors of 0.2, 0.3, 0.5 and 0.3, so no pair scores
    zero. *)
Theorem match_scores_in_range (c : Candidate.t) (j : Job.t) :
  let m := MatchingEngine._calculate_match_score c j in
  in_unit (skill_match_score m)
  ∧ in_unit (experience_match_score m)
  ∧ in_unit (location_match_score m)
  ∧ in_unit (education_match_score m)
  ∧ in_unit (salary_match_score m)
  ∧ 0.175 <= overall_match_score m ∧ overall_match_score m <= 1.
Proof.
  unfold MatchingEngine._calculate_match_score.
  pose proof (skill_score_unit (Candidate.skills c) (Job.required_skills j)
                (Job.preferred_skills j)) as Hs.
  unfold skill_score in Hs.
  destruct (MatchingEngine._calculate_skill_match _ _ _) as [[s matching] missing].
  pose proof (experience_score_range (Candidate.experience_years c)
                (Job.experience_min j) (Job.experience_max j)) as He.
  destruct (MatchingEngine._calculate_experience_match _ _ _) as [[e fit] gap].
  pose proof (location_score_range (Candidate.location c) (Job.location j)
                (Job.remote_ok j)) as Hl.
  destruct (MatchingEngine._calculate_location_match _ _ _) as [l lc].
  pose proof (education_score_range (Candidate.education_level c)
                (Job.education_requirements j)) as Hd.
  set (d := MatchingEngine._calculate_education_match _ _) in *.
  pose proof (salary_score_range (Candidate.salary_expectation c)
                (Job.salary_min j) (Job.salary_max j)) as Ha.
  destruct (MatchingEngine._calculate_salary_match _ _ _) as [a ac].
  destruct (MatchingEngine._generate_recommendation _ _ _ _ _ _ _) as [[rec rs] cs].
  cbn [fst snd] in *. destruct Hs as [Hs0 Hs1]. cbv zeta.
  cbn [skill_match_score experience_match_score location_match_score
       education_match_score salary_match_score overall_match_score].
  repeat split; try (apply py_round3_unit; split; lra).
  - destruct (py_round3_bounds 175 1000
                (MatchingEngine.weighted s e l d a)) as [A _].
    + change (inject_Z 175 * (1 # 1000)) with ((175 # 1) * (1 # 1000)).
      unfold MatchingEngine.weighted, MatchingEngine.w_skills,
        MatchingEngine.w_experience, MatchingEngine.w_location,
        MatchingEngine.w_education, MatchingEngine.w_salary. lra.
    + change (inject_Z 1000 * (1 # 1000)) with ((1000 # 1) * (1 # 1000)).
      unfold MatchingEngine.weighted, MatchingEngine.w_skills,
        MatchingEngine.w_experience, MatchingEngine.w_location,
        MatchingEngine.w_education, MatchingEngine.w_salary. lra.
    + change (inject_Z 175 * (1 # 1000)) with ((175 # 1) * (1 # 1000)) in A. lra.
  - destruct (py_round3_bounds 175 1000
                (MatchingEngine.weighted s e l d a)) as [_ B].
    + change (inject_Z 175 * (1 # 1000)) with ((175 # 1) * (1 # 1000)).
      unfold MatchingEngine.weighted, MatchingEngine.w_skills,
        MatchingEngine.w_experience, MatchingEngine.w_location,
        MatchingEngine.w_education, MatchingEngine.w_salary. lra.
    + change (inject_Z 1000 * (1 # 1000)) with ((1000 # 1) * (1 # 1000)).
      unfold MatchingEngine.weighted, MatchingEngine.w_skills,
        MatchingEngine.w_experience, MatchingEngine.w_location,
        MatchingEngine.w_education, MatchingEngine.w_salary. lra.
    + change (inject_Z 1000 * (1 # 1000)) with ((1000 # 1) * (1 # 1000)) in B. lra.
Qed.

(** ** Matching and missing skills *)

Section SkillLists.

Import MatchingEngine.

Lemma required_loop_lists cs rs : ∀ matching missing total,
  (foldl (required_step cs) (matching, missing, total) rs).1
  = (matching ++ List.filter (earns_award cs) rs,
     missing ++ List.filter (λ r, negb (earns_award cs r)) rs).
Proof.
  induction rs as [|r rs IH]; intros matching missing total; simpl.
  - by rewrite !app_nil_r.
  - destruct (earns_award cs r) eqn:E; unfold earns_award, exactly_matched in E;
      destruct (PyStr.mem _ _); try destruct (Qltb _ _); try discriminate;
      simpl; rewrite IH, <- app_assoc; done.
Qed.

Lemma preferred_loop_matching cs ps : ∀ bonus matching,
  ∃ extra,
    (foldl (preferred_step cs) (bonus, matching) ps).2 = matching ++ extra
    ∧ ∀ p, p ∈ extra → p ∈ ps ∧ exactly_matched cs p = true.
Proof.
  induction ps as [|p ps IH]; intros bonus matching; simpl.
  - exists []. split; [by rewrite app_nil_r|]. intros p H. by apply elem_of_nil in H.
  - destruct (PyStr.mem (PyStr.lower p) (map PyStr.lower cs)) eqn:E.
    + destruct (PyStr.mem p matching).
      * destruct (IH (bonus + 0.1) matching) as (extra & -> & Hx).
        exists extra. split; [done|]. intros q Hq. destruct (Hx q Hq).
        split; [apply elem_of_cons; by right | done].
      * destruct (IH (bonus + 0.1) (matching ++ [p])) as (extra & -> & Hx).
        exists (p :: extra). split; [by rewrite <- app_assoc|].
        intros q Hq. apply elem_of_cons in Hq as [->|Hq].
        -- split; [apply elem_of_cons; by left | done].
        -- destruct (Hx q Hq). split; [apply elem_of_cons; by right | done].
    + destruct (IH bonus matching) as (extra & -> & Hx).
      exists extra. split; [done|]. intros q Hq. destruct (Hx q Hq).
      split; [apply elem_of_cons; by right | done].
Qed.

End SkillLists.

(** X2.  [_calculate_skill_match] reports as missing exactly the required
    skills that earned no award (no exact, related or partial match), in
    the job's order; the matching list starts with the required skills that
    earned one, in order, followed only by preferred skills that the
    candidate holds exactly. *)
Theorem skill_lists_partition (cs rs ps : list string) :
  (MatchingEngine._calculate_skill_match cs rs ps).2
  = List.filter (λ r, negb (earns_award cs r)) rs
  ∧ (rs ≠ [] →
     ∃ extra,
       (MatchingEngine._calculate_skill_match cs rs ps).1.2
       = List.filter (earns_award cs) rs ++ extra
       ∧ ∀ p, p ∈ extra → p ∈ ps ∧ exactly_matched cs p = true).
Proof.
  unfold MatchingEngine._calculate_skill_match.
  destruct rs as [|r0 rs0]; [split; [done|]; by intros []|].
  set (rs := r0 :: rs0).
  pose proof (required_loop_lists cs rs [] [] 0.0) as Hl.
  destruct (foldl (MatchingEngine.required_step cs) ([], [], 0.0) rs)
    as [[matching missing] total].
  cbn [fst] in Hl. injection Hl as -> ->.
  destruct (preferred_loop_matching cs ps 0.0
              (List.filter (earns_award cs) rs)) as (extra & Hm & Hx).
  destruct (foldl (MatchingEngine.preferred_step cs) _ ps) as [bonus matching'].
  cbn [fst snd] in *. subst matching'. split; [done|].
  intros _. exists extra. done.
Qed.

Lemma skill_lists_partition_witness :
  ∃ extra,
    (MatchingEngine._calculate_skill_match ["Python"; "Docker"]%string
       ["Python"; "SQL"; "Kubernetes"]%string ["docker"]%string).1.2
    = ["Python"; "Kubernetes"]%string ++ extra.
Proof.
  destruct (proj2 (skill_lists_partition ["Python"; "Docker"]%string
                     ["Python"; "SQL"; "Kubernetes"]%string ["docker"]%string))
    as (extra & H & _); [done|].
  exists extra. exact H.
Defined.

(** ** More skills never hurt *)

Section SkillGrowth.

Import MatchingEngine.

Lemma existsb_subseteq {A} (f : A → bool) (l l' : list A) :
  l ⊆ l' → existsb f l = true → existsb f l' = true.
Proof.
  intros Hs H. apply existsb_exists in H as (x & Hin & Hf).
  apply existsb_exists. exists x. split; [|done].
  apply list_elem_of_In, Hs, list_elem_of_In, Hin.
Qed.

Lemma map_subseteq {A B} (f : A → B) (l l' : list A) :
  l ⊆ l' → map f l ⊆ map f l'.
Proof.
  intros Hs y Hy. apply list_elem_of_In, in_map_iff in Hy as (x & <- & Hx).
  apply list_elem_of_In, in_map. apply list_elem_of_In, Hs, list_elem_of_In, Hx.
Qed.

Lemma mem_subseteq a (l l' : list string) :
  l ⊆ l' → PyStr.mem a l = true → PyStr.mem a l' = true.
Proof. apply existsb_subseteq. Qed.

Lemma exactly_matched_mono cs cs' r :
  cs ⊆ cs' → exactly_matched cs r = true → exactly_matched cs' r = true.
Proof. intros Hs. apply mem_subseteq. by apply map_subseteq. Qed.

Lemma related_values r cs :
  _find_related_skill_match r cs = related_match
  ∨ _find_related_skill_match r cs = category_match
  ∨ _find_related_skill_match r cs = 0.0.
Proof.
  unfold _find_related_skill_match.
  destruct (match dict_get skill_relationships r with Some _ => _ | None => _ end);
    [by left|].
  destruct (existsb _ cs); [by left|].
  destruct (existsb _ _); [right; by left | right; by right].
Qed.

(** The related score never falls when the candidate holds more. *)
Lemma related_mono r cs cs' :
  cs ⊆ cs' →
  _find_related_skill_match r cs <= _find_related_skill_match r cs'.
Proof.
  intros Hs.
  assert (Hl : map PyStr.lower cs ⊆ map PyStr.lower cs') by by apply map_subseteq.
  pose (c1 := λ l : list string,
          match dict_get skill_relationships r with
          | Some related =>
              existsb (λ x, PyStr.mem x (map PyStr.lower l)) (map PyStr.lower related)
          | None => false
          end).
  pose (c2 := λ l : list string,
          existsb (λ c, match dict_get skill_relationships c with
                        | Some rel => PyStr.mem (PyStr.lower r) (map PyStr.lower rel)
                        | None => false
                        end) l).
  pose (c3 := λ l : list string,
          existsb (λ part, PyStr.contains part (PyStr.lower r))
            (filter (λ part, Is_true (3 <? PyStr.len part)%Z) (map PyStr.lower l))).
  assert (H1 : c1 cs = true → c1 cs' = true).
  { unfold c1. destruct (dict_get skill_relationships r); [|done].
    intros H. apply existsb_exists in H as (x & Hx & Hm).
    apply existsb_exists. exists x. split; [done|]. by eapply mem_subseteq. }
  assert (H2 : c2 cs = true → c2 cs' = true) by by apply existsb_subseteq.
  assert (H3 : c3 cs = true → c3 cs' = true).
  { apply existsb_subseteq. intros x Hx.
    apply list_elem_of_filter in Hx as [Hp Hx].
    apply list_elem_of_filter. split; [done | by apply Hl]. }
  change (_find_related_skill_match r cs)
    with (if c1 cs then related_match else if c2 cs then related_match
          else if c3 cs then category_match else 0.0).
  change (_find_related_skill_match r cs')
    with (if c1 cs' then related_match else if c2 cs' then related_match
          else if c3 cs' then category_match else 0.0).
  destruct (c1 cs), (c1 cs'), (c2 cs), (c2 cs'), (c3 cs), (c3 cs');
    try (specialize (H1 eq_refl)); try (specialize (H2 eq_refl));
    try (specialize (H3 eq_refl)); try discriminate;
    unfold related_match, category_match; lra.
Qed.

Lemma skill_award_le_1 cs r : skill_award cs r <= 1.
Proof.
  unfold skill_award. destruct (exactly_matched cs r); [done|]. cbv zeta.
  destruct (Qltb _ _); [|done].
  destruct (related_values r cs) as [-> | [-> | ->]]; done.
Qed.

Lemma skill_award_mono cs cs' r :
  cs ⊆ cs' → skill_award cs r <= skill_award cs' r.
Proof.
  intros Hs. unfold skill_award.
  destruct (exactly_matched cs' r) eqn:E'.
  - fold (skill_award cs r). pose proof (skill_award_le_1 cs r). lra.
  - destruct (exactly_matched cs r) eqn:E.
    { apply (exactly_matched_mono cs cs' r Hs) in E. congruence. }
    cbv zeta. pose proof (related_mono r cs cs' Hs) as Hm.
    destruct (Qltb 0 (_find_related_skill_match r cs)) eqn:A;
      destruct (Qltb 0 (_find_related_skill_match r cs')) eqn:B;
      try apply Qltb_true in A; try apply Qltb_true in B;
      try apply Qltb_false in A; try apply Qltb_false in B; lra.
Qed.

Lemma sumQ_mono {A} (f g : A → Q) l :
  (∀ x, f x <= g x) → sumQ (map f l) <= sumQ (map g l).
Proof.
  intros H. induction l as [|x l IH]; simpl; [lra|].
  pose proof (H x). lra.
Qed.

End SkillGrowth.

(** X3.  For a fixed job, a candidate who holds every skill of another
    candidate, and possibly more, has a skill score at least as high:
    adding skills to a profile never lowers its skill score. *)
Theorem skill_score_grows_with_skills (cs cs' rs ps : list string) :
  cs ⊆ cs' → skill_score cs rs ps <= skill_score cs' rs ps.
Proof.
  intros Hs. destruct rs as [|r rs]; [vm_compute; discriminate|].
  rewrite !skill_score_closed by done.
  apply Q.min_le_compat_r.
  assert (H1 : required_score cs (r :: rs) <= required_score cs' (r :: rs)).
  { unfold required_score. apply Qmult_le_compat_r.
    - apply sumQ_mono. intros x. by apply skill_award_mono.
    - apply Qlt_le_weak, Qinv_lt_0_compat.
      change 0 with (inject_Z 0). rewrite <- Zlt_Qlt. simpl. lia. }
  assert (H2 : preferred_bonus cs ps <= preferred_bonus cs' ps).
  { unfold preferred_bonus. apply sumQ_mono. intros p.
    destruct (exactly_matched cs p) eqn:E.
    - by rewrite (exactly_matched_mono cs cs' p Hs E).
    - destruct (exactly_matched cs' p); done. }
  lra.
Qed.

Lemma skill_score_grows_with_skills_witness :
  skill_score ["Python"]%string ["Python"; "SQL"; "React"]%string ["Docker"]%string
  <= skill_score ["Python"; "JavaScript"; "Docker"]%string
       ["Python"; "SQL"; "React"]%string ["Docker"]%string.
Proof.
  apply skill_score_grows_with_skills.
  intros x Hx. apply list_elem_of_singleton in Hx as ->.
  apply elem_of_cons. by left.
Defined.

(** ** The ranking, continued *)

Section RankingOrder.

Import MatchingEngine.

Lemma score_ge_trans a b c : score_ge a b → score_ge b c → score_ge a c.
Proof. unfold score_ge. intros. lra. Qed.

Lemma Forall_insert_desc (P : MatchDict.t → Prop) x l :
  P x → Forall P l → Forall P (insert_desc x l).
Proof.
  intros Hx Hl. induction Hl as [|y l Hy Hl IH]; simpl.
  - by constructor.
  - destruct (Qltb _ _); repeat constructor; done.
Qed.

Lemma insert_desc_sorted x l :
  StronglySorted score_ge l → StronglySorted score_ge (insert_desc x l).
Proof.
  induction 1 as [|y l Hs IH Hy]; simpl.
  - repeat constructor.
  - destruct (Qltb (MatchDict.match_score y) (MatchDict.match_score x)) eqn:E.
    + apply Qltb_true in E. constructor; [by constructor|].
      constructor; [unfold score_ge; lra|].
      eapply Forall_impl; [exact Hy|]. intros z Hz. unfold score_ge in *. lra.
    + apply Qltb_false in E. constructor; [done|].
      apply Forall_insert_desc; done.
Qed.

Lemma sort_desc_sorted l : StronglySorted score_ge (sort_desc l).
Proof.
  unfold sort_desc.
  assert (H : ∀ acc, StronglySorted score_ge acc →
                     StronglySorted score_ge
                       (foldl (λ acc x, insert_desc x acc) acc l)).
  { induction l as [|x l IH]; intros acc Hacc; simpl; [done|].
    apply IH. by apply insert_desc_sorted. }
  apply H. constructor.
Qed.

Lemma StronglySorted_take {A} (R : A → A → Prop) n l :
  StronglySorted R l → StronglySorted R (take n l).
Proof.
  intros H. revert n. induction H as [|x l Hs IH Hx]; intros [|n]; simpl;
    try constructor; [apply IH|].
  apply Forall_forall. intros y Hy. rewrite Forall_forall in Hx. apply Hx.
  apply list_elem_of_lookup in Hy as [i Hi].
  apply lookup_take_Some in Hi as [Hi _]. by eapply list_elem_of_lookup_2.
Qed.

Lemma slice_to_sorted {A} (R : A → A → Prop) n l :
  StronglySorted R l → StronglySorted R (slice_to n l).
Proof. unfold slice_to. destruct (0 <=? n)%Z; apply StronglySorted_take. Qed.

Lemma insert_desc_perm x l : insert_desc x l ≡ₚ x :: l.
Proof.
  induction l as [|y l IH]; simpl; [done|].
  destruct (Qltb _ _); [done|]. rewrite IH. apply Permutation_swap.
Qed.

Lemma sort_desc_perm l : sort_desc l ≡ₚ l.
Proof.
  unfold sort_desc.
  assert (H : ∀ acc, foldl (λ acc x, insert_desc x acc) acc l ≡ₚ acc ++ l).
  { induction l as [|x l IH]; intros acc; simpl; [by rewrite app_nil_r|].
    rewrite IH, insert_desc_perm. simpl. apply Permutation_middle. }
  apply (H []).
Qed.

Lemma score_candidates_threshold job min_score candidates d :
  d ∈ score_candidates job min_score candidates →
  min_score <= MatchDict.match_score d.
Proof.
  unfold score_candidates. induction candidates as [|c cs IH]; simpl.
  - intros H. by apply elem_of_nil in H.
  - intros H. apply elem_of_app in H as [H|H]; [|by apply IH].
    destruct (Qgeb _ _) eqn:E; [|by apply elem_of_nil in H].
    apply list_elem_of_singleton in H as ->. unfold Qgeb in E.
    by apply Qle_bool_iff in E.
Qed.

Lemma length_slice_to {A} (n : Z) (l : list A) :
  (0 <= n)%Z → (length (slice_to n l) <= Z.to_nat n)%nat.
Proof.
  intros H. unfold slice_to. apply Z.leb_le in H. rewrite H.
  rewrite length_take. lia.
Qed.

Lemma slice_to_all {A} (n : Z) (l : list A) :
  (Z.of_nat (length l) <= n)%Z → slice_to n l = l.
Proof.
  intros H. unfold slice_to.
  assert (Hn : (0 <=? n)%Z = true) by (apply Z.leb_le; lia).
  rewrite Hn. apply take_ge. lia.
Qed.

Lemma length_score_candidates job min_score candidates :
  (length (score_candidates job min_score candidates) <= length candidates)%nat.
Proof.
  unfold score_candidates. induction candidates as [|c cs IH]; simpl; [lia|].
  rewrite length_app. destruct (Qgeb _ _); simpl; lia.
Qed.

(** Inserting into a sorted ranking leaves the entries of each score in
    their order, the new entry last among its equals. *)
Lemma with_score_insert_desc q x l :
  StronglySorted score_ge l →
  with_score q (insert_desc x l) = with_score q (l ++ [x]).
Proof.
  unfold with_score. induction 1 as [|y l Hs IH Hy]; simpl; [done|].
  destruct (Qltb (MatchDict.match_score y) (MatchDict.match_score x)) eqn:E.
  - apply Qltb_true in E. simpl.
    destruct (Qeq_bool (MatchDict.match_score x) q) eqn:Ex.
    + apply Qeq_bool_iff in Ex.
      assert (Hy' : Qeq_bool (MatchDict.match_score y) q = false).
      { apply not_true_iff_false. intros H. apply Qeq_bool_iff in H. lra. }
      rewrite Hy'.
      assert (Hn : ∀ l', Forall (score_ge y) l' →
                    List.filter (λ d, Qeq_bool (MatchDict.match_score d) q) l' = []).
      { induction 1 as [|z l' Hz Hl' IH']; simpl; [done|].
        assert (Qeq_bool (MatchDict.match_score z) q = false) as ->.
        { apply not_true_iff_false. intros H. apply Qeq_bool_iff in H.
          unfold score_ge in Hz. lra. }
        exact IH'. }
      rewrite List.filter_app, (Hn l Hy). simpl. apply Qeq_bool_iff in Ex.
      by rewrite Ex.
    + rewrite List.filter_app. simpl. rewrite Ex. by rewrite app_nil_r.
  - simpl. rewrite IH. done.
Qed.

Lemma with_score_sort_desc q l : with_score q (sort_desc l) = with_score q l.
Proof.
  unfold sort_desc.
  assert (H : ∀ acc, StronglySorted score_ge acc →
                with_score q (foldl (λ acc x, insert_desc x acc) acc l)
                = with_score q (acc ++ l)).
  { induction l as [|x l IH]; intros acc Hacc; simpl; [by rewrite app_nil_r|].
    rewrite IH by by apply insert_desc_sorted.
    unfold with_score. rewrite !List.filter_app.
    fold (with_score q (insert_desc x acc)).
    rewrite with_score_insert_desc by done.
    unfold with_score. rewrite List.filter_app, <- app_assoc.
    f_equal. simpl. by destruct (Qeq_bool _ _). }
  apply (H []). constructor.
Qed.

End RankingOrder.

(** X4.  The list that [find_best_matches] returns is ordered by
    descending match score; each entry reaches [min_score] and comes from a
    candidate of the pool; for a non-negative [limit] it has at most
    [limit] entries; and the records handed to storage are those of the
    returned entries, in the same order. *)
Theorem ranking_sorted_and_thresholded
    (get_job : Z → option Job.t) (get_candidates : Z → list Candidate.t)
    (job_id limit : Z) (min_score : Q) :
  let outcome :=
    MatchingEngine.find_best_matches get_job get_candidates job_id limit
      min_score in
  StronglySorted score_ge outcome.2
  ∧ (∀ d, d ∈ outcome.2 →
       min_score <= MatchDict.match_score d
       ∧ ∃ c, c ∈ get_candidates job_id
              ∧ MatchDict.candidate_id d = Candidate.id c)
  ∧ ((0 <= limit)%Z → (length outcome.2 <= Z.to_nat limit)%nat)
  ∧ (∀ saved, outcome.1 = Some saved →
       candidate_id <$> saved = MatchDict.candidate_id <$> outcome.2
       ∧ overall_match_score <$> saved = MatchDict.match_score <$> outcome.2).
Proof.
  unfold MatchingEngine.find_best_matches.
  destruct (get_job job_id) as [job|].
  2:{ cbn [fst snd]. split; [constructor|].
      split; [intros x H; by apply elem_of_nil in H|].
      split; [simpl; lia | intros saved H; discriminate]. }
  destruct (get_candidates job_id) as [|c0 cs] eqn:Hc.
  { cbn [fst snd]. split; [constructor|].
    split; [intros x H; by apply elem_of_nil in H|].
    split; [simpl; lia | intros saved H; discriminate]. }
  cbn [fst snd]. split; [|split; [|split]].
  - apply slice_to_sorted, sort_desc_sorted.
  - intros d Hd. apply elem_of_slice_to, elem_of_sort_desc in Hd. split.
    + by eapply score_candidates_threshold.
    + destruct (elem_of_score_candidates _ _ _ _ Hd) as (c & Hin & ->).
      exists c. done.
  - apply length_slice_to.
  - intros saved H. injection H as <-.
    rewrite <- !list_fmap_compose. done.
Qed.

(** X5.  When [limit] is at least the size of the pool, nobody who reaches
    [min_score] is dropped: the returned list is a rearrangement of the
    qualifying candidates' entries, and entries with equal scores keep the
    order that their candidates have in the pool. *)
Theorem ranking_keeps_all_qualifying
    (get_job : Z → option Job.t) (get_candidates : Z → list Candidate.t)
    (job_id limit : Z) (min_score : Q) (job : Job.t) :
  get_job job_id = Some job →
  (Z.of_nat (length (get_candidates job_id)) <= limit)%Z →
  let returned :=
    (MatchingEngine.find_best_matches get_job get_candidates job_id limit
       min_score).2 in
  let qualifying :=
    MatchingEngine.score_candidates job min_score (get_candidates job_id) in
  returned ≡ₚ qualifying
  ∧ ∀ q, with_score q returned = with_score q qualifying.
Proof.
  intros Hjob Hlim. unfold MatchingEngine.find_best_matches. rewrite Hjob.
  destruct (get_candidates job_id) as [|c0 cs] eqn:Hc; [done|].
  cbn [snd]. cbv zeta.
  rewrite slice_to_all.
  - split; [apply sort_desc_perm | intros q; apply with_score_sort_desc].
  - rewrite (Permutation_length (sort_desc_perm _)).
    pose proof (length_score_candidates job min_score (c0 :: cs)). lia.
Qed.

Lemma ranking_keeps_all_qualifying_witness :
  let pool :=
    [scenario_candidate 1 "Ada" "ada@example.com" None None None;
     scenario_candidate 2 "Bo" "bo@example.com" None None None] in
  MatchDict.candidate_id
    <$> (MatchingEngine.find_best_matches
           (λ _, Some (scenario_job 7 "Engineer" None)) (λ _, pool)
           7 20 0.6).2
  ≡ₚ [1%Z; 2%Z].
Proof.
  intros pool.
  destruct (ranking_keeps_all_qualifying
              (λ _, Some (scenario_job 7 "Engineer" None)) (λ _, pool)
              7%Z 20%Z 0.6 (scenario_job 7 "Engineer" None) eq_refl)
    as [Hp _].
  - simpl. lia.
  - rewrite Hp. vm_compute. reflexivity.
Defined.

(** ** Salary and education *)

Section SalaryFacts.

Import MatchingEngine.

(** The score over a full range, as a function of the expectation. *)
Lemma salary_full_range ce jmin jmax :
  jmin ≠ 0%Z → (0 < jmax)%Z →
  salary_score (Some ce) (Some jmin) (Some jmax)
  = if (ce =? 0)%Z || (ce <=? jmax)%Z then 1.0
    else if (ce <? jmin)%Z then 1.0
    else if Qle_bool (inject_Z (ce - jmax) / inject_Z jmax) 0.1 then 0.8
    else if Qle_bool (inject_Z (ce - jmax) / inject_Z jmax) 0.2 then 0.6
    else 0.3.
Proof.
  intros Hmin Hmax. unfold salary_score, _calculate_salary_match, int_truthy.
  assert (E1 : (jmin =? 0)%Z = false) by by apply Z.eqb_neq.
  assert (E2 : (jmax =? 0)%Z = false) by (apply Z.eqb_neq; lia).
  rewrite E1, E2. simpl.
  destruct (ce =? 0)%Z eqn:E0; simpl; [done|].
  destruct (jmin <=? ce)%Z eqn:A, (ce <=? jmax)%Z eqn:B, (ce <? jmin)%Z eqn:C;
    simpl; try done;
    try apply Z.leb_le in A; try apply Z.leb_gt in A;
    try apply Z.leb_le in B; try apply Z.leb_gt in B;
    try apply Z.ltb_lt in C; try apply Z.ltb_ge in C; try lia.
  destruct (Qle_bool _ _); [done|]. by destruct (Qle_bool _ _).
Qed.

Lemma overshoot_mono ce1 ce2 jmax :
  (0 < jmax)%Z → (ce1 <= ce2)%Z →
  inject_Z (ce1 - jmax) / inject_Z jmax <= inject_Z (ce2 - jmax) / inject_Z jmax.
Proof.
  intros Hmax Hle. apply Qmult_le_compat_r.
  - rewrite <- Zle_Qle. lia.
  - apply Qlt_le_weak, Qinv_lt_0_compat. change 0 with (inject_Z 0).
    rewrite <- Zlt_Qlt. lia.
Qed.

End SalaryFacts.

(** X6.  Over a job range with a non-zero minimum and a positive maximum,
    the salary score never rises with the candidate's expectation: asking
    for more is never scored better. *)
Theorem salary_score_antitone (ce1 ce2 jmin jmax : Z) :
  jmin ≠ 0%Z → (0 < jmax)%Z → (ce1 <= ce2)%Z →
  salary_score (Some ce2) (Some jmin) (Some jmax)
  <= salary_score (Some ce1) (Some jmin) (Some jmax).
Proof.
  intros Hmin Hmax Hle. rewrite !salary_full_range by done.
  pose proof (overshoot_mono ce1 ce2 jmax Hmax Hle) as Hg.
  destruct (Z.eqb_spec ce1 0), (Z.leb_spec ce1 jmax), (Z.ltb_spec ce1 jmin);
    cbn [orb];
    destruct (Z.eqb_spec ce2 0), (Z.leb_spec ce2 jmax), (Z.ltb_spec ce2 jmin);
    cbn [orb]; try lia;
    repeat match goal with
           | |- context [Qle_bool ?a ?b] =>
               let E := fresh "E" in
               destruct (Qle_bool a b) eqn:E;
               [apply Qle_bool_iff in E
               |apply not_true_iff_false in E; rewrite Qle_bool_iff in E]
           end;
    try lra.
Qed.

Lemma salary_score_antitone_witness :
  salary_score (Some 115000%Z) (Some 80000%Z) (Some 100000%Z)
  <= salary_score (Some 105000%Z) (Some 80000%Z) (Some 100000%Z).
Proof. apply salary_score_antitone; lia. Defined.

(** X7.  A job range with only one usable bound (the other missing, or
    zero) is scored 0.7 and compatible for every candidate who states an
    expectation, however far that expectation lies from the bound. *)
Theorem salary_one_sided_range (ce jmin jmax : option Z) :
  int_truthy ce = true →
  xorb (int_truthy jmin) (int_truthy jmax) = true →
  MatchingEngine._calculate_salary_match ce jmin jmax = (0.7, true).
Proof.
  intros Hc Hx. unfold MatchingEngine._calculate_salary_match. rewrite Hc.
  destruct (int_truthy jmin) eqn:A, (int_truthy jmax) eqn:B; try discriminate;
    simpl; destruct ce, jmin, jmax; try done; simpl in *;
    rewrite ?A, ?B; done.
Qed.

Lemma salary_one_sided_range_witness :
  MatchingEngine._calculate_salary_match (Some 900000%Z) (Some 0%Z)
    (Some 100000%Z) = (0.7, true).
Proof. apply salary_one_sided_range; reflexivity. Defined.

Section EducationFacts.

Import MatchingEngine.

(** The score as a function of the candidate's rank and the level that the
    requirement parses to. *)
Lemma education_score_by_rank ce je :
  PyStr.truthy ce = true → PyStr.truthy je = true →
  ∃ level : Z,
    (1 <= level <= 5)%Z
    ∧ ∀ ce', PyStr.truthy ce' = true →
        _calculate_education_match (Some ce') (Some je)
        = if (level <=? education_rank ce')%Z then 1.0
          else if (education_rank ce' =? level - 1)%Z then 0.8 else 0.5.
Proof.
  intros Hc Hj. unfold _calculate_education_match. rewrite Hj. simpl.
  set (jl := PyStr.lower je).
  exists (if PyStr.contains "phd" jl || PyStr.contains "doctorate" jl then 5
          else if PyStr.contains "master" jl then 4
          else if PyStr.contains "bachelor" jl then 3
          else if PyStr.contains "associate" jl then 2 else 1)%Z.
  split.
  - repeat match goal with |- context [if ?b then _ else _] => destruct b end; lia.
  - intros ce' Hc'. rewrite Hc'. simpl. reflexivity.
Qed.

End EducationFacts.

(** X8.  Against one education requirement, a candidate whose level ranks
    at least as high as another's (High School 1 to PhD 5, 0 for a level
    outside the hierarchy) scores at least as much: a higher degree is
    never scored lower. *)
Theorem education_score_monotone (ce1 ce2 je : string) :
  PyStr.truthy ce1 = true → PyStr.truthy ce2 = true → PyStr.truthy je = true →
  (education_rank ce1 <= education_rank ce2)%Z →
  MatchingEngine._calculate_education_match (Some ce1) (Some je)
  <= MatchingEngine._calculate_education_match (Some ce2) (Some je).
Proof.
  intros H1 H2 Hj Hr.
  destruct (education_score_by_rank ce1 je H1 Hj) as (level & Hl & Hs).
  rewrite (Hs ce1 H1), (Hs ce2 H2).
  destruct (Z.leb_spec level (education_rank ce1)),
           (Z.leb_spec level (education_rank ce2)),
           (Z.eqb_spec (education_rank ce1) (level - 1)),
           (Z.eqb_spec (education_rank ce2) (level - 1));
    try lia; lra.
Qed.

Lemma education_score_monotone_witness :
  MatchingEngine._calculate_education_match (Some "Bachelors"%string)
    (Some "Master's degree in Computer Science"%string)
  <= MatchingEngine._calculate_education_match (Some "PhD"%string)
       (Some "Master's degree in Computer Science"%string).
Proof.
  apply education_score_monotone; try reflexivity. vm_compute. discriminate.
Defined.

(** ** Reasons and concerns *)

(** X9.  A candidate with one or two years more than the job's maximum
    (and not below its minimum) gets the experience praised and flagged at
    once: the reasons hold "Perfect experience level (Over-qualified)" and
    the concerns hold "May be over-qualified for the role". *)
Theorem slightly_overqualified_praised_and_flagged
    (c : Candidate.t) (j : Job.t) :
  let years := Candidate.experience_years c in
  let lo := default 0%Z (Job.experience_min j) in
  let hi := default 20%Z (Job.experience_max j) in
  (lo <= years)%Z → (hi < years <= hi + 2)%Z →
  let r := MatchingEngine._calculate_match_score c j in
  "Perfect experience level (Over-qualified)"%string ∈ match_reasons r
  ∧ "May be over-qualified for the role"%string ∈ concern_areas r
  ∧ experience_fit r = "Over-qualified"%string.
Proof.
  intros years lo hi Hlo [Hhi Hgap] r. subst r.
  unfold MatchingEngine._calculate_match_score.
  destruct (MatchingEngine._calculate_skill_match _ _ _) as [[ss matching] missing].
  unfold MatchingEngine._calculate_experience_match.
  fold years lo hi.
  apply Z.ltb_ge in Hlo. apply Z.ltb_lt in Hhi. rewrite Hlo, Hhi.
  assert (Hg : (years - hi <=? 2)%Z = true) by (apply Z.leb_le; lia).
  rewrite Hg. cbv zeta.
  destruct (MatchingEngine._calculate_location_match _ _ _) as [ls lc].
  destruct (MatchingEngine._calculate_salary_match _ _ _) as [sal sc].
  unfold MatchingEngine._generate_recommendation. cbn [match_reasons concern_areas experience_fit].
  split; [|split; [|done]].
  - change (Qgeb 0.9 0.9) with true. cbv iota.
    rewrite !elem_of_app. right. left. apply list_elem_of_here.
  - change (String.eqb "Over-qualified" "Under-qualified") with false.
    change (String.eqb "Over-qualified" "Over-qualified") with true. cbv iota.
    rewrite !elem_of_app. right. right. left. apply list_elem_of_here.
Qed.

Lemma slightly_overqualified_praised_and_flagged_witness :
  let r := MatchingEngine._calculate_match_score
             (Candidate.mk 1 "Ann" "ann@example.org" 6 [] None None None)
             (Job.mk 7 "Engineer" [] [] (Some 3%Z) (Some 5%Z) None true None
                None None) in
  "Perfect experience level (Over-qualified)"%string ∈ match_reasons r
  ∧ "May be over-qualified for the role"%string ∈ concern_areas r
  ∧ experience_fit r = "Over-qualified"%string.
Proof.
  exact (slightly_overqualified_praised_and_flagged
           (Candidate.mk 1 "Ann" "ann@example.org" 6 [] None None None)
           (Job.mk 7 "Engineer" [] [] (Some 3%Z) (Some 5%Z) None true None
              None None) ltac:(simpl; lia) ltac:(simpl; lia)).
Defined.

(** ** The bulk pipeline *)

Section PipelineFacts.

Import BulkProcessor.


Lemma length_parsed (parse_single : string → string → result CandidateProfile)
    (resume_files file_names : list string) :
  length (zip_with parsed_of
            (map (λ p, parse_single p.1 p.2) (zip resume_files file_names))
            file_names)
  = (length resume_files `min` length file_names)%nat.
Proof. rewrite length_zip_with, length_map, length_zip. lia. Qed.

End PipelineFacts.


(** ** The storage phase *)

Section StorageShape.

Import BulkProcessor.

Variable DB : Type.
Variable create_candidates_bulk : list CandidateProfile → DB → result (list Z) * DB.
Variable create_candidate : CandidateProfile → DB → result Z * DB.

(** The loop over the returned ids pairs them with the batch from the
    front, and raises exactly when the ids outnumber the batch. *)
Lemma record_bulk_spec : ∀ ids batch stored,
  record_bulk batch ids stored
  = (stored ++ zip_with stored_ok ids batch, (length batch <? length ids)%nat).
Proof.
  induction ids as [|candidate_id ids IH]; intros [|c batch] stored; simpl.
  - by rewrite app_nil_r.
  - by rewrite app_nil_r.
  - by rewrite app_nil_r.
  - rewrite IH, <- app_assoc. reflexivity.
Qed.

Lemma Forall2_bulk_recorded : ∀ ids batch,
  length ids = length batch →
  Forall2 bulk_recorded batch (zip_with stored_ok ids batch).
Proof.
  induction ids as [|i ids IH]; intros [|c batch] Hl; simpl in *; try done.
  constructor; [by exists i | apply IH; lia].
Qed.

Lemma Forall_stored_from_zip : ∀ ids batch,
  Forall (stored_from batch) (zip_with stored_ok ids batch).
Proof.
  intros ids batch. apply Forall_forall. intros o Ho.
  apply elem_of_lookup_zip_with in Ho as (k & i & c & -> & _ & Hc).
  exists c. split; [by eapply list_elem_of_lookup_2|]. left. by exists i.
Qed.

Lemma Forall_stored_from_outcomes batch outcomes :
  Forall2 is_outcome_of batch outcomes → Forall (stored_from batch) outcomes.
Proof.
  intros H. apply Forall_forall. intros o Ho.
  apply list_elem_of_lookup in Ho as [k Hk].
  destruct (Forall2_lookup_r _ _ _ _ _ H Hk) as (c & Hc & Hco).
  exists c. split; [by eapply list_elem_of_lookup_2 | done].
Qed.

Lemma stored_from_mono l1 l2 o : l1 ⊆ l2 → stored_from l1 o → stored_from l2 o.
Proof. intros Hs (c & Hc & Ho). exists c. split; [by apply Hs | done]. Qed.

Lemma call_within_mono l1 l2 call :
  l1 ⊆ l2 → call_within l1 call → call_within l2 call.
Proof.
  intros Hs. destruct call; simpl; [|by apply Hs].
  intros H x Hx. by apply Hs, H.
Qed.

Lemma bulk_batches_singles (l : list CandidateProfile) :
  bulk_batches (map SingleInsert l) = [].
Proof. induction l; [done | simpl; done]. Qed.

(** One batch, whatever the persistence layer does: the bulk insert is
    tried once, individual inserts are at most those of the batch, and the
    new records are records of candidates of the batch. *)
Lemma store_batch_shape st batch :
  ∃ singles new,
    calls DB (store_batch DB create_candidates_bulk create_candidate st batch)
    = calls DB st ++ BulkInsert batch :: map SingleInsert singles
    ∧ (singles = [] ∨ singles = batch)
    ∧ stored_candidates DB (store_batch DB create_candidates_bulk create_candidate st batch)
      = stored_candidates DB st ++ new
    ∧ Forall (stored_from batch) new.
Proof.
  unfold store_batch.
  destruct (create_candidates_bulk batch (db DB st)) as [[ids|e] d'].
  - rewrite record_bulk_spec. cbn [calls stored_candidates db].
    destruct (length batch <? length ids)%nat.
    + match goal with
      | |- context [store_individually DB create_candidate batch ?s] =>
          destruct (store_individually_outcomes DB create_candidate batch s)
            as (Hc & outcomes & Ho & Hr)
      end.
      cbn [calls stored_candidates] in Hc, Ho.
      exists batch, (zip_with stored_ok ids batch ++ outcomes).
      rewrite Hc, Ho, <- !app_assoc. repeat split; [by right|].
      apply Forall_app. split; [apply Forall_stored_from_zip|].
      by apply Forall_stored_from_outcomes.
    + exists [], (zip_with stored_ok ids batch). cbn [calls stored_candidates map].
      repeat split; [by left | apply Forall_stored_from_zip].
  - match goal with
    | |- context [store_individually DB create_candidate batch ?s] =>
        destruct (store_individually_outcomes DB create_candidate batch s)
          as (Hc & outcomes & Ho & Hr)
    end.
    cbn [calls stored_candidates] in Hc, Ho.
    exists batch, outcomes. rewrite Hc, Ho, <- !app_assoc.
    repeat split; [by right | by apply Forall_stored_from_outcomes].
Qed.

(** The loop over the batches. *)
Lemma store_batches_shape batches : ∀ st,
  ∃ new_calls new,
    calls DB (foldl (store_batch DB create_candidates_bulk create_candidate) st batches) = calls DB st ++ new_calls
    ∧ bulk_batches new_calls = batches
    ∧ Forall (call_within (concat batches)) new_calls
    ∧ stored_candidates DB (foldl (store_batch DB create_candidates_bulk create_candidate) st batches)
      = stored_candidates DB st ++ new
    ∧ Forall (stored_from (concat batches)) new.
Proof.
  induction batches as [|batch rest IH]; intros st; simpl.
  - exists [], []. rewrite !app_nil_r. repeat split; constructor.
  - destruct (store_batch_shape st batch) as (singles & new & Hc & Hs & Ho & Hn).
    destruct (IH (store_batch DB create_candidates_bulk create_candidate st batch))
      as (calls' & new' & Hc' & Hb' & Hw' & Ho' & Hn').
    exists (BulkInsert batch :: map SingleInsert singles ++ calls'), (new ++ new').
    rewrite Hc', Hc, Ho', Ho, <- !app_assoc. cbn [app].
    assert (Hl : batch ⊆ batch ++ concat rest).
    { intros x Hx. apply elem_of_app. by left. }
    assert (Hr : concat rest ⊆ batch ++ concat rest).
    { intros x Hx. apply elem_of_app. by right. }
    repeat split.
    + unfold bulk_batches in *. cbn [omap list_omap]. rewrite omap_app.
      fold (bulk_batches (map SingleInsert singles)).
      rewrite bulk_batches_singles. simpl. by rewrite Hb'.
    + constructor; [exact Hl|]. apply Forall_app. split.
      * apply Forall_forall. intros call Hcall.
        apply list_elem_of_In, in_map_iff in Hcall as (x & <- & Hx).
        apply list_elem_of_In in Hx. simpl. apply Hl.
        destruct Hs as [-> | ->]; [by apply elem_of_nil in Hx | done].
      * eapply Forall_impl; [exact Hw'|]. intros call. by apply call_within_mono.
    + apply Forall_app. split.
      * eapply Forall_impl; [exact Hn|]. intros o. by apply stored_from_mono.
      * eapply Forall_impl; [exact Hn'|]. intros o. by apply stored_from_mono.
Qed.

Lemma chunked_concat {A} (size : nat) (l : list A) :
  (0 < size)%nat → concat (map snd (chunked size l)) = l.
Proof.
  intros Hs. unfold chunked. rewrite range_chunks_concat; [done | done | lia].
Qed.

Lemma range_chunks_sizes {A} (size : nat) (l : list A) : (0 < size)%nat →
  ∀ fuel i,
  Forall (λ batch : list A, (1 <= length batch <= size)%nat)
         (map snd (range_chunks fuel size i l)).
Proof.
  intros Hs. induction fuel as [|fuel IH]; intros i; simpl; [constructor|].
  destruct (i <? length l)%nat eqn:E; [|constructor].
  apply Nat.ltb_lt in E. simpl. constructor; [|apply IH].
  rewrite length_take, length_drop. lia.
Qed.

(** The whole of [_store_candidates_batch]. *)
Lemma store_candidates_shape (candidates : list CandidateProfile) (d : DB) :
  let st := _store_candidates_batch DB create_candidates_bulk create_candidate
              candidates d in
  bulk_batches (calls DB st) = map snd (chunked batch_size candidates)
  ∧ Forall (call_within candidates) (calls DB st)
  ∧ Forall (stored_from candidates) (stored_candidates DB st).
Proof.
  unfold _store_candidates_batch.
  destruct (store_batches_shape (map snd (chunked batch_size candidates))
              {| db := d; calls := []; stored_candidates := [] |})
    as (new_calls & new & Hc & Hb & Hw & Ho & Hn).
  rewrite chunked_concat in Hw, Hn by (unfold batch_size; lia).
  cbn [calls stored_candidates app] in Hc, Ho. cbv zeta.
  rewrite Hc, Ho. done.
Qed.

End StorageShape.

(** X11.  Whatever the persistence layer does, [_store_candidates_batch]
    offers every candidate to a bulk insert exactly once and in input
    order, in batches of 1 to 50; every call it makes concerns candidates
    of its input only, and so does every record it writes. *)
Theorem bulk_inserts_partition_candidates (DB : Type)
    (create_candidates_bulk : list CandidateProfile → DB → result (list Z) * DB)
    (create_candidate : CandidateProfile → DB → result Z * DB)
    (candidates : list CandidateProfile) (d : DB) :
  let st := BulkProcessor._store_candidates_batch DB create_candidates_bulk
              create_candidate candidates d in
  concat (bulk_batches (BulkProcessor.calls DB st)) = candidates
  ∧ Forall (λ batch, (1 <= length batch <= 50)%nat)
           (bulk_batches (BulkProcessor.calls DB st))
  ∧ Forall (call_within candidates) (BulkProcessor.calls DB st)
  ∧ Forall (stored_from candidates) (BulkProcessor.stored_candidates DB st).
Proof.
  intros st.
  destruct (store_candidates_shape DB create_candidates_bulk create_candidate
              candidates d) as (Hb & Hw & Hn).
  fold st in Hb, Hw, Hn. rewrite Hb. repeat split; try done.
  - apply chunked_concat. unfold BulkProcessor.batch_size. lia.
  - apply (range_chunks_sizes BulkProcessor.batch_size candidates).
    unfold BulkProcessor.batch_size. lia.
Qed.

(** The storage phase when every bulk insert returns one id per
    candidate. *)
Lemma store_candidates_all_ok (DB : Type)
    (create_candidates_bulk : list CandidateProfile → DB → result (list Z) * DB)
    (create_candidate : CandidateProfile → DB → result Z * DB)
    (candidates : list CandidateProfile) (d : DB) :
  (∀ batch d0, ∃ ids d1, create_candidates_bulk batch d0 = (Ok ids, d1)
                         ∧ length ids = length batch) →
  let st := BulkProcessor._store_candidates_batch DB create_candidates_bulk
              create_candidate candidates d in
  BulkProcessor.calls DB st
  = map BulkProcessor.BulkInsert (bulk_batches (BulkProcessor.calls DB st))
  ∧ Forall2 bulk_recorded candidates (BulkProcessor.stored_candidates DB st).
Proof.
  intros Hok. unfold BulkProcessor._store_candidates_batch.
  assert (Hc : concat (map snd (chunked BulkProcessor.batch_size candidates))
               = candidates).
  { apply chunked_concat. unfold BulkProcessor.batch_size. lia. }
  revert Hc. generalize (map snd (chunked BulkProcessor.batch_size candidates)).
  intros batches <-.
  assert (H : ∀ st done_,
             BulkProcessor.calls DB st
             = map BulkProcessor.BulkInsert (bulk_batches (BulkProcessor.calls DB st)) →
             Forall2 bulk_recorded done_ (BulkProcessor.stored_candidates DB st) →
             let st' := foldl (BulkProcessor.store_batch DB create_candidates_bulk
                                 create_candidate) st batches in
             BulkProcessor.calls DB st'
             = map BulkProcessor.BulkInsert (bulk_batches (BulkProcessor.calls DB st'))
             ∧ Forall2 bulk_recorded (done_ ++ concat batches)
                 (BulkProcessor.stored_candidates DB st')).
  { induction batches as [|batch rest IH]; intros st done_ Hcalls Hd; simpl.
    - by rewrite app_nil_r.
    - rewrite app_assoc. apply IH.
      + unfold BulkProcessor.store_batch.
        destruct (Hok batch (BulkProcessor.db DB st)) as (ids & d1 & -> & Hl).
        rewrite record_bulk_spec, Hl, Nat.ltb_irrefl.
        cbn [BulkProcessor.calls]. unfold bulk_batches in *.
        rewrite omap_app, map_app, <- Hcalls. reflexivity.
      + unfold BulkProcessor.store_batch.
        destruct (Hok batch (BulkProcessor.db DB st)) as (ids & d1 & -> & Hl).
        rewrite record_bulk_spec, Hl, Nat.ltb_irrefl.
        cbn [BulkProcessor.stored_candidates].
        apply Forall2_app; [done | by apply Forall2_bulk_recorded]. }
  apply (H _ []); [done | constructor].
Qed.

(** X12.  When every bulk insert returns one id per candidate, no
    individual insert is made, and the records are one success per
    candidate, in input order, each with the candidate's name and email. *)
Theorem bulk_inserts_succeeding (DB : Type)
    (create_candidates_bulk : list CandidateProfile → DB → result (list Z) * DB)
    (create_candidate : CandidateProfile → DB → result Z * DB)
    (candidates : list CandidateProfile) (d : DB) :
  (∀ batch d0, ∃ ids d1, create_candidates_bulk batch d0 = (Ok ids, d1)
                         ∧ length ids = length batch) →
  let st := BulkProcessor._store_candidates_batch DB create_candidates_bulk
              create_candidate candidates d in
  Forall (λ call, ∃ batch, call = BulkProcessor.BulkInsert batch)
         (BulkProcessor.calls DB st)
  ∧ Forall2 bulk_recorded candidates (BulkProcessor.stored_candidates DB st)
  ∧ StoredCandidate.name <$> BulkProcessor.stored_candidates DB st
    = name <$> candidates
  ∧ Forall (λ o, StoredCandidate.success o = true)
           (BulkProcessor.stored_candidates DB st).
Proof.
  intros Hok st.
  destruct (store_candidates_all_ok DB create_candidates_bulk create_candidate
              candidates d Hok) as [Hcalls Hrec].
  fold st in Hcalls, Hrec. split; [|split; [exact Hrec|split]].
  - rewrite Hcalls. apply Forall_forall. intros call Hin.
    apply list_elem_of_In, in_map_iff in Hin as (batch & <- & _). by exists batch.
  - clear Hcalls. revert Hrec.
    generalize (BulkProcessor.stored_candidates DB st). clear.
    intros stored Hrec.
    induction Hrec as [|c o cs os [cid ->] _ IH]; [done|].
    cbn [fmap list_fmap]. by rewrite <- IH.
  - clear Hcalls. revert Hrec.
    generalize (BulkProcessor.stored_candidates DB st). clear.
    intros stored Hrec.
    induction Hrec as [|c o cs os [cid ->] _ IH]; by constructor.
Qed.

Lemma bulk_inserts_succeeding_witness :
  let bulk := λ (batch : list CandidateProfile) (d : Z),
    (Ok (Z.of_nat <$> seq (Z.to_nat d) (length batch)),
     (d + Z.of_nat (length batch))%Z) in
  let single := λ (_ : CandidateProfile) (d : Z), (@Raise Z "unused", d) in
  let st := BulkProcessor._store_candidates_batch Z bulk single
              [named_profile; nameless_profile] 10%Z in
  Forall2 bulk_recorded [named_profile; nameless_profile]
    (BulkProcessor.stored_candidates Z st).
Proof.
  intros bulk single st.
  refine (proj1 (proj2 (bulk_inserts_succeeding Z bulk single
                          [named_profile; nameless_profile] 10%Z _))).
  intros batch d0. eexists _, _. split; [reflexivity|].
  by rewrite length_fmap, length_seq.
Defined.

(** X13.  A bulk insert that returns fewer ids than the batch holds leaves
    records for the first candidates only, one per id: the rest of the
    batch gets no record and no individual insert. *)
Theorem short_id_list_leaves_candidates_unrecorded (DB : Type)
    (create_candidates_bulk : list CandidateProfile → DB → result (list Z) * DB)
    (create_candidate : CandidateProfile → DB → result Z * DB)
    (st : BulkProcessor.store_state DB) (batch : list CandidateProfile)
    (ids : list Z) (d' : DB) :
  create_candidates_bulk batch (BulkProcessor.db DB st) = (Ok ids, d') →
  (length ids <= length batch)%nat →
  let st' := BulkProcessor.store_batch DB create_candidates_bulk
               create_candidate st batch in
  BulkProcessor.calls DB st'
  = BulkProcessor.calls DB st ++ [BulkProcessor.BulkInsert batch]
  ∧ ∃ new, BulkProcessor.stored_candidates DB st'
           = BulkProcessor.stored_candidates DB st ++ new
           ∧ length new = length ids
           ∧ Forall2 bulk_recorded (take (length ids) batch) new.
Proof.
  intros Hb Hl. unfold BulkProcessor.store_batch. rewrite Hb, record_bulk_spec.
  assert (E : (length batch <? length ids)%nat = false) by (apply Nat.ltb_ge; lia).
  rewrite E. cbn [BulkProcessor.calls BulkProcessor.stored_candidates].
  split; [done|]. eexists. split; [reflexivity|]. split.
  - rewrite length_zip_with. lia.
  - rewrite <- (zip_with_take_r _ ids batch).
    apply Forall2_bulk_recorded. rewrite length_take. lia.
Qed.

Lemma short_id_list_leaves_candidates_unrecorded_witness :
  let bulk := λ (_ : list CandidateProfile) (d : Z), (Ok [d], (d + 1)%Z) in
  let single := λ (_ : CandidateProfile) (d : Z), (@Raise Z "unused", d) in
  let st' := BulkProcessor.store_batch Z bulk single
               (BulkProcessor.mkStore Z 10%Z [] [])
               [named_profile; nameless_profile] in
  ∃ new, BulkProcessor.stored_candidates Z st' = new ∧ length new = 1%nat.
Proof.
  intros bulk single st'.
  destruct (short_id_list_leaves_candidates_unrecorded Z bulk single
              (BulkProcessor.mkStore Z 10%Z [] [])
              [named_profile; nameless_profile] [10%Z] 11%Z eq_refl
              ltac:(simpl; lia)) as (_ & new & Hn & Hl & _).
  exists new. split; [exact Hn | exact Hl].
Defined.

(** X14.  A bulk insert that returns more ids than the batch holds makes
    the recording loop raise after it has recorded the whole batch; the
    handler then inserts every candidate of the batch individually and
    records each a second time. *)
Theorem surplus_ids_store_batch_twice (DB : Type)
    (create_candidates_bulk : list CandidateProfile → DB → result (list Z) * DB)
    (create_candidate : CandidateProfile → DB → result Z * DB)
    (st : BulkProcessor.store_state DB) (batch : list CandidateProfile)
    (ids : list Z) (d' : DB) :
  create_candidates_bulk batch (BulkProcessor.db DB st) = (Ok ids, d') →
  (length batch < length ids)%nat →
  let st' := BulkProcessor.store_batch DB create_candidates_bulk
               create_candidate st batch in
  BulkProcessor.calls DB st'
  = BulkProcessor.calls DB st
    ++ BulkProcessor.BulkInsert batch :: map BulkProcessor.SingleInsert batch
  ∧ ∃ first second,
      BulkProcessor.stored_candidates DB st'
      = BulkProcessor.stored_candidates DB st ++ first ++ second
      ∧ Forall2 bulk_recorded batch first
      ∧ Forall2 is_outcome_of batch second.
Proof.
  intros Hb Hl. unfold BulkProcessor.store_batch. rewrite Hb, record_bulk_spec.
  assert (E : (length batch <? length ids)%nat = true) by (apply Nat.ltb_lt; lia).
  rewrite E. cbn [BulkProcessor.calls BulkProcessor.stored_candidates
                  BulkProcessor.db].
  match goal with
  | |- context [BulkProcessor.store_individually DB create_candidate batch ?s] =>
      destruct (store_individually_outcomes DB create_candidate batch s)
        as (Hc & outcomes & Ho & Hr)
  end.
  cbn [BulkProcessor.calls BulkProcessor.stored_candidates] in Hc, Ho.
  cbv zeta. rewrite Hc, Ho, <- !app_assoc. split; [done|].
  exists (zip_with BulkProcessor.stored_ok ids batch), outcomes.
  split; [done|]. split; [|done].
  rewrite <- (zip_with_take_l _ ids batch).
  apply Forall2_bulk_recorded. rewrite length_take. lia.
Qed.

Lemma surplus_ids_store_batch_twice_witness :
  let bulk := λ (_ : list CandidateProfile) (d : Z),
    (Ok [d; (d + 1)%Z; (d + 2)%Z], (d + 3)%Z) in
  let single := λ (_ : CandidateProfile) (d : Z), (Ok d, (d + 1)%Z) in
  let st' := BulkProcessor.store_batch Z bulk single
               (BulkProcessor.mkStore Z 10%Z [] [])
               [named_profile; nameless_profile] in
  BulkProcessor.calls Z st'
  = [BulkProcessor.BulkInsert [named_profile; nameless_profile];
     BulkProcessor.SingleInsert named_profile;
     BulkProcessor.SingleInsert nameless_profile].
Proof.
  intros bulk single st'.
  exact (proj1 (surplus_ids_store_batch_twice Z bulk single
                  (BulkProcessor.mkStore Z 10%Z [] [])
                  [named_profile; nameless_profile] [10; 11; 12]%Z 13%Z eq_refl
                  ltac:(simpl; lia))).
Defined.

(** ** Results joined to storage records by name *)

Section JoinFacts.

Import BulkProcessor.

Lemma storage_fold_lookup stored : ∀ (m : gmap string StoredCandidate.t) n o,
  foldl (λ m c, <[StoredCandidate.name c := c]> m) m stored !! n = Some o →
  (o ∈ stored ∧ StoredCandidate.name o = n) ∨ m !! n = Some o.
Proof.
  induction stored as [|c rest IH]; intros m n o; simpl; [by right|].
  intros H. apply IH in H as [[Hin Hn]|H].
  - left. split; [by apply elem_of_cons; right | done].
  - destruct (decide (StoredCandidate.name c = n)) as [E|E].
    + rewrite E, lookup_insert_eq in H. injection H as <-.
      left. split; [apply list_elem_of_here | done].
    + rewrite lookup_insert_ne in H by done. by right.
Qed.

(** A record found under a name is a stored record of that name. *)
Lemma storage_map_lookup stored n o :
  storage_map_of stored !! n = Some o →
  o ∈ stored ∧ StoredCandidate.name o = n.
Proof.
  intros H. apply storage_fold_lookup in H as [H|H]; [done|].
  by rewrite lookup_empty in H.
Qed.

Lemma storage_fold_other stored : ∀ (m : gmap string StoredCandidate.t) n,
  Forall (λ x, StoredCandidate.name x ≠ n) stored →
  foldl (λ m c, <[StoredCandidate.name c := c]> m) m stored !! n = m !! n.
Proof.
  induction stored as [|c rest IH]; intros m n H; simpl; [done|].
  apply Forall_cons in H as [Hc Hr]. rewrite IH by done.
  by rewrite lookup_insert_ne.
Qed.

(** The record found under a name is the last one stored with it. *)
Lemma storage_map_last before o after :
  Forall (λ x, StoredCandidate.name x ≠ StoredCandidate.name o) after →
  storage_map_of (before ++ o :: after) !! StoredCandidate.name o = Some o.
Proof.
  intros H. unfold storage_map_of. rewrite foldl_app. simpl.
  rewrite storage_fold_other by done. apply lookup_insert_eq.
Qed.

Lemma outcome_name c o : is_outcome_of c o → StoredCandidate.name o = name c.
Proof. by intros [[i ->]|[e ->]]. Qed.

(** A record that reports success carries an id and no error. *)
Lemma outcome_success c o :
  is_outcome_of c o → StoredCandidate.success o = true →
  is_Some (StoredCandidate.id o) ∧ StoredCandidate.error o = None.
Proof. intros [[i ->]|[e ->]]; simpl; [by eauto | done]. Qed.

Lemma survivors_name_valid l : ∀ valid,
  Forall (λ c, name_valid c = true) valid →
  Forall (λ c, name_valid c = true) (survivors valid l).
Proof.
  induction l as [|c l IH]; intros valid H; simpl; [done|].
  apply IH. destruct (accepts valid c) eqn:E; [|done].
  apply Forall_app. split; [done|]. constructor; [|constructor].
  rewrite accepts_spec in E. by apply andb_prop in E as [E _].
Qed.

Lemma survivors_keeps l : ∀ valid c,
  c ∈ valid → c ∈ survivors valid l.
Proof.
  intros valid c H. destruct (survivors_extends l valid) as (extra & -> & _).
  apply elem_of_app. by left.
Qed.

(** A profile that the checks accept whatever came before is accepted. *)
Lemma always_accepted_survives l : ∀ valid c,
  c ∈ l → (∀ v, accepts v c = true) → c ∈ survivors valid l.
Proof.
  induction l as [|x l IH]; intros valid c Hin Hacc.
  - by apply elem_of_nil in Hin.
  - simpl. apply elem_of_cons in Hin as [->|Hin].
    + apply survivors_keeps. rewrite Hacc. apply elem_of_app. right.
      apply list_elem_of_here.
    + by apply IH.
Qed.

(** The dictionary at a position, in full. *)
Lemma validated_record candidates : ∀ file_names valid j cj f,
  candidates !! j = Some cj → file_names !! j = Some f →
  validated file_names valid candidates !! j
  = Some (validation_record f (survivors valid (take j candidates)) cj).
Proof.
  induction candidates as [|c rest IH]; intros [|fn names] valid j cj f;
    simpl; try done.
  destruct j as [|j]; simpl.
  - intros Hc Hf. injection Hc as <-. injection Hf as <-. done.
  - apply IH.
Qed.

Lemma lookup_map {A B} (g : A → B) (l : list A) : ∀ i,
  map g l !! i = g <$> l !! i.
Proof. induction l as [|x l IH]; intros [|i]; simpl; done. Qed.

Lemma parsed_profiles_lookup parse_single resume_files file_names i content f :
  resume_files !! i = Some content → file_names !! i = Some f →
  parsed_profiles parse_single resume_files file_names !! i
  = Some (parsed_of (parse_single content f) f).
Proof.
  intros Hr Hf. unfold parsed_profiles.
  apply lookup_zip_with_Some. exists (parse_single content f), f.
  split; [done|]. split; [|done].
  rewrite lookup_map.
  assert (Hz : zip resume_files file_names !! i = Some (content, f))
    by by apply lookup_zip_Some.
  by rewrite Hz.
Qed.

End JoinFacts.

Section PipelineResults.

Import BulkProcessor.

Variable parse_single : string → string → result CandidateProfile.
Variable DB : Type.
Variable create_candidates_bulk : list CandidateProfile → DB → result (list Z) * DB.
Variable create_candidate : CandidateProfile → DB → result Z * DB.

(** The pipeline in closed form: the calls are those of the storage phase
    on the accepted profiles, and the results are the validation records
    joined to its storage records. *)
Lemma process_resumes_bulk_spec resume_files file_names job_id d :
  let parsed := parsed_profiles parse_single resume_files file_names in
  let st := _store_candidates_batch DB create_candidates_bulk create_candidate
              (survivors [] parsed) d in
  process_resumes_bulk parse_single DB create_candidates_bulk create_candidate
    resume_files file_names job_id d
  = (Ok (zip_with (compile_one (storage_map_of (stored_candidates DB st)))
           file_names (validated file_names [] parsed)),
     db DB st, calls DB st).
Proof.
  intros parsed st. unfold process_resumes_bulk.
  rewrite parse_resumes_parallel_spec.
  pose proof (length_parsed parse_single resume_files file_names) as Hp.
  fold (parsed_profiles parse_single resume_files file_names) in *.
  fold parsed in Hp |- *.
  rewrite validate_candidates_spec by lia.
  fold st. unfold _compile_processing_results.
  assert (Hv : length (validated file_names [] parsed) = length parsed).
  { rewrite length_validated; lia. }
  rewrite compile_loop_spec by (simpl; lia).
  change (drop 0 file_names) with file_names. reflexivity.
Qed.

(** The result at a position where both lists have an entry. *)
Lemma process_resumes_bulk_lookup resume_files file_names job_id d i content f :
  resume_files !! i = Some content → file_names !! i = Some f →
  let parsed := parsed_profiles parse_single resume_files file_names in
  let st := _store_candidates_batch DB create_candidates_bulk create_candidate
              (survivors [] parsed) d in
  ∃ results,
    (process_resumes_bulk parse_single DB create_candidates_bulk
       create_candidate resume_files file_names job_id d).1.1 = Ok results
    ∧ results !! i
      = Some (compile_one (storage_map_of (stored_candidates DB st)) f
                (validation_record f (accepted_before parsed i)
                   (parsed_of (parse_single content f) f))).
Proof.
  intros Hr Hf parsed st. rewrite process_resumes_bulk_spec. fold parsed st.
  cbn [fst]. eexists. split; [reflexivity|].
  rewrite lookup_zip_with, Hf. cbn [mbind option_bind].
  erewrite validated_record;
    [reflexivity | by apply parsed_profiles_lookup | done].
Qed.

End PipelineResults.

Section FailureProfiles.

Import BulkProcessor.

(** The profile that the parser returns for a resume it could not read
    fails two checks, neither of them critical. *)
Lemma empty_candidate_issues valid f :
  validation_issues_of valid (ResumeParser._create_empty_candidate f)
  = ["Missing email address"; "No skills extracted"]%string.
Proof. reflexivity. Qed.

Lemma empty_candidate_accepted valid f :
  accepts valid (ResumeParser._create_empty_candidate f) = true.
Proof. reflexivity. Qed.

(** The profile that stands for a task that raised fails the name check. *)
Lemma failed_candidate_issues valid f :
  validation_issues_of valid (failed_candidate f)
  = ["Invalid or missing name"; "No skills extracted"]%string.
Proof. reflexivity. Qed.

Lemma failed_candidate_name_invalid f : name_valid (failed_candidate f) = false.
Proof. reflexivity. Qed.

Lemma storage_map_is_Some stored : ∀ o,
  o ∈ stored → is_Some (storage_map_of stored !! StoredCandidate.name o).
Proof.
  induction stored as [|x l IH] using rev_ind; intros o Hin.
  - by apply elem_of_nil in Hin.
  - unfold storage_map_of. rewrite foldl_app. simpl.
    fold (storage_map_of l).
    destruct (decide (StoredCandidate.name x = StoredCandidate.name o)) as [E|E].
    + rewrite E, lookup_insert_eq. eauto.
    + rewrite lookup_insert_ne by done. apply IH.
      apply elem_of_app in Hin as [Hin|Hin]; [done|].
      apply list_elem_of_singleton in Hin. by subst.
Qed.

End FailureProfiles.

Section PipelineOutcomes.

Import BulkProcessor.

Variable parse_single : string → string → result CandidateProfile.
Variable DB : Type.
Variable create_candidates_bulk : list CandidateProfile → DB → result (list Z) * DB.
Variable create_candidate : CandidateProfile → DB → result Z * DB.

Lemma bulk_batches_elem batch calls :
  batch ∈ bulk_batches calls → BulkInsert batch ∈ calls.
Proof.
  unfold bulk_batches. intros H. apply list_elem_of_omap in H as (call & Hc & E).
  destruct call; [|done]. by injection E as ->.
Qed.

(** A profile of the input that the validation accepts whatever came
    before it is sent to a bulk insert. *)
Lemma always_accepted_is_inserted candidates d c :
  c ∈ candidates → (∀ v, accepts v c = true) →
  ∃ batch,
    BulkInsert batch
    ∈ calls DB (_store_candidates_batch DB create_candidates_bulk
                  create_candidate (survivors [] candidates) d)
    ∧ c ∈ batch.
Proof.
  intros Hin Hacc.
  destruct (store_candidates_shape DB create_candidates_bulk create_candidate
              (survivors [] candidates) d) as (Hb & _ & _).
  assert (Hc : c ∈ concat (bulk_batches
                 (calls DB (_store_candidates_batch DB create_candidates_bulk
                              create_candidate (survivors [] candidates) d)))).
  { rewrite Hb, chunked_concat by (unfold batch_size; lia).
    by apply always_accepted_survives. }
  apply list_elem_of_In, in_concat in Hc as (batch & Hbatch & Hcb).
  exists batch. split; [|by apply list_elem_of_In].
  by apply bulk_batches_elem, list_elem_of_In.
Qed.

(** No record is stored under a name that the validation rejects. *)
Lemma rejected_name_not_stored candidates d c :
  name_valid c = false →
  storage_map_of
    (stored_candidates DB
       (_store_candidates_batch DB create_candidates_bulk create_candidate
          (survivors [] candidates) d)) !! name c = None.
Proof.
  intros Hc.
  destruct (store_candidates_shape DB create_candidates_bulk create_candidate
              (survivors [] candidates) d) as (_ & _ & Hn).
  destruct (storage_map_of _ !! name c) as [o|] eqn:E; [|done].
  apply storage_map_lookup in E as [Hin Hname].
  rewrite Forall_forall in Hn. destruct (Hn o Hin) as (x & Hx & Ho).
  apply outcome_name in Ho.
  pose proof (survivors_name_valid candidates [] (List.Forall_nil _)) as Hv.
  rewrite Forall_forall in Hv. specialize (Hv x Hx).
  unfold name_valid in *. rewrite <- Ho, Hname, Hc in Hv. done.
Qed.

(** No call to the persistence layer carries a profile whose name the
    validation rejects. *)
Lemma rejected_name_not_inserted candidates d c call :
  name_valid c = false →
  call ∈ calls DB (_store_candidates_batch DB create_candidates_bulk
                     create_candidate (survivors [] candidates) d) →
  ¬ call_carries c call.
Proof.
  intros Hc Hcall Hcarry.
  destruct (store_candidates_shape DB create_candidates_bulk create_candidate
              (survivors [] candidates) d) as (_ & Hw & _).
  rewrite Forall_forall in Hw. specialize (Hw call Hcall).
  pose proof (survivors_name_valid candidates [] (List.Forall_nil _)) as Hv.
  rewrite Forall_forall in Hv.
  assert (Hin : c ∈ survivors [] candidates).
  { destruct call; simpl in *; [by apply Hw | by subst]. }
  apply Hv in Hin. congruence.
Qed.

Lemma validated_elem candidates : ∀ file_names valid v,
  v ∈ validated file_names valid candidates →
  ∃ f valid' c, v = validation_record f valid' c.
Proof.
  induction candidates as [|c rest IH]; intros [|fn names] valid v; simpl;
    try (intros H; by apply elem_of_nil in H).
  intros H. apply elem_of_cons in H as [->|H]; [by eauto|]. by eapply IH.
Qed.

End PipelineOutcomes.

(** X15.  A resume that the parser could not read (its profile is the one
    [_create_empty_candidate] builds) passes the validation: its result
    lists two issues, neither critical, and the profile is sent to the
    persistence layer in a bulk insert. *)
Theorem unreadable_resume_is_stored
    (parse_single : string → string → result CandidateProfile) (DB : Type)
    (create_candidates_bulk : list CandidateProfile → DB → result (list Z) * DB)
    (create_candidate : CandidateProfile → DB → result Z * DB)
    (resume_files file_names : list string) (job_id : option Z) (d : DB)
    (i : nat) (content f : string) :
  resume_files !! i = Some content → file_names !! i = Some f →
  parse_single content f = Ok (ResumeParser._create_empty_candidate f) →
  let out := BulkProcessor.process_resumes_bulk parse_single DB
               create_candidates_bulk create_candidate resume_files file_names
               job_id d in
  (∃ batch, BulkProcessor.BulkInsert batch ∈ out.2
            ∧ ResumeParser._create_empty_candidate f ∈ batch)
  ∧ ∃ results r,
      out.1.1 = Ok results ∧ results !! i = Some r
      ∧ ProcessingResult.candidate_name r
        = name (ResumeParser._create_empty_candidate f)
      ∧ ProcessingResult.validation_issues r
        = ["Missing email address"; "No skills extracted"]%string.
Proof.
  intros Hr Hf Hp out. split.
  - subst out. rewrite process_resumes_bulk_spec. cbn [snd].
    apply always_accepted_is_inserted; [|intros v; apply empty_candidate_accepted].
    eapply list_elem_of_lookup_2.
    erewrite parsed_profiles_lookup by done. by rewrite Hp.
  - destruct (process_resumes_bulk_lookup parse_single DB create_candidates_bulk
                create_candidate resume_files file_names job_id d i content f
                Hr Hf) as (results & Hres & Hi).
    rewrite Hp in Hi. exists results. eexists.
    split; [exact Hres|]. split; [exact Hi|]. done.
Qed.

Lemma unreadable_resume_is_stored_witness :
  let parse := λ _ filename : string,
    Ok (ResumeParser._create_empty_candidate filename) in
  let bulk := λ (_ : list CandidateProfile) (d : Z), (@Raise (list Z) "bulk", d) in
  let single := λ (_ : CandidateProfile) (d : Z), (Ok d, (d + 1)%Z) in
  ∃ batch,
    BulkProcessor.BulkInsert batch
    ∈ (BulkProcessor.process_resumes_bulk parse Z bulk single
         ["%PDF"]%string ["scan.pdf"]%string None 0%Z).2
    ∧ ResumeParser._create_empty_candidate "scan.pdf" ∈ batch.
Proof.
  intros parse bulk single.
  exact (proj1 (unreadable_resume_is_stored parse Z bulk single
                  ["%PDF"]%string ["scan.pdf"]%string None 0%Z 0 "%PDF"
                  "scan.pdf" eq_refl eq_refl eq_refl)).
Defined.

(** X16.  When the bulk inserts succeed, a resume that the parser could
    not read is reported as a success: its result carries a candidate id
    and the message of a processed resume with 0 skills and 0 years. *)
Theorem unreadable_resume_reported_successful
    (parse_single : string → string → result CandidateProfile) (DB : Type)
    (create_candidates_bulk : list CandidateProfile → DB → result (list Z) * DB)
    (create_candidate : CandidateProfile → DB → result Z * DB)
    (resume_files file_names : list string) (job_id : option Z) (d : DB)
    (i : nat) (content f : string) :
  (∀ batch d0, ∃ ids d1, create_candidates_bulk batch d0 = (Ok ids, d1)
                         ∧ length ids = length batch) →
  resume_files !! i = Some content → file_names !! i = Some f →
  parse_single content f = Ok (ResumeParser._create_empty_candidate f) →
  ∃ results r,
    (BulkProcessor.process_resumes_bulk parse_single DB create_candidates_bulk
       create_candidate resume_files file_names job_id d).1.1 = Ok results
    ∧ results !! i = Some r
    ∧ ProcessingResult.success r = true
    ∧ is_Some (ProcessingResult.candidate_id r)
    ∧ ProcessingResult.message r
      = "Successfully processed - 0 skills, 0 years experience"%string.
Proof.
  intros Hok Hr Hf Hp.
  destruct (process_resumes_bulk_lookup parse_single DB create_candidates_bulk
              create_candidate resume_files file_names job_id d i content f
              Hr Hf) as (results & Hres & Hi).
  rewrite Hp in Hi. cbn [parsed_of] in Hi.
  set (parsed := parsed_profiles parse_single resume_files file_names) in *.
  set (c := ResumeParser._create_empty_candidate f) in *.
  destruct (store_candidates_all_ok DB create_candidates_bulk create_candidate
              (survivors [] parsed) d Hok) as [_ Hall].
  set (stored := BulkProcessor.stored_candidates DB _) in *.
  assert (Hc : c ∈ survivors [] parsed).
  { apply always_accepted_survives; [|intros v; apply empty_candidate_accepted].
    eapply list_elem_of_lookup_2. unfold parsed.
    erewrite parsed_profiles_lookup by done. by rewrite Hp. }
  apply list_elem_of_lookup in Hc as [k Hk].
  destruct (Forall2_lookup_l _ _ _ _ _ Hall Hk) as (o & Ho & [cid ->]).
  apply list_elem_of_lookup_2 in Ho.
  destruct (storage_map_is_Some stored _ Ho) as [o' Ho'].
  change (StoredCandidate.name (BulkProcessor.stored_ok cid c)) with (name c)
    in Ho'.
  pose proof Ho' as Hin. apply storage_map_lookup in Hin as [Hin _].
  apply list_elem_of_lookup in Hin as [k' Hk'].
  destruct (Forall2_lookup_r _ _ _ _ _ Hall Hk') as (c' & _ & [cid' ->]).
  exists results. eexists. split; [exact Hres|]. split; [exact Hi|].
  unfold BulkProcessor.compile_one. cbn [ProcessingResult.success
    ProcessingResult.candidate_id ProcessingResult.message
    validation_record ValidationResult.candidate_name ValidationResult.success].
  rewrite Ho'. subst c. rewrite empty_candidate_accepted. cbn. eauto.
Qed.

Lemma unreadable_resume_reported_successful_witness :
  let parse := λ _ filename : string,
    Ok (ResumeParser._create_empty_candidate filename) in
  let bulk := λ (batch : list CandidateProfile) (d : Z),
    (Ok (Z.of_nat <$> seq (Z.to_nat d) (length batch)),
     (d + Z.of_nat (length batch))%Z) in
  let single := λ (_ : CandidateProfile) (d : Z), (@Raise Z "unused", d) in
  ∃ results r,
    (BulkProcessor.process_resumes_bulk parse Z bulk single
       ["%PDF"]%string ["scan.pdf"]%string None 7%Z).1.1 = Ok results
    ∧ results !! 0%nat = Some r
    ∧ ProcessingResult.success r = true
    ∧ is_Some (ProcessingResult.candidate_id r)
    ∧ ProcessingResult.message r
      = "Successfully processed - 0 skills, 0 years experience"%string.
Proof.
  intros parse bulk single.
  refine (unreadable_resume_reported_successful parse Z bulk single
            ["%PDF"]%string ["scan.pdf"]%string None 7%Z 0 "%PDF" "scan.pdf"
            _ eq_refl eq_refl eq_refl).
  intros batch d0. eexists _, _. split; [reflexivity|].
  by rewrite length_fmap, length_seq.
Defined.

(** X17.  A resume whose parse task raised is rejected whatever the rest
    of the batch and the persistence layer do: its result is a failure
    without candidate id or storage error, with the two issues of the
    placeholder profile, and no call to the persistence layer carries the
    placeholder. *)
Theorem raised_parse_task_is_rejected
    (parse_single : string → string → result CandidateProfile) (DB : Type)
    (create_candidates_bulk : list CandidateProfile → DB → result (list Z) * DB)
    (create_candidate : CandidateProfile → DB → result Z * DB)
    (resume_files file_names : list string) (job_id : option Z) (d : DB)
    (i : nat) (content f e : string) :
  resume_files !! i = Some content → file_names !! i = Some f →
  parse_single content f = Raise e →
  let out := BulkProcessor.process_resumes_bulk parse_single DB
               create_candidates_bulk create_candidate resume_files file_names
               job_id d in
  (∀ call, call ∈ out.2 →
           ¬ call_carries (BulkProcessor.failed_candidate f) call)
  ∧ ∃ results r,
      out.1.1 = Ok results ∧ results !! i = Some r
      ∧ ProcessingResult.success r = false
      ∧ ProcessingResult.candidate_id r = None
      ∧ ProcessingResult.storage_error r = None
      ∧ ProcessingResult.validation_issues r
        = ["Invalid or missing name"; "No skills extracted"]%string
      ∧ ProcessingResult.message r
        = ("Validation issues: "
           +:+ "Invalid or missing name, No skills extracted")%string.
Proof.
  intros Hr Hf Hp out. split.
  - subst out. rewrite process_resumes_bulk_spec. cbn [snd]. intros call Hcall.
    eapply rejected_name_not_inserted; [|exact Hcall].
    apply failed_candidate_name_invalid.
  - destruct (process_resumes_bulk_lookup parse_single DB create_candidates_bulk
                create_candidate resume_files file_names job_id d i content f
                Hr Hf) as (results & Hres & Hi).
    rewrite Hp in Hi. cbn [parsed_of] in Hi.
    exists results. eexists. split; [exact Hres|]. split; [exact Hi|].
    unfold BulkProcessor.compile_one.
    cbn [validation_record ValidationResult.candidate_name].
    rewrite (rejected_name_not_stored DB create_candidates_bulk
               create_candidate _ d (BulkProcessor.failed_candidate f)
               (failed_candidate_name_invalid f)).
    repeat split.
Qed.

Lemma raised_parse_task_is_rejected_witness :
  let parse := λ _ _ : string, @Raise CandidateProfile "parse error" in
  let bulk := λ (_ : list CandidateProfile) (d : Z), (Ok [d], (d + 1)%Z) in
  let single := λ (_ : CandidateProfile) (d : Z), (Ok d, (d + 1)%Z) in
  ∃ results r,
    (BulkProcessor.process_resumes_bulk parse Z bulk single
       ["%PDF"]%string ["scan.pdf"]%string None 7%Z).1.1 = Ok results
    ∧ results !! 0%nat = Some r
    ∧ ProcessingResult.success r = false
    ∧ ProcessingResult.candidate_id r = None.
Proof.
  intros parse bulk single.
  destruct (raised_parse_task_is_rejected parse Z bulk single
              ["%PDF"]%string ["scan.pdf"]%string None 7%Z 0 "%PDF" "scan.pdf"
              "parse error" eq_refl eq_refl eq_refl)
    as (_ & results & r & H1 & H2 & H3 & H4 & _).
  exists results, r. done.
Defined.

Section CompileInversion.

Import BulkProcessor.

(** What [_compile_processing_results] returns when it returns. *)
Lemma compile_loop_inv storage_map file_names validation_results :
  ∀ i acc results,
  compile_loop storage_map file_names i validation_results acc = Ok results →
  results = acc ++ zip_with (compile_one storage_map) (drop i file_names)
                     validation_results.
Proof.
  induction validation_results as [|v vs IH]; intros i acc results; simpl.
  - intros H. injection H as <-. destruct (drop i file_names); by rewrite app_nil_r.
  - unfold py_index. destruct (file_names !! i) as [f|] eqn:E; simpl; [|done].
    intros H. apply IH in H. rewrite H, <- app_assoc.
    by rewrite (drop_S _ _ _ E).
Qed.

End CompileInversion.

(** X18.  Results are joined to storage records by candidate name alone:
    a result reports the id and the error of the last record stored under
    its candidate's name, whichever profile that record was written for,
    and it is a success only if that record is. *)
Theorem result_reports_last_record_of_name
    (validation_results : list ValidationResult.t)
    (before after : list StoredCandidate.t) (o : StoredCandidate.t)
    (file_names : list string) (results : list ProcessingResult.t)
    (i : nat) (r : ProcessingResult.t) :
  BulkProcessor._compile_processing_results validation_results
    (before ++ o :: after) file_names = Ok results →
  results !! i = Some r →
  ProcessingResult.candidate_name r = StoredCandidate.name o →
  Forall (λ x, StoredCandidate.name x ≠ StoredCandidate.name o) after →
  ProcessingResult.candidate_id r = StoredCandidate.id o
  ∧ ProcessingResult.storage_error r = StoredCandidate.error o
  ∧ (ProcessingResult.success r = true → StoredCandidate.success o = true).
Proof.
  intros Hres Hi Hname Hafter.
  unfold BulkProcessor._compile_processing_results in Hres.
  apply compile_loop_inv in Hres. cbn [app] in Hres. subst results.
  apply lookup_zip_with_Some in Hi as (f & v & -> & _ & _).
  unfold BulkProcessor.compile_one in *.
  cbn [ProcessingResult.candidate_name] in Hname.
  cbn [ProcessingResult.candidate_id ProcessingResult.storage_error
       ProcessingResult.success].
  rewrite Hname, storage_map_last by done. cbn.
  repeat split. intros H. by apply andb_prop in H as [_ H].
Qed.

Lemma result_reports_last_record_of_name_witness :
  let v1 := validation_record "a.pdf" [] named_profile in
  let v2 := validation_record "b.pdf" [named_profile] named_profile in
  let first := BulkProcessor.stored_ok 1 named_profile in
  let last := BulkProcessor.stored_failed "duplicate key" named_profile in
  let storage_map := BulkProcessor.storage_map_of [first; last] in
  ProcessingResult.candidate_id (BulkProcessor.compile_one storage_map "a.pdf" v1)
  = None.
Proof.
  intros v1 v2 first last storage_map.
  exact (proj1 (result_reports_last_record_of_name [v1; v2] [first] [] last
                  ["a.pdf"; "b.pdf"]%string
                  (zip_with (BulkProcessor.compile_one storage_map)
                     ["a.pdf"; "b.pdf"]%string [v1; v2])
                  0 (BulkProcessor.compile_one storage_map "a.pdf" v1)
                  eq_refl eq_refl eq_refl (List.Forall_nil _))).
Defined.

(** X19.  In what a bulk call returns, a result that reports success
    carries a candidate id and no storage error, and its validation issues
    hold no critical one. *)
Theorem successful_result_has_stored_id
    (parse_single : string → string → result CandidateProfile) (DB : Type)
    (create_candidates_bulk : list CandidateProfile → DB → result (list Z) * DB)
    (create_candidate : CandidateProfile → DB → result Z * DB)
    (resume_files file_names : list string) (job_id : option Z) (d : DB)
    (results : list ProcessingResult.t) (r : ProcessingResult.t) :
  (BulkProcessor.process_resumes_bulk parse_single DB create_candidates_bulk
     create_candidate resume_files file_names job_id d).1.1 = Ok results →
  r ∈ results → ProcessingResult.success r = true →
  is_Some (ProcessingResult.candidate_id r)
  ∧ ProcessingResult.storage_error r = None
  ∧ BulkProcessor.has_critical_issues (ProcessingResult.validation_issues r)
    = false.
Proof.
  rewrite process_resumes_bulk_spec. cbn [fst]. intros Hres Hin Hs.
  injection Hres as <-.
  apply elem_of_lookup_zip_with in Hin as (k & f & v & -> & _ & Hv).
  apply list_elem_of_lookup_2, validated_elem in Hv as (f' & valid & c & ->).
  destruct (store_candidates_shape DB create_candidates_bulk create_candidate
              (survivors [] (parsed_profiles parse_single resume_files
                               file_names)) d) as (_ & _ & Hn).
  unfold BulkProcessor.compile_one in *.
  cbn [ProcessingResult.success ProcessingResult.candidate_id
       ProcessingResult.storage_error ProcessingResult.validation_issues
       validation_record ValidationResult.candidate_name
       ValidationResult.success ValidationResult.issues] in *.
  apply andb_prop in Hs as [Ha Hst].
  destruct (BulkProcessor.storage_map_of _ !! name c) as [o|] eqn:E; [|done].
  apply storage_map_lookup in E as [Ho _].
  rewrite Forall_forall in Hn. destruct (Hn o Ho) as (x & _ & Hx).
  destruct (outcome_success x o Hx Hst) as [Hid Herr].
  cbn. split; [done|]. split; [done|].
  unfold accepts in Ha. by apply negb_true_iff in Ha.
Qed.

Lemma successful_result_has_stored_id_witness :
  let parse := λ _ _ : string, Ok named_profile in
  let bulk := λ (_ : list CandidateProfile) (d : Z), (Ok [d], (d + 1)%Z) in
  let single := λ (_ : CandidateProfile) (d : Z), (Ok d, (d + 1)%Z) in
  let storage_map :=
    BulkProcessor.storage_map_of [BulkProcessor.stored_ok 7 named_profile] in
  let r := BulkProcessor.compile_one storage_map "cv.txt"
             (validation_record "cv.txt" [] named_profile) in
  is_Some (ProcessingResult.candidate_id r).
Proof.
  intros parse bulk single storage_map r.
  refine (proj1 (successful_result_has_stored_id parse Z bulk single
                   ["text"]%string ["cv.txt"]%string None 7%Z [r] r
                   eq_refl _ eq_refl)).
  apply list_elem_of_here.
Defined.

(** ** Statistics *)

Section StatisticsFacts.

Import BulkStatistics.

Lemma success_count_spec results : ∀ n,
  foldl (λ n r, if ProcessingResult.success r then (n + 1)%Z else n) n results
  = (n + Z.of_nat (length (successes results)))%Z.
Proof.
  unfold successes. induction results as [|r rest IH]; intros n; simpl; [lia|].
  rewrite IH. destruct (ProcessingResult.success r); simpl; lia.
Qed.

Lemma length_successes results :
  (length (successes results) <= length results)%nat.
Proof. unfold successes. apply List.filter_length_le. Qed.

Lemma py_round1_bounds (lo hi : Z) (x : Q) :
  inject_Z lo <= x → x <= inject_Z hi →
  inject_Z lo <= py_round x 1 ∧ py_round x 1 <= inject_Z hi.
Proof.
  intros Hlo Hhi. unfold py_round.
  change (inject_Z (10 ^ Z.of_nat 1)) with (10 # 1).
  unfold Qdiv. change (/ (10 # 1)) with (1 # 10).
  destruct (round_half_even_bounds (10 * lo) (10 * hi) (x * (10 # 1)))
    as [H1 H2].
  { rewrite inject_Z_mult. change (inject_Z 10) with (10 # 1).
    set (a := inject_Z lo) in *. lra. }
  { rewrite inject_Z_mult. change (inject_Z 10) with (10 # 1).
    set (b := inject_Z hi) in *. lra. }
  apply inject_Z_ge in H1, H2. rewrite inject_Z_mult in H1, H2.
  change (inject_Z 10) with (10 # 1) in H1, H2.
  set (a := inject_Z lo) in *. set (b := inject_Z hi) in *.
  set (r := inject_Z (round_half_even _)) in *. lra.
Qed.

Lemma insert_asc_perm x l : insert_asc x l ≡ₚ x :: l.
Proof.
  induction l as [|y l IH]; simpl; [done|].
  destruct (x <? y)%Z; [done|]. rewrite IH. apply Permutation_swap.
Qed.

Lemma sorted_asc_perm l : sorted_asc l ≡ₚ l.
Proof.
  unfold sorted_asc.
  assert (H : ∀ acc, foldl (λ acc x, insert_asc x acc) acc l ≡ₚ acc ++ l).
  { induction l as [|x l IH]; intros acc; simpl; [by rewrite app_nil_r|].
    rewrite IH, insert_asc_perm. simpl. apply Permutation_middle. }
  apply (H []).
Qed.

Lemma insert_asc_sorted x l :
  StronglySorted Z.le l → StronglySorted Z.le (insert_asc x l).
Proof.
  induction 1 as [|y l Hs IH Hy]; simpl; [repeat constructor|].
  destruct (Z.ltb_spec x y).
  - constructor; [by constructor|]. constructor; [lia|].
    eapply Forall_impl; [exact Hy|]. intros z Hz. simpl in Hz. lia.
  - constructor; [done|]. rewrite insert_asc_perm. by constructor.
Qed.

Lemma sorted_asc_sorted l : StronglySorted Z.le (sorted_asc l).
Proof.
  unfold sorted_asc.
  assert (H : ∀ acc, StronglySorted Z.le acc →
                     StronglySorted Z.le (foldl (λ acc x, insert_asc x acc) acc l)).
  { induction l as [|x l IH]; intros acc Ha; simpl; [done|].
    by apply IH, insert_asc_sorted. }
  apply H. constructor.
Qed.

Lemma filter_none {A} (P : A → Prop) `{∀ x, Decision (P x)} (l : list A) :
  Forall (λ x, ¬ P x) l → filter P l = [].
Proof.
  induction 1 as [|x l Hx _ IH]; [done|]. by rewrite filter_cons_False.
Qed.

(** In a sorted list, what lies below the entry at [k] sits before [k],
    and what lies above it sits after [k]. *)
Lemma sorted_around_index (s : list Z) : ∀ k m,
  StronglySorted Z.le s → s !! k = Some m →
  (length (filter (λ z, (z < m)%Z) s) <= k)%nat
  ∧ (length (filter (λ z, (m < z)%Z) s) <= length s - S k)%nat.
Proof.
  induction s as [|y s IH]; intros k m Hs Hk; [done|].
  apply StronglySorted_inv in Hs as [Hs Hy]. destruct k as [|k]; simpl in Hk.
  - injection Hk as ->. split.
    + rewrite filter_cons_False by lia. rewrite filter_none; [done|].
      eapply Forall_impl; [exact Hy|]. intros z Hz. simpl in Hz. lia.
    + rewrite filter_cons_False by lia.
      pose proof (length_filter (λ z, (m < z)%Z) s). simpl. lia.
  - destruct (IH k m Hs Hk) as [H1 H2].
    assert (Hym : (y <= m)%Z).
    { rewrite Forall_forall in Hy. apply Hy. by eapply list_elem_of_lookup_2. }
    split.
    + destruct (decide (y < m)%Z).
      * rewrite filter_cons_True by done. simpl. lia.
      * rewrite filter_cons_False by done. lia.
    + rewrite filter_cons_False by lia. simpl. lia.
Qed.

Lemma py_min_max_attained l : ∀ x,
  ResumeParser.py_min x l ∈ x :: l ∧ ResumeParser.py_max x l ∈ x :: l
  ∧ ∀ z, z ∈ x :: l →
         (ResumeParser.py_min x l <= z <= ResumeParser.py_max x l)%Z.
Proof.
  unfold ResumeParser.py_min, ResumeParser.py_max.
  induction l as [|y l IH]; intros x; simpl.
  - split; [apply list_elem_of_here|]. split; [apply list_elem_of_here|].
    intros z Hz. apply list_elem_of_singleton in Hz. lia.
  - destruct (IH (Z.min x y)) as (Hmin & _ & Hlo).
    destruct (IH (Z.max x y)) as (_ & Hmax & Hhi).
    assert (Hsub : ∀ w z, z ∈ w :: l → (w = x ∨ w = y) → z ∈ x :: y :: l).
    { intros w z Hz Hw. apply elem_of_cons in Hz as [->|Hz].
      - destruct Hw as [->| ->]; [apply list_elem_of_here|].
        apply elem_of_cons. right. apply list_elem_of_here.
      - apply elem_of_cons. right. apply elem_of_cons. by right. }
    split; [apply (Hsub _ _ Hmin); lia|]. split; [apply (Hsub _ _ Hmax); lia|].
    intros z Hz.
    assert (Hl : (foldl Z.min (Z.min x y) l <= Z.min x y)%Z)
      by (apply Hlo, list_elem_of_here).
    assert (Hh : (Z.max x y <= foldl Z.max (Z.max x y) l)%Z)
      by (apply Hhi, list_elem_of_here).
    apply elem_of_cons in Hz as [->|Hz]; [lia|].
    apply elem_of_cons in Hz as [->|Hz]; [lia|].
    split; [apply Hlo | apply Hhi]; apply elem_of_cons; by right.
Qed.

(** [distribution_of] returns, and on a list with an entry the figures
    are drawn from the list. *)
Lemma distribution_of_spec values :
  ∃ d, distribution_of values = Ok d
       ∧ (values = [] → d = Distribution.mk 0 0 0)
       ∧ (values ≠ [] → distribution_over values d).
Proof.
  destruct values as [|x rest]; [by eexists|].
  set (values := x :: rest). unfold distribution_of. fold values.
  assert (Hlen : (length values / 2 < length (sorted_asc values))%nat).
  { rewrite (Permutation_length (sorted_asc_perm values)).
    apply Nat.div_lt; simpl; lia. }
  destruct (lookup_lt_is_Some_2 _ _ Hlen) as [m Hm].
  unfold py_index. rewrite Hm. simpl. eexists. split; [reflexivity|].
  split; [done|]. intros _.
  destruct (py_min_max_attained rest x) as (Hmin & Hmax & Hb).
  destruct (sorted_around_index _ _ _ (sorted_asc_sorted values) Hm) as [H1 H2].
  rewrite (Permutation_length (sorted_asc_perm values)) in H2.
  rewrite (Permutation_length
             (filter_Permutation _ _ _ (sorted_asc_perm values))) in H1.
  rewrite (Permutation_length
             (filter_Permutation _ _ _ (sorted_asc_perm values))) in H2.
  assert (Hd : (length values / 2 * 2 <= length values
                < length values / 2 * 2 + 2)%nat).
  { pose proof (Nat.div_mod_eq (length values) 2).
    pose proof (Nat.mod_upper_bound (length values) 2). lia. }
  rewrite (Permutation_length (sorted_asc_perm values)) in Hlen.
  unfold distribution_over. cbn [Distribution.min Distribution.max
                                 Distribution.median].
  repeat split; try done; try (by apply Hb); try lia.
  rewrite <- (sorted_asc_perm values). by eapply list_elem_of_lookup_2.
Qed.

Lemma py_sum_bounds lo hi l : ∀ acc,
  Forall (λ z, (lo <= z <= hi)%Z) l →
  (acc + Z.of_nat (length l) * lo <= foldl Z.add acc l
   <= acc + Z.of_nat (length l) * hi)%Z.
Proof.
  induction l as [|y l IH]; intros acc H; simpl; [lia|].
  apply Forall_cons in H as [Hy Hl]. specialize (IH (acc + y)%Z Hl). lia.
Qed.

(** [average_of] returns, and the average lies between any bounds of the
    values. *)
Lemma average_of_spec values :
  ∃ q, average_of values = Ok q
       ∧ (values = [] → q = 0)
       ∧ ∀ lo hi, values ≠ [] → Forall (λ z, (lo <= z <= hi)%Z) values →
                  inject_Z lo <= q ∧ q <= inject_Z hi.
Proof.
  destruct values as [|x rest]; [by eexists|].
  set (values := x :: rest). unfold average_of, py_truediv. fold values.
  assert (Hn : (0 < Z.of_nat (length values))%Z) by (simpl; lia).
  destruct (Z.eqb_spec (Z.of_nat (length values)) 0); [lia|]. simpl.
  eexists. split; [reflexivity|]. split; [done|]. intros lo hi _ Hb.
  apply py_round1_bounds.
  - apply Qle_shift_div_l; [by rewrite <- (Zlt_Qlt 0)|].
    rewrite <- inject_Z_mult, <- Zle_Qle.
    pose proof (py_sum_bounds lo hi values 0 Hb) as Hs. unfold py_sum.
    change (S (length rest)) with (length values). lia.
  - apply Qle_shift_div_r; [by rewrite <- (Zlt_Qlt 0)|].
    rewrite <- inject_Z_mult, <- Zle_Qle.
    pose proof (py_sum_bounds lo hi values 0 Hb) as Hs. unfold py_sum.
    change (S (length rest)) with (length values). lia.
Qed.

End StatisticsFacts.

Section IssueCounts.

Import BulkStatistics.

Lemma count_of_count_issue k issue items :
  count_of k (count_issue issue items)
  = (count_of k items + if decide (k = issue) then 1 else 0)%Z.
Proof.
  induction items as [|[k' n] rest IH]; simpl.
  - destruct (String.eqb_spec issue k), (decide (k = issue)); congruence || lia.
  - destruct (String.eqb_spec k' issue) as [->|Hne]; simpl.
    + destruct (String.eqb_spec issue k), (decide (k = issue));
        congruence || lia.
    + destruct (String.eqb_spec k' k) as [->|Hk]; [|exact IH].
      destruct (decide (k = issue)); [congruence | lia].
Qed.

Lemma keys_count_issue issue items k :
  k ∈ (count_issue issue items).*1 ↔ k = issue ∨ k ∈ items.*1.
Proof.
  induction items as [|[k' n] rest IH]; simpl.
  - rewrite list_elem_of_singleton. split; [by left|]. intros [H|H]; [done|].
    by apply elem_of_nil in H.
  - destruct (String.eqb_spec k' issue) as [->|Hne]; simpl.
    + rewrite !elem_of_cons. tauto.
    + rewrite !elem_of_cons, IH. tauto.
Qed.

Lemma NoDup_count_issue issue items :
  NoDup items.*1 → NoDup (count_issue issue items).*1.
Proof.
  induction items as [|[k' n] rest IH]; simpl; intros H.
  - apply NoDup_singleton.
  - apply NoDup_cons in H as [Hk Hr].
    destruct (String.eqb_spec k' issue) as [->|Hne]; simpl.
    + by apply NoDup_cons.
    + apply NoDup_cons. split; [|by apply IH].
      rewrite keys_count_issue. intros [E|E]; [congruence | done].
Qed.

Lemma positive_count_issue issue items :
  Forall (λ p, (0 < p.2)%Z) items →
  Forall (λ p, (0 < p.2)%Z) (count_issue issue items).
Proof.
  induction 1 as [|[k' n] rest Hp Hr IH]; simpl.
  - by repeat constructor.
  - destruct (String.eqb k' issue); constructor; simpl in *; try done; lia.
Qed.

(** The dictionary after the loop: one item per issue that occurs, with
    the number of its occurrences. *)
Lemma issue_counts_spec all_issues :
  NoDup (issue_counts_of all_issues).*1
  ∧ Forall (λ p, (0 < p.2)%Z) (issue_counts_of all_issues)
  ∧ ∀ k, count_of k (issue_counts_of all_issues)
         = Z.of_nat (length (filter (λ x, x = k) all_issues)).
Proof.
  unfold issue_counts_of.
  assert (H : ∀ acc,
             NoDup acc.*1 → Forall (λ p, (0 < p.2)%Z) acc →
             let items := foldl (λ counts issue, count_issue issue counts) acc
                            all_issues in
             NoDup items.*1 ∧ Forall (λ p, (0 < p.2)%Z) items
             ∧ ∀ k, count_of k items
                    = (count_of k acc
                       + Z.of_nat (length (filter (λ x, x = k) all_issues)))%Z).
  { induction all_issues as [|issue rest IH]; intros acc Hn Hp; simpl.
    - repeat split; try done. intros k. lia.
    - destruct (IH (count_issue issue acc)) as (H1 & H2 & H3);
        [by apply NoDup_count_issue | by apply positive_count_issue|].
      repeat split; try done. intros k. rewrite H3, count_of_count_issue.
      destruct (decide (k = issue)) as [->|Hne].
      + rewrite filter_cons_True by done. simpl. lia.
      + rewrite filter_cons_False by congruence. lia. }
  destruct (H [] (NoDup_nil_2) (List.Forall_nil _)) as (H1 & H2 & H3).
  repeat split; try done.
Qed.

Lemma count_of_elem items : ∀ k n,
  NoDup items.*1 → (k, n) ∈ items → count_of k items = n.
Proof.
  induction items as [|[k' n'] rest IH]; intros k n Hn Hin.
  - by apply elem_of_nil in Hin.
  - simpl in *. apply NoDup_cons in Hn as [Hk Hr].
    apply elem_of_cons in Hin as [E|Hin].
    + injection E as -> ->. by rewrite String.eqb_refl.
    + destruct (String.eqb_spec k' k) as [->|Hne]; [|by apply IH].
      exfalso. apply Hk. apply list_elem_of_fmap. by exists (k, n).
Qed.

Lemma count_of_nonzero items : ∀ k,
  count_of k items ≠ 0%Z → (k, count_of k items) ∈ items.
Proof.
  induction items as [|[k' n'] rest IH]; intros k H; simpl in *; [done|].
  destruct (String.eqb_spec k' k) as [->|Hne]; [apply list_elem_of_here|].
  apply elem_of_cons. right. by apply IH.
Qed.

Lemma insert_by_count_perm x l : insert_by_count x l ≡ₚ x :: l.
Proof.
  induction l as [|y l IH]; simpl; [done|].
  destruct (y.2 <? x.2)%Z; [done|]. rewrite IH. apply Permutation_swap.
Qed.

Lemma sorted_by_count_perm items : sorted_by_count items ≡ₚ items.
Proof.
  unfold sorted_by_count.
  assert (H : ∀ acc, foldl (λ acc x, insert_by_count x acc) acc items
                     ≡ₚ acc ++ items).
  { induction items as [|x l IH]; intros acc; simpl; [by rewrite app_nil_r|].
    rewrite IH, insert_by_count_perm. simpl. apply Permutation_middle. }
  apply (H []).
Qed.

Lemma insert_by_count_sorted x l :
  StronglySorted count_ge l → StronglySorted count_ge (insert_by_count x l).
Proof.
  induction 1 as [|y l Hs IH Hy]; simpl; [repeat constructor|].
  destruct (Z.ltb_spec y.2 x.2).
  - constructor; [by constructor|]. constructor; [unfold count_ge; lia|].
    eapply Forall_impl; [exact Hy|]. unfold count_ge. intros z Hz. lia.
  - constructor; [done|]. rewrite insert_by_count_perm.
    constructor; [unfold count_ge; lia | done].
Qed.

Lemma sorted_by_count_sorted items : StronglySorted count_ge (sorted_by_count items).
Proof.
  unfold sorted_by_count.
  assert (H : ∀ acc, StronglySorted count_ge acc →
                     StronglySorted count_ge
                       (foldl (λ acc x, insert_by_count x acc) acc items)).
  { induction items as [|x l IH]; intros acc Ha; simpl; [done|].
    by apply IH, insert_by_count_sorted. }
  apply H. constructor.
Qed.

Lemma StronglySorted_across {A} (R : A → A → Prop) l1 : ∀ l2 a b,
  StronglySorted R (l1 ++ l2) → a ∈ l1 → b ∈ l2 → R a b.
Proof.
  induction l1 as [|x l1 IH]; intros l2 a b Hs Ha Hb.
  - by apply elem_of_nil in Ha.
  - simpl in Hs. apply StronglySorted_inv in Hs as [Hs Hx].
    apply elem_of_cons in Ha as [->|Ha]; [|by eapply IH].
    rewrite Forall_forall in Hx. apply Hx, elem_of_app. by right.
Qed.

(** The statistics in closed form. *)
Lemma get_processing_statistics_spec results :
  ∃ rate avg_skills avg_experience skill_d experience_d,
    get_processing_statistics results
    = Ok {| Statistics.total_processed := Z.of_nat (length results);
            Statistics.successful := Z.of_nat (length (successes results));
            Statistics.failed :=
              (Z.of_nat (length results)
               - Z.of_nat (length (successes results)))%Z;
            Statistics.success_rate := rate;
            Statistics.avg_skills_per_candidate := avg_skills;
            Statistics.avg_experience_years := avg_experience;
            Statistics.common_issues :=
              take 5 (sorted_by_count
                        (issue_counts_of
                           (concat (map ProcessingResult.validation_issues
                                        results))));
            Statistics.skill_distribution := skill_d;
            Statistics.experience_distribution := experience_d |}
    ∧ (0 <= rate ∧ rate <= 100 ∧ (results = [] → rate = 0))
    ∧ average_of (map ProcessingResult.skills_count (successes results))
      = Ok avg_skills
    ∧ average_of (map ProcessingResult.experience_years (successes results))
      = Ok avg_experience
    ∧ distribution_of (map ProcessingResult.skills_count (successes results))
      = Ok skill_d
    ∧ distribution_of (map ProcessingResult.experience_years (successes results))
      = Ok experience_d.
Proof.
  unfold get_processing_statistics.
  rewrite success_count_spec. rewrite Z.add_0_l.
  fold (successes results).
  fold (issue_counts_of (concat (map ProcessingResult.validation_issues results))).
  destruct (average_of_spec (map ProcessingResult.skills_count (successes results)))
    as (a1 & -> & _).
  destruct (average_of_spec (map ProcessingResult.experience_years (successes results)))
    as (a2 & -> & _).
  destruct (distribution_of_spec
              (map ProcessingResult.skills_count (successes results)))
    as (d1 & -> & _).
  destruct (distribution_of_spec
              (map ProcessingResult.experience_years (successes results)))
    as (d2 & -> & _).
  pose proof (length_successes results) as Hle.
  destruct (Z.ltb_spec 0 (Z.of_nat (length results))) as [Hpos|Hzero].
  - unfold py_truediv.
    destruct (Z.eqb_spec (Z.of_nat (length results)) 0) as [E|_]; [lia|].
    simpl. eexists _, a1, a2, d1, d2. split; [reflexivity|].
    split; [|done].
    set (succ := Z.of_nat (length (successes results))).
    set (total := Z.of_nat (length results)) in *.
    assert (Hq : 0 <= inject_Z succ / inject_Z total
                 ∧ inject_Z succ / inject_Z total <= 1).
    { split.
      - apply Qle_shift_div_l; [by rewrite <- (Zlt_Qlt 0)|].
        rewrite Qmult_0_l, <- (Zle_Qle 0). unfold succ. lia.
      - apply Qle_shift_div_r; [by rewrite <- (Zlt_Qlt 0)|].
        rewrite Qmult_1_l, <- Zle_Qle. unfold succ, total. lia. }
    destruct (py_round1_bounds 0 100 (inject_Z succ / inject_Z total * 100))
      as [H1 H2].
    { change (inject_Z 0) with 0. destruct Hq. nra. }
    { change (inject_Z 100) with 100. destruct Hq. nra. }
    split; [exact H1|]. split; [exact H2|].
    intros E. subst total. rewrite E in Hpos. simpl in Hpos. lia.
  - simpl. eexists 0, a1, a2, d1, d2. split; [reflexivity|].
    split; [|done]. split; [done|]. split; [done|]. done.
Qed.

End IssueCounts.

(** X20.  The statistics are returned for every list of results, the
    empty one included (no division by zero, no index out of range); the
    successes and failures add up to the total, and the success rate lies
    between 0 and 100. *)
Theorem statistics_always_returned (results : list ProcessingResult.t) :
  ∃ s, BulkStatistics.get_processing_statistics results = Ok s
       ∧ Statistics.total_processed s = Z.of_nat (length results)
       ∧ Statistics.successful s = Z.of_nat (length (successes results))
       ∧ (Statistics.successful s + Statistics.failed s
          = Statistics.total_processed s)%Z
       ∧ (0 <= Statistics.failed s)%Z
       ∧ 0 <= Statistics.success_rate s ∧ Statistics.success_rate s <= 100
       ∧ (results = [] → Statistics.success_rate s = 0
                         ∧ Statistics.common_issues s = []).
Proof.
  destruct (get_processing_statistics_spec results)
    as (rate & a1 & a2 & d1 & d2 & -> & (H0 & H100 & Hempty) & _).
  eexists. split; [reflexivity|]. simpl.
  pose proof (length_successes results).
  repeat split; try done; try lia.
  - by apply Hempty.
  - by subst results.
Qed.

(** X21.  When some result is a success, the skill and the experience
    distributions are drawn from the successful results: minimum, maximum
    and median are values that occur, the median is the upper median, and
    each average lies between its minimum and maximum.  When none is, all
    figures are 0. *)
Theorem statistics_distributions (results : list ProcessingResult.t)
    (s : Statistics.t) :
  BulkStatistics.get_processing_statistics results = Ok s →
  let skill_counts := map ProcessingResult.skills_count (successes results) in
  let experience_years :=
    map ProcessingResult.experience_years (successes results) in
  (successes results ≠ [] →
     distribution_over skill_counts (Statistics.skill_distribution s)
     ∧ distribution_over experience_years (Statistics.experience_distribution s)
     ∧ inject_Z (Distribution.min (Statistics.skill_distribution s))
       <= Statistics.avg_skills_per_candidate s
     ∧ Statistics.avg_skills_per_candidate s
       <= inject_Z (Distribution.max (Statistics.skill_distribution s))
     ∧ inject_Z (Distribution.min (Statistics.experience_distribution s))
       <= Statistics.avg_experience_years s
     ∧ Statistics.avg_experience_years s
       <= inject_Z (Distribution.max (Statistics.experience_distribution s)))
  ∧ (successes results = [] →
     Statistics.skill_distribution s = Distribution.mk 0 0 0
     ∧ Statistics.experience_distribution s = Distribution.mk 0 0 0
     ∧ Statistics.avg_skills_per_candidate s = 0
     ∧ Statistics.avg_experience_years s = 0).
Proof.
  intros Hs skill_counts experience_years.
  destruct (get_processing_statistics_spec results)
    as (rate & a1 & a2 & d1 & d2 & E & _ & Ha1 & Ha2 & Hd1 & Hd2).
  rewrite E in Hs. injection Hs as <-. simpl.
  fold skill_counts in Ha1, Hd1. fold experience_years in Ha2, Hd2.
  destruct (average_of_spec skill_counts) as (q1 & Eq1 & Hz1 & Hb1).
  destruct (average_of_spec experience_years) as (q2 & Eq2 & Hz2 & Hb2).
  destruct (distribution_of_spec skill_counts) as (e1 & Ee1 & Hn1 & Ho1).
  destruct (distribution_of_spec experience_years) as (e2 & Ee2 & Hn2 & Ho2).
  assert (q1 = a1) by congruence. assert (q2 = a2) by congruence.
  assert (e1 = d1) by congruence. assert (e2 = d2) by congruence.
  subst q1 q2 e1 e2. split.
  - intros Hne.
    assert (Hs1 : skill_counts ≠ []).
    { unfold skill_counts. destruct (successes results); done. }
    assert (Hs2 : experience_years ≠ []).
    { unfold experience_years. destruct (successes results); done. }
    specialize (Ho1 Hs1). specialize (Ho2 Hs2).
    split; [done|]. split; [done|].
    destruct Ho1 as (_ & _ & _ & Hr1 & _). destruct Ho2 as (_ & _ & _ & Hr2 & _).
    destruct (Hb1 (Distribution.min d1) (Distribution.max d1) Hs1) as [? ?].
    { apply Forall_forall. exact Hr1. }
    destruct (Hb2 (Distribution.min d2) (Distribution.max d2) Hs2) as [? ?].
    { apply Forall_forall. exact Hr2. }
    done.
  - intros Hnone. unfold skill_counts, experience_years in *.
    rewrite Hnone in *. simpl in *. auto.
Qed.

Lemma statistics_distributions_witness :
  ∃ s, BulkStatistics.get_processing_statistics sample_results = Ok s
       ∧ distribution_over [4%Z] (Statistics.skill_distribution s).
Proof.
  eexists. split; [reflexivity|].
  refine (proj1 (proj1 (statistics_distributions sample_results _ eq_refl) _)).
  discriminate.
Defined.

(** X22.  The common issues are at most five distinct issues, each with
    the number of times it occurs over all results, ordered by that number
    from high to low; an issue that occurs and is not listed occurs no
    more often than any listed one, and then five are listed. *)
Theorem common_issues_are_the_most_frequent (results : list ProcessingResult.t)
    (s : Statistics.t) :
  BulkStatistics.get_processing_statistics results = Ok s →
  let common := Statistics.common_issues s in
  (length common <= 5)%nat
  ∧ NoDup common.*1
  ∧ StronglySorted count_ge common
  ∧ (∀ issue n, (issue, n) ∈ common →
                n = occurrences issue results ∧ (0 < n)%Z)
  ∧ (∀ issue, (0 < occurrences issue results)%Z → issue ∉ common.*1 →
              length common = 5%nat
              ∧ ∀ p, p ∈ common → (occurrences issue results <= p.2)%Z).
Proof.
  intros Hs common.
  destruct (get_processing_statistics_spec results)
    as (rate & a1 & a2 & d1 & d2 & E & _).
  rewrite E in Hs. injection Hs as <-. subst common. simpl.
  set (all_issues := concat (map ProcessingResult.validation_issues results)).
  destruct (issue_counts_spec all_issues) as (Hnd & Hpos & Hcount).
  set (items := issue_counts_of all_issues) in *.
  pose proof (sorted_by_count_perm items) as Hperm.
  pose proof (sorted_by_count_sorted items) as Hsorted.
  set (sorted := BulkStatistics.sorted_by_count items) in *.
  assert (Hocc : ∀ k, occurrences k results = count_of k items).
  { intros k. unfold occurrences. fold all_issues. by rewrite Hcount. }
  assert (Hin : ∀ p, p ∈ take 5 sorted → p ∈ items).
  { intros p Hp. rewrite <- Hperm. apply list_elem_of_lookup in Hp as [i Hi].
    apply lookup_take_Some in Hi as [Hi _]. by eapply list_elem_of_lookup_2. }
  split; [rewrite length_take; lia|]. split.
  { eapply sublist_NoDup; [|apply fmap_sublist, sublist_take].
    by rewrite Hperm. }
  split; [by apply StronglySorted_take|]. split.
  - intros issue n Hn. apply Hin in Hn. rewrite Hocc.
    split; [symmetry; by apply count_of_elem|].
    rewrite Forall_forall in Hpos. apply (Hpos _ Hn).
  - intros issue Hpos' Hout. rewrite Hocc in *.
    assert (Hitem : (issue, count_of issue items) ∈ sorted).
    { rewrite Hperm. apply count_of_nonzero. lia. }
    rewrite <- (take_drop 5 sorted) in Hitem, Hsorted.
    apply elem_of_app in Hitem as [Hitem|Hitem].
    { exfalso. apply Hout. apply list_elem_of_fmap. by exists (issue, count_of issue items). }
    split.
    + rewrite length_take. apply Nat.min_l.
      destruct (Nat.le_gt_cases 5 (length sorted)) as [|Hlt]; [done|].
      rewrite drop_ge in Hitem by lia. by apply elem_of_nil in Hitem.
    + intros p Hp.
      apply (StronglySorted_across count_ge _ _ p _ Hsorted Hp Hitem).
Qed.

Lemma common_issues_are_the_most_frequent_witness :
  ∃ s, BulkStatistics.get_processing_statistics sample_results = Ok s
       ∧ (length (Statistics.common_issues s) <= 5)%nat
       ∧ NoDup (Statistics.common_issues s).*1.
Proof.
  eexists. split; [reflexivity|].
  destruct (common_issues_are_the_most_frequent sample_results _ eq_refl)
    as (H1 & H2 & _).
  split; [exact H1 | exact H2].
Defined.

(** ** The parser *)

Section ExperienceRange.

Import Regex ResumeParser.

Lemma is_digit_value c :
  PyStr.is_digit c = true → (0 <= Z.of_nat (nat_of_ascii c) - 48 <= 9)%Z.
Proof.
  unfold PyStr.is_digit. intros H. apply andb_prop in H as [H1 H2].
  apply Nat.leb_le in H1, H2. lia.
Qed.

Lemma int_digits_nonneg s : ∀ acc v,
  (0 <= acc)%Z → int_digits acc s = Some v → (0 <= v)%Z.
Proof.
  induction s as [|c s IH]; intros acc v Ha; simpl.
  - intros H. injection H as <-. done.
  - destruct (PyStr.is_digit c) eqn:E; [|done].
    apply IH. pose proof (is_digit_value c E). lia.
Qed.

(** [int] on a string of digits is never negative. *)
Lemma py_int_nonneg s v : py_int s = Some v → (0 <= v)%Z.
Proof.
  unfold py_int. destruct s; [done|]. by apply int_digits_nonneg.
Qed.

Lemma first_pattern_years_range patterns text v :
  first_pattern_years patterns text = Some v → (0 <= v <= 50)%Z.
Proof.
  induction patterns as [|pattern rest IH]; simpl; [done|].
  destruct (findall true pattern text) as [|m ms]; [exact IH|].
  destruct (py_int m) as [years|] eqn:E; [|exact IH].
  intros H. injection H as <-. apply py_int_nonneg in E. lia.
Qed.

Lemma extract_experience_years_range text :
  (0 <= _extract_experience_years text <= 50)%Z.
Proof.
  destruct (first_pattern_years experience_patterns text) as [v|] eqn:E.
  - unfold _extract_experience_years. rewrite E.
    by apply first_pattern_years_range in E.
  - pose proof (experience_years_fallback_bound text E). lia.
Qed.

End ExperienceRange.

(** X23.  Whatever the text, the years of experience that the parser
    reads lie between 0 and 50; without a phrase of the form "N years of
    experience" they are 0 or 1. *)
Theorem experience_years_in_range (text : string) :
  (0 <= ResumeParser._extract_experience_years text <= 50)%Z
  ∧ (ResumeParser.first_pattern_years ResumeParser.experience_patterns text
     = None →
     (ResumeParser._extract_experience_years text <= 1)%Z).
Proof.
  split; [apply extract_experience_years_range|].
  intros H. pose proof (experience_years_fallback_bound text H). lia.
Qed.

(** X24.  The experience check of the validation never fires on a profile
    that [_parse_single_resume] returned, whatever the file and the
    readers: the issue "Invalid experience years" cannot appear for it. *)
Theorem parsed_profile_passes_experience_check
    (b64decode pdf_text docx_text : string → option string)
    (decode_utf8 : string → string)
    (extract_name extract_email extract_phone : string → option string)
    (extract_skills : string → list string)
    (extract_position extract_education extract_location : string → option string)
    (file_content filename : string) (p : CandidateProfile)
    (valid : list CandidateProfile) :
  ResumeParser._parse_single_resume b64decode pdf_text docx_text decode_utf8
    extract_name extract_email extract_phone extract_skills extract_position
    extract_education extract_location file_content filename = Ok p →
  (0 <= experience_years p <= 50)%Z
  ∧ "Invalid experience years"%string
    ∉ BulkProcessor.validation_issues_of valid p.
Proof.
  intros Hp.
  assert (Hr : (0 <= experience_years p <= 50)%Z).
  { unfold ResumeParser._parse_single_resume in Hp.
    destruct (b64decode file_content) as [file_bytes|].
    - destruct (ResumeParser.insufficient _); injection Hp as <-; simpl;
        [lia | apply extract_experience_years_range].
    - injection Hp as <-. simpl. lia. }
  split; [exact Hr|].
  unfold BulkProcessor.validation_issues_of.
  assert (E : (experience_years p <? 0)%Z || (50 <? experience_years p)%Z = false).
  { apply orb_false_iff. split; [apply Z.ltb_ge | apply Z.ltb_ge]; lia. }
  rewrite E, app_nil_r. rewrite !elem_of_app.
  intros [H|[H|[H|[H|H]]]];
    match type of H with
    | _ ∈ (if ?b then _ else _) => destruct b
    end;
    first [by apply elem_of_nil in H
          | apply list_elem_of_singleton in H; discriminate].
Qed.

Lemma parsed_profile_passes_experience_check_witness :
  let some := λ s : string, Some s in
  let none := λ _ : string, @None string in
  let text := ("Pat Doe" +:+ ResumeParser.newline
               +:+ "75 years of experience in software engineering")%string in
  ∃ p, ResumeParser._parse_single_resume some none none (λ _, text)
         none none none (λ _, []) none none none "UGF0" "cv.txt" = Ok p
       ∧ experience_years p = 50%Z
       ∧ "Invalid experience years"%string
         ∉ BulkProcessor.validation_issues_of [] p.
Proof.
  intros some none text. eexists. split; [vm_compute; reflexivity|].
  split; [vm_compute; reflexivity|].
  exact (proj2 (parsed_profile_passes_experience_check some none none
                  (λ _, text) none none none (λ _, []) none none none "UGF0"
                  "cv.txt" _ [] eq_refl)).
Defined.

Section FileExtension.

Import ResumeParser.

Local Arguments Ascii.eqb : simpl never.

Lemma split_nonempty sep s : PyStr.split sep s ≠ [].
Proof.
  destruct s as [|c s]; simpl; [done|].
  destruct (Ascii.eqb c sep); [done|]. by destruct (PyStr.split sep s).
Qed.

(** Without the separator there is nothing to split. *)
Lemma split_no_dot s : no_dot s = true → PyStr.split "." s = [s].
Proof.
  induction s as [|c s IH]; simpl; [done|].
  intros H. apply andb_prop in H as [Hc Hs]. apply negb_true_iff in Hc.
  rewrite Hc, (IH Hs). done.
Qed.

Lemma last_split_skip sep c s :
  (2 <= length (PyStr.split sep s))%nat →
  last (PyStr.split sep (String c s)) = last (PyStr.split sep s)
  ∧ (2 <= length (PyStr.split sep (String c s)))%nat.
Proof.
  intros H. simpl. destruct (Ascii.eqb c sep).
  - destruct (PyStr.split sep s) as [|w [|w' ws]]; simpl in *; try lia.
    split; [done | lia].
  - destruct (PyStr.split sep s) as [|w [|w' ws]]; simpl in *; try lia.
    split; [done | lia].
Qed.

(** What follows the last dot is the last piece. *)
Lemma last_split_dot stem : ∀ ext,
  no_dot ext = true →
  last (PyStr.split "." (stem +:+ "." +:+ ext)) = Some ext
  ∧ (2 <= length (PyStr.split "." (stem +:+ "." +:+ ext)))%nat.
Proof.
  induction stem as [|c stem IH]; intros ext He.
  - change ("" +:+ "." +:+ ext)%string with (String "." ext).
    simpl. change (Ascii.eqb "." ".") with true. cbv iota.
    rewrite (split_no_dot ext He). done.
  - change (String c stem +:+ "." +:+ ext)%string
      with (String c (stem +:+ "." +:+ ext)).
    destruct (IH ext He) as [Hl Hn].
    destruct (last_split_skip "." c _ Hn) as [-> Hn']. done.
Qed.

Lemma lower_app s : ∀ t, PyStr.lower (s +:+ t) = (PyStr.lower s +:+ PyStr.lower t)%string.
Proof. induction s as [|c s IH]; intros t; simpl; [done | by rewrite IH]. Qed.

Lemma lower_char_dot c : Ascii.eqb (PyStr.lower_char c) "." = Ascii.eqb c ".".
Proof. destruct c as [[] [] [] [] [] [] [] []]; reflexivity. Qed.

Lemma no_dot_lower s : no_dot (PyStr.lower s) = no_dot s.
Proof.
  induction s as [|c s IH]; simpl; [done|]. by rewrite lower_char_dot, IH.
Qed.

(** The extension is what follows the last dot, in lower case; a name
    without a dot is its own extension. *)
Lemma file_extension_spec stem ext :
  no_dot ext = true →
  file_extension (stem +:+ "." +:+ ext) = PyStr.lower ext
  ∧ file_extension ext = PyStr.lower ext.
Proof.
  intros He. unfold file_extension. split.
  - rewrite !lower_app. change (PyStr.lower ".") with "."%string.
    destruct (last_split_dot (PyStr.lower stem) (PyStr.lower ext)) as [-> _];
      [by rewrite no_dot_lower | done].
  - rewrite split_no_dot by by rewrite no_dot_lower. done.
Qed.

End FileExtension.

(** X25.  A file whose name ends in an extension other than pdf, docx,
    doc or txt (compared in lower case), or has no dot and is none of
    these words, is never read: whatever its content, the profile returned
    is the failure one. *)
Theorem unsupported_extension_is_not_read
    (b64decode pdf_text docx_text : string → option string)
    (decode_utf8 : string → string)
    (extract_name extract_email extract_phone : string → option string)
    (extract_skills : string → list string)
    (extract_position extract_education extract_location : string → option string)
    (file_content stem ext filename : string) :
  no_dot ext = true →
  PyStr.mem (PyStr.lower ext) supported_extensions = false →
  filename = (stem +:+ "." +:+ ext)%string ∨ filename = ext →
  ResumeParser._extract_text pdf_text docx_text decode_utf8 file_content
    filename = ""%string
  ∧ ResumeParser._parse_single_resume b64decode pdf_text docx_text decode_utf8
      extract_name extract_email extract_phone extract_skills extract_position
      extract_education extract_location file_content filename
    = Ok (ResumeParser._create_empty_candidate filename).
Proof.
  intros He Hu Hf.
  assert (Hx : ResumeParser.file_extension filename = PyStr.lower ext).
  { destruct (file_extension_spec stem ext He) as [H1 H2].
    destruct Hf as [-> | ->]; done. }
  assert (Ht : ∀ file_bytes,
             ResumeParser._extract_text pdf_text docx_text decode_utf8
               file_bytes filename = ""%string).
  { intros file_bytes. unfold ResumeParser._extract_text. rewrite Hx.
    unfold supported_extensions, PyStr.mem in *. simpl in *.
    destruct (String.eqb (PyStr.lower ext) "pdf") eqn:E1; [done|].
    destruct (String.eqb (PyStr.lower ext) "docx") eqn:E2; [done|].
    destruct (String.eqb (PyStr.lower ext) "doc") eqn:E3; [done|].
    destruct (String.eqb (PyStr.lower ext) "txt") eqn:E4; [done|]. done. }
  split; [apply Ht|].
  unfold ResumeParser._parse_single_resume.
  destruct (b64decode file_content) as [file_bytes|]; [|done].
  by rewrite Ht.
Qed.

Lemma unsupported_extension_is_not_read_witness :
  let some := λ s : string, Some s in
  let none := λ _ : string, @None string in
  ResumeParser._parse_single_resume some some some (λ b, b)
    none none none (λ _, []) none none none "UEsDBA==" "cv.final.ODT"
  = Ok (ResumeParser._create_empty_candidate "cv.final.ODT").
Proof.
  intros some none.
  exact (proj2 (unsupported_extension_is_not_read some some some (λ b, b)
                  none none none (λ _, []) none none none "UEsDBA=="
                  "cv.final" "ODT" "cv.final.ODT" eq_refl eq_refl
                  (or_introl eq_refl))).
Defined.

Section SectionFacts.

Import ResumeParser.

Local Arguments Ascii.eqb : simpl never.

Lemma from_start_spec kws lines :
  match from_start kws lines with
  | None => Forall (λ line, mentions kws line = false) lines
  | Some found =>
      ∃ before header rest,
        lines = before ++ header :: rest ∧ found = header :: rest
        ∧ Forall (λ line, mentions kws line = false) before
        ∧ mentions kws header = true
  end.
Proof.
  induction lines as [|line rest IH]; simpl; [constructor|].
  fold (mentions kws line). destruct (mentions kws line) eqn:E.
  - exists [], line, rest. repeat split; [constructor | done].
  - destruct (from_start kws rest) as [found|].
    + destruct IH as (before & header & rest' & -> & -> & Hb & Hh).
      exists (line :: before), header, rest'. repeat split; try done.
      by constructor.
    + by constructor.
Qed.

Lemma until_end_spec kws lines :
  ∃ after,
    lines = until_end kws lines ++ after
    ∧ Forall (λ line, starts_other_section kws line = false) (until_end kws lines)
    ∧ match after with
      | [] => True
      | line :: _ => starts_other_section kws line = true
      end.
Proof.
  induction lines as [|line rest IH]; simpl.
  - exists []. repeat split; constructor.
  - destruct (starts_other_section kws line) eqn:E.
    + exists (line :: rest). repeat split; [constructor | done].
    + destruct IH as (after & Hl & Hf & Ha). exists after.
      repeat split; [simpl; congruence | by constructor | done].
Qed.

Lemma split_one_line s : one_line s = true → PyStr.split PyStr.nl s = [s].
Proof.
  induction s as [|c s IH]; simpl; [done|].
  intros H. apply andb_prop in H as [Hc Hs]. apply negb_true_iff in Hc.
  rewrite Hc, (IH Hs). done.
Qed.

Lemma split_app_line s : ∀ t,
  one_line s = true →
  PyStr.split PyStr.nl (s +:+ newline +:+ t) = s :: PyStr.split PyStr.nl t.
Proof.
  induction s as [|c s IH]; intros t H.
  - change ("" +:+ newline +:+ t)%string with (String PyStr.nl t). simpl.
    change (Ascii.eqb PyStr.nl PyStr.nl) with true. done.
  - change (String c s +:+ newline +:+ t)%string
      with (String c (s +:+ newline +:+ t)).
    simpl in *. apply andb_prop in H as [Hc Hs]. apply negb_true_iff in Hc.
    rewrite Hc, (IH t Hs). done.
Qed.

(** Lines that are joined come back when the text is split. *)
Lemma split_join lines :
  lines ≠ [] → Forall (λ line, one_line line = true) lines →
  PyStr.split PyStr.nl (PyStr.join newline lines) = lines.
Proof.
  induction lines as [|line rest IH]; [done|]. intros _ H.
  apply Forall_cons in H as [Hl Hr]. destruct rest as [|line' rest].
  - simpl. by apply split_one_line.
  - change (PyStr.join newline (line :: line' :: rest))
      with (line +:+ newline +:+ PyStr.join newline (line' :: rest))%string.
    rewrite split_app_line by done. by rewrite IH.
Qed.

Lemma split_lines_one_line s :
  Forall (λ line, one_line line = true) (PyStr.split PyStr.nl s).
Proof.
  induction s as [|c s IH]; simpl; [by repeat constructor|].
  destruct (Ascii.eqb c PyStr.nl) eqn:E; [by constructor|].
  destruct (PyStr.split PyStr.nl s) as [|w ws]; simpl.
  - repeat constructor. simpl. by rewrite E.
  - apply Forall_cons in IH as [Hw Hws]. constructor; [|done].
    simpl. by rewrite E, Hw.
Qed.

End SectionFacts.

(** X26.  [_extract_section] returns [None] exactly when no line of the
    text mentions a keyword.  Otherwise the section is a run of
    consecutive lines of the text: it starts at the first line that
    mentions a keyword, holds no later line that starts another section,
    and stops at the end of the text or before the first such line;
    splitting it gives those lines back. *)
Theorem extract_section_is_a_run_of_lines
    (text : string) (section_keywords : list string) :
  let lines := PyStr.split PyStr.nl text in
  (ResumeParser._extract_section text section_keywords = None
   ↔ Forall (λ line, mentions section_keywords line = false) lines)
  ∧ ∀ section,
      ResumeParser._extract_section text section_keywords = Some section →
      ∃ before header body after,
        lines = before ++ header :: body ++ after
        ∧ PyStr.split PyStr.nl section = header :: body
        ∧ Forall (λ line, mentions section_keywords line = false) before
        ∧ mentions section_keywords header = true
        ∧ Forall (λ line,
                    ResumeParser.starts_other_section section_keywords line
                    = false) body
        ∧ match after with
          | [] => True
          | line :: _ =>
              ResumeParser.starts_other_section section_keywords line = true
          end.
Proof.
  intros lines. unfold ResumeParser._extract_section. fold lines.
  pose proof (from_start_spec section_keywords lines) as Hs.
  pose proof (split_lines_one_line text) as Hone. fold lines in Hone.
  destruct (ResumeParser.from_start section_keywords lines) as [found|].
  - destruct Hs as (before & header & rest & Hl & -> & Hb & Hh). split.
    + split; [done|]. intros Hall. rewrite Hl in Hall.
      apply Forall_app in Hall as [_ Hall]. apply Forall_cons in Hall as [E _].
      congruence.
    + intros section H. injection H as <-.
      destruct (until_end_spec section_keywords rest) as (after & Hr & Hf & Ha).
      exists before, header, (ResumeParser.until_end section_keywords rest), after.
      rewrite <- Hr. split; [exact Hl|]. split; [|by repeat split].
      refine (split_join (header :: ResumeParser.until_end section_keywords rest)
                _ _); [done|].
      rewrite Hl in Hone. apply Forall_app in Hone as [_ Hone].
      apply Forall_cons in Hone as [H1 H2]. constructor; [done|].
      rewrite Hr in H2. by apply Forall_app in H2 as [H2 _].
  - split; [done|]. intros section H. discriminate.
Qed.

(** ** The candidate scores *)

Section ScoreFacts.

Import ResumeScores.

(** Rounding leaves a whole number as it is. *)
Lemma round_half_even_integer (y : Q) (n : Z) :
  y == inject_Z n → round_half_even y = n.
Proof.
  intros H. destruct (round_half_even_bounds n n y) as [H1 H2];
    [rewrite H; apply Qle_refl | rewrite H; apply Qle_refl | ].
  lia.
Qed.

Lemma py_round2_integer (x : Q) (n : Z) :
  x == inject_Z n → py_round x 2 == inject_Z n.
Proof.
  intros H. unfold py_round.
  change (inject_Z (10 ^ Z.of_nat 2)) with (100 # 1).
  rewrite (round_half_even_integer (x * (100 # 1)) (100 * n)).
  - rewrite inject_Z_mult. change (inject_Z 100) with (100 # 1). field.
  - rewrite inject_Z_mult, H. change (inject_Z 100) with (100 # 1). ring.
Qed.

Lemma py_round2_bounds (lo hi : Z) (x : Q) :
  inject_Z lo <= x → x <= inject_Z hi →
  inject_Z lo <= py_round x 2 ∧ py_round x 2 <= inject_Z hi.
Proof.
  intros Hlo Hhi. unfold py_round.
  change (inject_Z (10 ^ Z.of_nat 2)) with (100 # 1).
  unfold Qdiv. change (/ (100 # 1)) with (1 # 100).
  destruct (round_half_even_bounds (100 * lo) (100 * hi) (x * (100 # 1)))
    as [H1 H2].
  { rewrite inject_Z_mult. change (inject_Z 100) with (100 # 1).
    set (a := inject_Z lo) in *. lra. }
  { rewrite inject_Z_mult. change (inject_Z 100) with (100 # 1).
    set (b := inject_Z hi) in *. lra. }
  apply inject_Z_ge in H1, H2. rewrite inject_Z_mult in H1, H2.
  change (inject_Z 100) with (100 # 1) in H1, H2.
  set (a := inject_Z lo) in *. set (b := inject_Z hi) in *.
  set (r := inject_Z (round_half_even _)) in *. lra.
Qed.

(** A tenth of a whole number, capped at 1 and scaled by 40. *)
Lemma capped_tenth (n : Z) :
  py_fmin (inject_Z n / 10.0) 1.0 * 40 == inject_Z (4 * Z.min n 10).
Proof.
  rewrite py_fmin_Qmin, inject_Z_mult. change (inject_Z 4) with 4.
  destruct (Z.le_ge_cases n 10) as [H|H].
  - rewrite Z.min_l by done. rewrite Q.min_l.
    + field.
    + apply Qle_shift_div_r; [done|]. apply inject_Z_ge in H.
      change (inject_Z 10) with 10 in H. lra.
  - rewrite Z.min_r by lia. rewrite Q.min_r.
    + change (inject_Z 10) with 10. ring.
    + apply Qle_shift_div_l; [done|]. assert (H' : (10 <= n)%Z) by lia.
      apply inject_Z_ge in H'. change (inject_Z 10) with 10 in H'. lra.
Qed.

Lemma education_points_range level : (0 <= education_points level <= 20)%Z.
Proof.
  unfold education_points. destruct level as [s|]; simpl; [|lia].
  repeat (destruct (String.eqb s _); simpl; [lia|]). lia.
Qed.

(** The overall score is a whole number: rounding has nothing to do. *)
Lemma overall_score_closed skills years level :
  _calculate_overall_score skills years level
  == inject_Z (4 * Z.min (Z.of_nat (length skills)) 10
               + 4 * Z.min years 10 + education_points level).
Proof.
  unfold _calculate_overall_score. apply py_round2_integer.
  rewrite !capped_tenth. fold (education_points level).
  rewrite !inject_Z_plus. ring.
Qed.

Lemma technical_step_bounds acc skill :
  acc + 1 <= technical_step acc skill ∧ technical_step acc skill <= acc + 2.
Proof.
  unfold technical_step.
  repeat match goal with |- context [if ?b then _ else _] => destruct b end;
    lra.
Qed.

Lemma technical_sum_bounds skills : ∀ acc,
  acc + inject_Z (Z.of_nat (length skills)) <= foldl technical_step acc skills
  ∧ foldl technical_step acc skills
    <= acc + inject_Z (2 * Z.of_nat (length skills)).
Proof.
  induction skills as [|skill rest IH]; intros acc.
  - cbn [foldl length]. change (inject_Z (Z.of_nat 0)) with 0.
    change (inject_Z (2 * Z.of_nat 0)) with 0. lra.
  - cbn [foldl length]. destruct (IH (technical_step acc skill)) as [H1 H2].
    destruct (technical_step_bounds acc skill) as [H3 H4].
    rewrite Nat2Z.inj_succ. unfold Z.succ.
    rewrite Z.mul_add_distr_l, !inject_Z_plus, inject_Z_mult in *.
    change (inject_Z 1) with 1. change (inject_Z (2 * 1)) with 2.
    change (inject_Z 2) with 2 in *. lra.
Qed.

End ScoreFacts.

(** X27.  The overall score of a candidate is the whole number
    4·min(skills, 10) + 4·min(years, 10) + education points: rounding
    never changes it, it lies between 0 and 100 for a non-negative
    experience, and nothing beyond ten skills or ten years adds to it. *)
Theorem overall_score_is_capped_sum
    (skills : list string) (years : Z) (level : option string) :
  (0 <= years)%Z →
  ResumeScores._calculate_overall_score skills years level
  == inject_Z (4 * Z.min (Z.of_nat (length skills)) 10
               + 4 * Z.min years 10 + education_points level)
  ∧ 0 <= ResumeScores._calculate_overall_score skills years level
  ∧ ResumeScores._calculate_overall_score skills years level <= 100
  ∧ (∀ skills' years', (10 <= length skills)%nat → (10 <= length skills')%nat →
       (10 <= years)%Z → (10 <= years')%Z →
       ResumeScores._calculate_overall_score skills' years' level
       == ResumeScores._calculate_overall_score skills years level).
Proof.
  intros Hy. pose proof (education_points_range level) as He.
  split; [apply overall_score_closed|].
  rewrite overall_score_closed. split; [|split].
  - change 0 with (inject_Z 0). rewrite <- Zle_Qle. lia.
  - change 100 with (inject_Z 100). rewrite <- Zle_Qle. lia.
  - intros skills' years' H1 H2 H3 H4. rewrite !overall_score_closed.
    rewrite !Z.min_r by lia. reflexivity.
Qed.

Lemma overall_score_is_capped_sum_witness :
  ResumeScores._calculate_overall_score ["Python"; "SQL"; "Docker"]%string
    12%Z (Some "Masters"%string) == 68.
Proof.
  rewrite (proj1 (overall_score_is_capped_sum ["Python"; "SQL"; "Docker"]%string
                    12%Z (Some "Masters"%string) ltac:(lia))).
  reflexivity.
Defined.

(** X28.  The technical score lies between the number of skills and twice
    that number, both capped at 100; for the at most 20 skills that the
    parser keeps, it is at most 40, so the cap at 100 never applies. *)
Theorem technical_score_between_one_and_two_per_skill (skills : list string) :
  let n := Z.of_nat (length skills) in
  inject_Z (Z.min n 100) <= ResumeScores._calculate_technical_score skills
  ∧ ResumeScores._calculate_technical_score skills
    <= inject_Z (Z.min (2 * n) 100)
  ∧ ((length skills <= 20)%nat →
     ResumeScores._calculate_technical_score skills <= 40
     ∧ ResumeScores._calculate_technical_score skills
       == py_round (foldl ResumeScores.technical_step 0 skills) 2).
Proof.
  intros n. unfold ResumeScores._calculate_technical_score.
  destruct (technical_sum_bounds skills 0) as [H1 H2]. fold n in H1, H2.
  set (total := foldl ResumeScores.technical_step 0 skills) in *.
  assert (Hm : (py_fmin total 100.0 == total ∧ total <= 100)
               ∨ (py_fmin total 100.0 == 100 ∧ 100 <= total)).
  { unfold py_fmin. destruct (Qltb 100.0 total) eqn:E.
    - apply Qltb_true in E. right. split; [reflexivity | lra].
    - apply Qltb_false in E. left. split; [reflexivity | lra]. }
  assert (Hlo : inject_Z (Z.min n 100) <= py_fmin total 100.0).
  { pose proof (inject_Z_ge n (Z.min n 100) ltac:(lia)).
    pose proof (inject_Z_ge 100 (Z.min n 100) ltac:(lia)) as H100.
    change (inject_Z 100) with 100 in H100.
    destruct Hm as [[-> _]|[-> _]]; lra. }
  assert (Hhi : py_fmin total 100.0 <= inject_Z (Z.min (2 * n) 100)).
  { destruct (Z.le_ge_cases (2 * n) 100) as [H|H].
    - rewrite Z.min_l by done. destruct Hm as [[-> _]|[-> ?]]; lra.
    - rewrite Z.min_r by lia. change (inject_Z 100) with 100.
      destruct Hm as [[-> ?]|[-> _]]; lra. }
  destruct (py_round2_bounds _ _ _ Hlo Hhi) as [H3 H4].
  split; [exact H3|]. split; [exact H4|]. intros H20.
  assert (Hn : (n <= 20)%Z) by (unfold n; lia).
  split.
  - pose proof (inject_Z_ge 40 (Z.min (2 * n) 100) ltac:(lia)) as H5.
    change (inject_Z 40) with 40 in H5. lra.
  - assert (Ht : total <= 40).
    { pose proof (inject_Z_ge 40 (2 * n) ltac:(lia)) as H5.
      change (inject_Z 40) with 40 in H5. lra. }
    unfold py_fmin. destruct (Qltb 100.0 total) eqn:E; [|reflexivity].
    apply Qltb_true in E. lra.
Qed.

(** ** The education level *)

Section EducationLevel.

Import Regex ResumeEducation.

Local Arguments Ascii.eqb : simpl never.

(** A literal matches where the text starts with it. *)
Lemma run_lit_prefix w : ∀ s cap (k : cont),
  (∀ s' cap', is_Some (k s' cap')) →
  PyStr.startswith w s = true →
  is_Some (run false (lit w) s cap k).
Proof.
  induction w as [|c w IH]; intros s cap k Hk Hs.
  - simpl. apply Hk.
  - destruct s as [|a s]; [done|]. simpl in Hs.
    apply andb_prop in Hs as [Hc Hw].
    destruct w as [|c' w'].
    + simpl. unfold chr_eqb. rewrite Hc. apply Hk.
    + change (lit (String c (String c' w')))
        with (Cat (Chr c) (lit (String c' w'))).
      cbn [run]. unfold chr_eqb. rewrite Hc. by apply IH.
Qed.

(** So a word that occurs in the text is found by the search for it. *)
Lemma search_lit_contains w s :
  PyStr.contains w s = true → search false (lit w) s = true.
Proof.
  induction s as [|a s IH]; intros H.
  - simpl in *. rewrite orb_false_r in H.
    destruct (run_lit_prefix w "" None (λ s' cap, Some (s', cap))) as [x Hx];
      [by eauto | done|].
    unfold match_here. by rewrite Hx.
  - cbn [PyStr.contains] in H. cbn [search].
    destruct (match_here false (lit w) (String a s)) eqn:E; [done|].
    apply orb_prop in H as [H|H]; [|by apply IH].
    destruct (run_lit_prefix w (String a s) None (λ s' cap, Some (s', cap)))
      as [x Hx]; [by eauto | done|].
    unfold match_here in E. congruence.
Qed.

End EducationLevel.

(** X29.  Every level that [_extract_education_level] can return is a key
    of the matching engine's education hierarchy, with a rank from 1 to
    5, and the overall score gives it four points per rank. *)
Theorem extracted_level_is_known_to_engine (text level : string) :
  ResumeEducation._extract_education_level text = Some level →
  ∃ rank,
    MatchingEngine.dict_get MatchingEngine.education_hierarchy level = Some rank
    ∧ (1 <= rank <= 5)%Z
    ∧ education_rank level = rank
    ∧ education_points (Some level) = (4 * rank)%Z.
Proof.
  unfold ResumeEducation._extract_education_level,
    ResumeEducation.education_patterns.
  cbn [ResumeEducation.first_level].
  repeat match goal with
         | |- context [if existsb ?f ?l then _ else _] => destruct (existsb f l)
         end;
    intros H; try discriminate; injection H as <-;
    eexists; (split; [vm_compute; reflexivity|]);
    (split; [lia|]); split; reflexivity.
Qed.

Lemma extracted_level_is_known_to_engine_witness :
  ∃ rank,
    MatchingEngine.dict_get MatchingEngine.education_hierarchy "Masters"
    = Some rank ∧ (1 <= rank <= 5)%Z.
Proof.
  destruct (extracted_level_is_known_to_engine
              "MBA, Harvard Business School" "Masters" eq_refl)
    as (rank & H1 & H2 & _).
  exists rank. split; [exact H1 | exact H2].
Defined.

(** X30.  The pattern for the GED is searched anywhere in the lowered
    text, inside words too: a text in which the letters "ged" occur
    (as in "managed" or "Leveraged") always gets an education level. *)
Theorem ged_inside_a_word_gives_a_level (text : string) :
  PyStr.contains "ged" (PyStr.lower text) = true →
  ∃ level, ResumeEducation._extract_education_level text = Some level
           ∧ (1 <= education_rank level)%Z.
Proof.
  intros H. apply search_lit_contains in H.
  assert (Hl : is_Some (ResumeEducation._extract_education_level text)).
  { unfold ResumeEducation._extract_education_level,
      ResumeEducation.education_patterns.
    cbn [ResumeEducation.first_level].
    repeat match goal with
           | |- context [if existsb ?f ?l then _ else _] =>
               destruct (existsb f l) eqn:?; [by eauto|]
           end.
    exfalso.
    match goal with
    | E : existsb _ [_; _; Regex.lit "ged"] = false |- _ =>
        cbn [existsb] in E; rewrite H in E;
        by rewrite !orb_true_r in E
    end. }
  destruct Hl as [level Hl]. exists level. split; [exact Hl|].
  unfold ResumeEducation._extract_education_level,
    ResumeEducation.education_patterns in Hl.
  cbn [ResumeEducation.first_level] in Hl.
  repeat match type of Hl with
         | context [if existsb ?f ?l then _ else _] => destruct (existsb f l)
         end;
    try discriminate; injection Hl as <-; vm_compute; discriminate.
Qed.

Lemma ged_inside_a_word_gives_a_level_witness :
  ∃ level,
    ResumeEducation._extract_education_level "Managed a team of five"
    = Some level ∧ (1 <= education_rank level)%Z.
Proof. apply ged_inside_a_word_gives_a_level. vm_compute. reflexivity. Defined.
